(** * class-utils: a shallow embedding of the library and its host object model

    The library is a thin reflective layer over the ECMAScript object model.
    The embedding has two layers:

    - the host: the part of the object model the library calls into
      (ordinary objects with property descriptors, prototype chains,
      Object.defineProperty, Object.seal, instanceof, ...), written after the
      ECMAScript specification of those operations;
    - the library: one definition per source function, under the name and in
      the order of the source file.

    Functions written by the users of the library are opaque: their behaviour
    is a parameter ([host_call]) that maps a function identity, the current
    heap, a receiver and arguments to an outcome and a new heap.

    Boundaries of the model. Objects are ordinary objects (no proxies).
    The descriptor objects that Object.getOwnPropertyDescriptor returns are
    fresh and never shared, so they are records; Object.prototype is taken to
    define none of the descriptor field names and to keep its __proto__
    accessor. The result object and the value array of an iterator are shared
    and live in the heap. The options object of restrict is a record of the
    three properties the code reads, typed as in index.d.ts. Behaviour outside
    these boundaries ends in the outcome [Stuck]. The receiver of a guard is
    taken as it is passed: the statements about calls of guards are about
    receivers that are objects, which the host passes unchanged. Numbers are
    integers; only the safe integers are converted to strings. A guard hands
    its arguments to the apply method it finds on the wrapped function: the
    host's Function.prototype.apply is modelled, another function in its
    place is not. *)

From Stdlib Require Import ZArith String Ascii List Lia DecimalString.
From stdpp Require Import base option list strings.

Local Open Scope string_scope.
Local Open Scope list_scope.

(** ** Values, property descriptors, heap cells *)

Abbreviation loc := nat (only parsing).

(** Property keys are strings or symbols. *)
Inductive key :=
| KStr (s : string)
| KSym (n : nat).

(** Numbers are modelled by integers: no claim depends on floating point. *)
Inductive value :=
| VUndef
| VNull
| VBool (b : bool)
| VNum (z : Z)
| VStr (s : string)
| VSym (n : nat)
| VObj (l : loc).

#[global] Instance key_eq_dec : EqDecision key.
Proof. solve_decision. Defined.

#[global] Instance value_eq_dec : EqDecision value.
Proof. solve_decision. Defined.

(** The well-known symbols the library reads from the global [Symbol]. *)
Definition Symbol_iterator : nat := 0.
Definition Symbol_toStringTag : nat := 1.
Definition Symbol_hasInstance : nat := 2.

Definition value_of_key (k : key) : value :=
  match k with
  | KStr s => VStr s
  | KSym n => VSym n
  end.

(** A complete property descriptor, as stored in an object and as returned by
    [Object.getOwnPropertyDescriptor]. An absent getter or setter is
    [VUndef]. *)
Inductive property :=
| PData (v : value) (writable enumerable configurable : bool)
| PAccessor (get set : value) (enumerable configurable : bool).

#[global] Instance prop_eq_dec : EqDecision property.
Proof. solve_decision. Defined.

Definition p_configurable (p : property) : bool :=
  match p with
  | PData _ _ _ c => c
  | PAccessor _ _ _ c => c
  end.

Definition p_enumerable (p : property) : bool :=
  match p with
  | PData _ _ e _ => e
  | PAccessor _ _ e _ => e
  end.

Definition p_is_data (p : property) : bool :=
  match p with
  | PData _ _ _ _ => true
  | PAccessor _ _ _ _ => false
  end.

(** A partial descriptor, the argument of [Object.defineProperty]. *)
Record descriptor := {
  d_value : option value;
  d_writable : option bool;
  d_get : option value;
  d_set : option value;
  d_enumerable : option bool;
  d_configurable : option bool
}.

Definition to_descriptor (p : property) : descriptor :=
  match p with
  | PData v w e c =>
      {| d_value := Some v; d_writable := Some w; d_get := None; d_set := None;
         d_enumerable := Some e; d_configurable := Some c |}
  | PAccessor g s e c =>
      {| d_value := None; d_writable := None; d_get := Some g; d_set := Some s;
         d_enumerable := Some e; d_configurable := Some c |}
  end.

(** What calling an object does. *)
Inductive fun_kind :=
| NotCallable
| HostFn (id : nat)
    (* a function of the library's user; run by [host_call] *)
| BuiltinHasInstance
    (* the host's Function.prototype[Symbol.hasInstance] *)
| BuiltinApply
    (* the host's Function.prototype.apply *)
| Guard (iface prop original : value).
    (* the closure returned by validateInterface *)

Record object := {
  o_props : list (key * property);
  o_proto : value;
  o_extensible : bool;
  o_call : fun_kind
}.

(** One slot of the array that the iterator of propertiesOf hands out. *)
Inductive slot :=
| SEmpty
| SKey (k : key)
| SDesc (d : option property).

(** Heap cells. [CResult] and [CArray] are the result object and the value
    array shared by all steps of one propertiesOf iterator. *)
Inductive cell :=
| CObj (o : object)
| CResult (done : bool) (value : loc)
| CArray (slots : list slot) (frozen : bool).

Abbreviation heap := (list cell) (only parsing).

(** ** Outcomes and the state monad of the library *)

Inductive error :=
| TypeError (msg : string).

Inductive outcome (A : Type) :=
| Ok (a : A)
| Throw (e : error)
| Stuck.
    (* out of fuel, or host behaviour outside the model *)

Arguments Ok {A} a.
Arguments Throw {A} e.
Arguments Stuck {A}.

(** [st_restrictMap] is the module-level variable restrictMap. *)
Record state := {
  st_heap : heap;
  st_restrictMap : list value
}.

Definition M (A : Type) : Type := state -> outcome A * state.

Definition ret {A} (a : A) : M A := fun st => (Ok a, st).
Definition throw {A} (e : error) : M A := fun st => (Throw e, st).
Definition stuck {A} : M A := fun st => (Stuck, st).

Definition bind {A B} (m : M A) (k : A -> M B) : M B :=
  fun st =>
    match m st with
    | (Ok a, st') => k a st'
    | (Throw e, st') => (Throw e, st')
    | (Stuck, st') => (Stuck, st')
    end.

Notation "'let*' x ':=' c 'in' k" := (bind c (fun x => k))
  (at level 10, x pattern, c at level 100, k at level 200).

Definition get_heap : M heap := fun st => (Ok (st_heap st), st).

Definition put_heap (h : heap) : M unit :=
  fun st => (Ok tt, {| st_heap := h; st_restrictMap := st_restrictMap st |}).

Definition lift_outcome {A} (o : outcome A) : M A := fun st => (o, st).

Definition alloc (c : cell) : M loc :=
  let* h := get_heap in
  let* _ := put_heap (h ++ [c]) in
  ret (length h).

Definition store (l : loc) (c : cell) : M unit :=
  let* h := get_heap in
  put_heap (<[l := c]> h).

(** ** Own properties of an object *)

Fixpoint own (ps : list (key * property)) (k : key) : option property :=
  match ps with
  | [] => None
  | (k', p) :: ps' => if decide (k' = k) then Some p else own ps' k
  end.

(** Redefine [k] in place, or append it when it is new. *)
Fixpoint own_set (ps : list (key * property)) (k : key) (p : property)
  : list (key * property) :=
  match ps with
  | [] => [(k, p)]
  | (k', p') :: ps' =>
      if decide (k' = k) then (k, p) :: ps' else (k', p') :: own_set ps' k p
  end.

Definition is_str_key (k : key) : bool :=
  match k with KStr _ => true | KSym _ => false end.

(** The stored order of [o_props] stands for the host's enumeration order. *)
Definition own_names (ps : list (key * property)) : list key :=
  filter (fun k => is_str_key k = true) (map fst ps).

Definition own_symbols (ps : list (key * property)) : list key :=
  filter (fun k => is_str_key k = false) (map fst ps).

(** ** The host: reflection primitives

    Written after the ECMAScript specification of the operations the library
    calls. Exceptions raised by the host carry an engine-dependent message; only
    their kind matters. *)

Definition host_msg_not_object : string := "not an object".
Definition host_msg_cannot_define : string := "cannot define property".
Definition host_msg_bad_descriptor : string :=
  "invalid property descriptor".
Definition host_msg_nullish : string := "cannot convert undefined or null to object".
Definition host_msg_symbol_to_string : string :=
  "cannot convert a Symbol value to a string".
Definition host_msg_not_callable : string := "not a function".
Definition host_msg_bad_prototype : string := "prototype may only be an object or null".
Definition host_msg_bad_instanceof : string := "right-hand side of instanceof is not callable".

(** The prototype objects of the host's intrinsics. *)
Record realm := {
  Object_prototype : value;
  Function_prototype : value;
  String_prototype : value;
  Number_prototype : value;
  Boolean_prototype : value;
  Symbol_prototype : value
}.

Definition is_callable_cell (c : option cell) : bool :=
  match c with
  | Some (CObj o) =>
      match o_call o with
      | NotCallable => false
      | _ => true
      end
  | _ => false
  end.

Definition is_callable (h : heap) (v : value) : bool :=
  match v with
  | VObj l => is_callable_cell (h !! l)
  | _ => false
  end.

Definition typeof (h : heap) (v : value) : string :=
  match v with
  | VUndef => "undefined"
  | VNull => "object"
  | VBool _ => "boolean"
  | VNum _ => "number"
  | VStr _ => "string"
  | VSym _ => "symbol"
  | VObj _ => if is_callable h v then "function" else "object"
  end.

Definition to_boolean (v : value) : bool :=
  match v with
  | VUndef | VNull => false
  | VBool b => b
  | VNum z => negb (Z.eqb z 0)
  | VStr s => negb (bool_decide (s = ""))
  | VSym _ | VObj _ => true
  end.

Definition string_of_nat (n : nat) : string :=
  NilEmpty.string_of_uint (Nat.to_uint n).

Definition string_of_Z (z : Z) : string :=
  NilZero.string_of_int (Z.to_int z).

(** The numbers of the model are the integers that the host represents
    exactly, from -(2^53 - 1) to 2^53 - 1; the host prints these with all
    their digits. *)
Definition safe_integer (z : Z) : bool :=
  (Z.abs z <=? 9007199254740991)%Z.

(** ToString on primitives. Converting an object runs its toString or valueOf,
    which is outside the model, and so is the conversion of a number that is
    not a safe integer (the host rounds it and, from 10^21 on, prints it with
    an exponent). *)
Definition to_string (v : value) : outcome string :=
  match v with
  | VUndef => Ok "undefined"
  | VNull => Ok "null"
  | VBool true => Ok "true"
  | VBool false => Ok "false"
  | VNum z => if safe_integer z then Ok (string_of_Z z) else Stuck
  | VStr s => Ok s
  | VSym _ => Throw (TypeError host_msg_symbol_to_string)
  | VObj _ => Stuck
  end.

(** [a + b] when [a] is a string. *)
Definition string_concat (a : string) (b : value) : outcome string :=
  match to_string b with
  | Ok s => Ok (a +:+ s)
  | Throw e => Throw e
  | Stuck => Stuck
  end.

Definition same_value (a b : value) : bool := bool_decide (a = b).

(** Strict equality [===]; it coincides with SameValue on the modelled
    values. *)
Definition strict_equal (a b : value) : bool := bool_decide (a = b).

(** The own properties of a String wrapper: one per character, then length. *)
Fixpoint string_index_props (i : nat) (s : string) : list (key * property) :=
  match s with
  | EmptyString => []
  | String c s' =>
      (KStr (string_of_nat i), PData (VStr (String c EmptyString)) false true false)
        :: string_index_props (S i) s'
  end.

Definition string_props (s : string) : list (key * property) :=
  string_index_props 0 s
    ++ [(KStr "length", PData (VNum (Z.of_nat (String.length s))) false false false)].

(** The own properties of ToObject(v), read without allocating the wrapper. *)
Definition own_props (h : heap) (v : value) : outcome (list (key * property)) :=
  match v with
  | VUndef | VNull => Throw (TypeError host_msg_nullish)
  | VBool _ | VNum _ | VSym _ => Ok []
  | VStr s => Ok (string_props s)
  | VObj l =>
      match h !! l with
      | Some (CObj o) => Ok (o_props o)
      | _ => Stuck
      end
  end.

Definition map_outcome {A B} (f : A -> B) (o : outcome A) : outcome B :=
  match o with
  | Ok a => Ok (f a)
  | Throw e => Throw e
  | Stuck => Stuck
  end.

(** Object.getOwnPropertyNames, Object.getOwnPropertySymbols,
    Object.getOwnPropertyDescriptor. *)
Definition getOwnPropertyNames (o : value) : M (list key) :=
  let* h := get_heap in lift_outcome (map_outcome own_names (own_props h o)).

Definition getOwnPropertySymbols (o : value) : M (list key) :=
  let* h := get_heap in lift_outcome (map_outcome own_symbols (own_props h o)).

Definition getOwnPropertyDescriptor (o : value) (k : key) : M (option property) :=
  let* h := get_heap in
  lift_outcome (map_outcome (fun ps => own ps k) (own_props h o)).

(** Object.prototype.hasOwnProperty.call(obj, key). *)
Definition hasOwnProperty (obj : value) (k : key) : M bool :=
  let* h := get_heap in
  lift_outcome (map_outcome (fun ps => bool_decide (is_Some (own ps k)))
                            (own_props h obj)).

(** ValidateAndApplyPropertyDescriptor. *)
Definition is_accessor_desc (d : descriptor) : bool :=
  bool_decide (is_Some (d_get d)) || bool_decide (is_Some (d_set d)).

Definition is_data_desc (d : descriptor) : bool :=
  bool_decide (is_Some (d_value d)) || bool_decide (is_Some (d_writable d)).

Definition create_prop (d : descriptor) : property :=
  if is_accessor_desc d then
    PAccessor (default VUndef (d_get d)) (default VUndef (d_set d))
              (default false (d_enumerable d)) (default false (d_configurable d))
  else
    PData (default VUndef (d_value d)) (default false (d_writable d))
          (default false (d_enumerable d)) (default false (d_configurable d)).

Definition field_agrees {A} `{EqDecision A} (f : option A) (cur : A) : bool :=
  match f with
  | None => true
  | Some x => bool_decide (x = cur)
  end.

(** The checks that protect a non-configurable property. *)
Definition admissible (cur : property) (d : descriptor) : bool :=
  if p_configurable cur then true
  else
    negb (bool_decide (d_configurable d = Some true))
    && field_agrees (d_enumerable d) (p_enumerable cur)
    && (negb (is_accessor_desc d || is_data_desc d)
        || bool_decide (is_accessor_desc d = negb (p_is_data cur)))
    && match cur with
       | PAccessor g s _ _ => field_agrees (d_get d) g && field_agrees (d_set d) s
       | PData v w _ _ =>
           w || (negb (bool_decide (d_writable d = Some true))
                 && field_agrees (d_value d) v)
       end.

Definition apply_desc (cur : property) (d : descriptor) : property :=
  let e := default (p_enumerable cur) (d_enumerable d) in
  let c := default (p_configurable cur) (d_configurable d) in
  match cur with
  | PData v w _ _ =>
      if is_accessor_desc d then
        PAccessor (default VUndef (d_get d)) (default VUndef (d_set d)) e c
      else PData (default v (d_value d)) (default w (d_writable d)) e c
  | PAccessor g s _ _ =>
      if is_data_desc d then
        PData (default VUndef (d_value d)) (default false (d_writable d)) e c
      else PAccessor (default g (d_get d)) (default s (d_set d)) e c
  end.

Definition validate_and_apply (o : object) (k : key) (d : descriptor)
  : option object :=
  match own (o_props o) k with
  | None =>
      if o_extensible o then
        Some {| o_props := own_set (o_props o) k (create_prop d);
                o_proto := o_proto o;
                o_extensible := o_extensible o;
                o_call := o_call o |}
      else None
  | Some cur =>
      if admissible cur d then
        Some {| o_props := own_set (o_props o) k (apply_desc cur d);
                o_proto := o_proto o;
                o_extensible := o_extensible o;
                o_call := o_call o |}
      else None
  end.

(** Object.defineProperty(O, P, desc). A descriptor that has both accessor
    fields and data fields is refused before the object is looked at. *)
Definition defineProperty (O : value) (k : key) (d : descriptor) : M value :=
  match O with
  | VObj l =>
      if is_accessor_desc d && is_data_desc d
      then throw (TypeError host_msg_bad_descriptor)
      else
        let* h := get_heap in
        match h !! l with
        | Some (CObj o) =>
            match validate_and_apply o k d with
            | Some o' => let* _ := store l (CObj o') in ret O
            | None => throw (TypeError host_msg_cannot_define)
            end
        | _ => stuck
        end
  | _ => throw (TypeError host_msg_not_object)
  end.

(** Object.defineProperties(O, descriptors): the descriptors are applied in the
    key order of the descriptors object, and the first failure throws with
    the earlier ones already applied. *)
Fixpoint define_each (O : value) (ds : list (key * property)) : M unit :=
  match ds with
  | [] => ret tt
  | (k, p) :: ds' =>
      let* _ := defineProperty O k (to_descriptor p) in
      define_each O ds'
  end.

Definition defineProperties (O : value) (ds : list (key * property)) : M value :=
  match O with
  | VObj _ => let* _ := define_each O ds in ret O
  | _ => throw (TypeError host_msg_not_object)
  end.

(** Object.seal(O): a primitive is returned as it is. *)
Definition seal_prop (p : property) : property :=
  match p with
  | PData v w e _ => PData v w e false
  | PAccessor g s e _ => PAccessor g s e false
  end.

Definition seal_object (o : object) : object :=
  {| o_props := map (fun kp => (fst kp, seal_prop (snd kp))) (o_props o);
     o_proto := o_proto o;
     o_extensible := false;
     o_call := o_call o |}.

Definition seal (O : value) : M value :=
  match O with
  | VObj l =>
      let* h := get_heap in
      match h !! l with
      | Some (CObj o) => let* _ := store l (CObj (seal_object o)) in ret O
      | _ => stuck
      end
  | _ => ret O
  end.

(** The [delete] operator on an own property (OrdinaryDelete). *)
Definition delete_property (O : value) (k : key) : M bool :=
  match O with
  | VObj l =>
      let* h := get_heap in
      match h !! l with
      | Some (CObj o) =>
          match own (o_props o) k with
          | None => ret true
          | Some p =>
              if p_configurable p then
                let* _ := store l (CObj
                  {| o_props := filter (fun kp => fst kp <> k) (o_props o);
                     o_proto := o_proto o;
                     o_extensible := o_extensible o;
                     o_call := o_call o |}) in
                ret true
              else ret false
          end
      | _ => stuck
      end
  | _ => stuck
  end.

(** ** The host: the result object and the value array of an iterator

    The code is sloppy-mode, so a write that a frozen array rejects is silently
    dropped. *)

Definition resize (n : nat) (l : list slot) : list slot :=
  take n l ++ replicate (n - length l) SEmpty.

(** [a.length = n] *)
Definition array_set_length (a : loc) (n : nat) : M unit :=
  let* h := get_heap in
  match h !! a with
  | Some (CArray l false) => store a (CArray (resize n l) false)
  | Some (CArray l true) => ret tt
  | _ => stuck
  end.

(** [a[i] = s]; writing past the end extends the array. *)
Definition array_set (a : loc) (i : nat) (s : slot) : M unit :=
  let* h := get_heap in
  match h !! a with
  | Some (CArray l false) =>
      store a (CArray (<[i := s]> (resize (Nat.max (S i) (length l)) l)) false)
  | Some (CArray l true) => ret tt
  | _ => stuck
  end.

(** [a[i]] *)
Definition array_get (a : loc) (i : nat) : M slot :=
  let* h := get_heap in
  match h !! a with
  | Some (CArray l _) => ret (default SEmpty (l !! i))
  | _ => stuck
  end.

(** Object.isFrozen(a) and Object.freeze(a) on the value array. *)
Definition isFrozen (a : loc) : M bool :=
  let* h := get_heap in
  match h !! a with
  | Some (CArray _ f) => ret f
  | _ => stuck
  end.

Definition freeze (a : loc) : M unit :=
  let* h := get_heap in
  match h !! a with
  | Some (CArray l _) => store a (CArray l true)
  | _ => stuck
  end.

(** [result.value], [result.done] and [result.done = b]. *)
Definition result_value (r : loc) : M loc :=
  let* h := get_heap in
  match h !! r with
  | Some (CResult _ a) => ret a
  | _ => stuck
  end.

Definition result_done (r : loc) : M bool :=
  let* h := get_heap in
  match h !! r with
  | Some (CResult d _) => ret d
  | _ => stuck
  end.

Definition result_set_done (r : loc) (b : bool) : M unit :=
  let* h := get_heap in
  match h !! r with
  | Some (CResult _ a) => store r (CResult b a)
  | _ => stuck
  end.

(** ** The host: property lookup, calls and instanceof *)

(** The property [k] names on [v] or on its prototype chain. A chain of
    distinct objects is never longer than the heap. *)
Fixpoint lookup_chain (n : nat) (h : heap) (v : value) (k : key)
  : outcome (option property) :=
  match n with
  | 0%nat => Stuck
  | S n' =>
      match v with
      | VNull => Ok None
      | VObj l =>
          match h !! l with
          | Some (CObj o) =>
              match own (o_props o) k with
              | Some p => Ok (Some p)
              | None => lookup_chain n' h (o_proto o) k
              end
          | _ => Stuck
          end
      | _ => Stuck
      end
  end.

Section Host.

(** The behaviour of the functions written by the library's users. *)
Variable host_call :
  nat -> heap -> value -> list value -> outcome value * heap.

Variable R : realm.

Definition run_host (id : nat) (this : value) (args : list value) : M value :=
  fun st =>
    let '(r, h') := host_call id (st_heap st) this args in
    (r, {| st_heap := h'; st_restrictMap := st_restrictMap st |}).

(** Where the lookup of a property of [v] starts: own properties of a string
    primitive, then the prototype of the wrapper. *)
Definition find_prop (h : heap) (v : value) (k : key) : outcome (option property) :=
  let bound := S (length h) in
  match v with
  | VUndef | VNull => Throw (TypeError host_msg_nullish)
  | VObj _ => lookup_chain bound h v k
  | VStr s =>
      match own (string_props s) k with
      | Some p => Ok (Some p)
      | None => lookup_chain bound h (String_prototype R) k
      end
  | VNum _ => lookup_chain bound h (Number_prototype R) k
  | VBool _ => lookup_chain bound h (Boolean_prototype R) k
  | VSym _ => lookup_chain bound h (Symbol_prototype R) k
  end.

Section Calls.

(** The functions below call back into the interpreter of calls; [call] ties
    the knot with fuel. *)
Variable rec : value -> value -> list value -> M value.

(** [o.k] *)
Definition Get_with (o : value) (k : key) : M value :=
  let* h := get_heap in
  let* p := lift_outcome (find_prop h o k) in
  match p with
  | None => ret VUndef
  | Some (PData v _ _ _) => ret v
  | Some (PAccessor g _ _ _) =>
      match g with
      | VUndef => ret VUndef
      | _ => rec g o []
      end
  end.

(** Does the prototype chain of [V] reach [P]? *)
Fixpoint proto_reaches (n : nat) (h : heap) (V : value) (P : value)
  : outcome bool :=
  match n with
  | 0%nat => Stuck
  | S n' =>
      match V with
      | VObj l =>
          match h !! l with
          | Some (CObj o) =>
              match o_proto o with
              | VNull => Ok false
              | VObj l' =>
                  if same_value P (VObj l') then Ok true
                  else proto_reaches n' h (VObj l') P
              | _ => Stuck
              end
          | _ => Stuck
          end
      | _ => Stuck
      end
  end.

(** OrdinaryHasInstance(C, V). *)
Definition OrdinaryHasInstance_with (C V : value) : M bool :=
  let* h := get_heap in
  if negb (is_callable h C) then ret false
  else
    match V with
    | VObj _ =>
        let* P := Get_with C (KStr "prototype") in
        match P with
        | VObj _ =>
            let* h := get_heap in
            lift_outcome (proto_reaches (S (length h)) h V P)
        | _ => throw (TypeError host_msg_bad_prototype)
        end
    | _ => ret false
    end.

(** [V instanceof target] *)
Definition instanceof_with (V target : value) : M bool :=
  match target with
  | VObj _ =>
      let* handler := Get_with target (KSym Symbol_hasInstance) in
      match handler with
      | VUndef | VNull =>
          let* h := get_heap in
          if is_callable h target then OrdinaryHasInstance_with target V
          else throw (TypeError host_msg_bad_instanceof)
      | _ =>
          let* h := get_heap in
          if is_callable h handler then
            let* r := rec handler target [V] in
            ret (to_boolean r)
          else throw (TypeError host_msg_not_callable)
      end
  | _ => throw (TypeError host_msg_bad_instanceof)
  end.

(** What calling the function object [v] does; a value that is not a function
    object cannot be called. *)
Definition function_kind (h : heap) (v : value) : fun_kind :=
  match v with
  | VObj l =>
      match h !! l with
      | Some (CObj o) => o_call o
      | _ => NotCallable
      end
  | _ => NotCallable
  end.

(** The body of the closure that validateInterface returns (source lines
    86-94). [original.apply(this, arguments)] reads the property apply of
    [original] and calls what it finds. When that is the host's
    Function.prototype.apply, the call is the call of [original] on the same
    receiver and arguments: the arguments object goes straight to the
    built-in, which reads the arguments back from it, and nothing else can
    reach it, so it is not allocated. A value that cannot be called throws.
    Any other function would receive the arguments object itself, which is
    outside the model. *)
Definition guard_body (iface prop original this : value) (args : list value)
  : M value :=
  let* inst := instanceof_with this iface in
  if inst then
    let* apply := Get_with original (KStr "apply") in
    let* h := get_heap in
    match function_kind h apply with
    | BuiltinApply => rec original this args
    | NotCallable => throw (TypeError host_msg_not_callable)
    | _ => stuck
    end
  else
    let* s1 := lift_outcome (string_concat "'" prop) in
    let s2 := s1 +:+ "' called on an object that does not implement interface " in
    let* name := Get_with iface (KStr "name") in
    let* s3 := lift_outcome (string_concat s2 name) in
    throw (TypeError (s3 +:+ ".")).

(** One call, by the kind of the callee. *)
Definition call_body (f this : value) (args : list value) : M value :=
  match f with
  | VObj l =>
      let* h := get_heap in
      match h !! l with
      | Some (CObj o) =>
          match o_call o with
          | NotCallable => throw (TypeError host_msg_not_callable)
          | HostFn id => run_host id this args
          | BuiltinHasInstance =>
              let* b := OrdinaryHasInstance_with this (default VUndef (args !! 0%nat)) in
              ret (VBool b)
          | BuiltinApply =>
              (* [this.apply(thisArg, argArray)]: reading the elements of an
                 array-like [argArray] is outside the model *)
              let* h := get_heap in
              if negb (is_callable h this)
              then throw (TypeError host_msg_not_callable)
              else
                match args with
                | [] => rec this VUndef []
                | [thisArg] => rec this thisArg []
                | thisArg :: (VUndef | VNull) :: _ => rec this thisArg []
                | _ :: VObj _ :: _ => stuck
                | _ :: _ :: _ => throw (TypeError host_msg_not_object)
                end
          | Guard iface prop original => guard_body iface prop original this args
          end
      | _ => throw (TypeError host_msg_not_callable)
      end
  | _ => throw (TypeError host_msg_not_callable)
  end.

End Calls.

Fixpoint call (fuel : nat) (f this : value) (args : list value) : M value :=
  match fuel with
  | 0%nat => stuck
  | S n => call_body (call n) f this args
  end.

Definition Get (fuel : nat) : value -> key -> M value := Get_with (call fuel).

Definition instanceof (fuel : nat) : value -> value -> M bool :=
  instanceof_with (call fuel).

(** ** The library (src/unnamed/part_000)

    The host is taken to be ECMAScript 2015 or later: the global [Symbol] and
    [WeakMap] exist, so getGlobal('Symbol').iterator and
    getGlobal('Symbol').toStringTag are the well-known symbols and restrictMap
    is a WeakSet. *)

(** [Object(o)] *)
Definition Object_call (o : value) : M value :=
  let wrapper ps proto :=
    let* l := alloc (CObj {| o_props := ps; o_proto := proto;
                             o_extensible := true; o_call := NotCallable |}) in
    ret (VObj l) in
  match o with
  | VObj _ => ret o
  | VUndef | VNull => wrapper [] (Object_prototype R)
  | VStr s => wrapper (string_props s) (String_prototype R)
  | VNum _ => wrapper [] (Number_prototype R)
  | VBool _ => wrapper [] (Boolean_prototype R)
  | VSym _ => wrapper [] (Symbol_prototype R)
  end.

(** The closure variables of one iterator: o, names, index and result. *)
Record iterator := {
  it_o : value;
  it_names : list key;
  it_index : nat;
  it_result : loc
}.

(** propertiesOf, source lines 36-73. The method [Symbol.iterator] of the
    iterator returns the iterator itself; a consumer is modelled by calling
    next directly. *)
Definition propertiesOf (o : value) : M iterator :=
  let* o := Object_call o in
  let* names := getOwnPropertyNames o in
  let* a := alloc (CArray [] false) in
  let* r := alloc (CResult false a) in
  let* symbols := getOwnPropertySymbols o in
  ret {| it_o := o; it_names := names ++ symbols; it_index := 0;
         it_result := r |}.

(** The method next of the iterator, source lines 48-64; it returns the
    iterator with its index advanced, and the result object. [names[index]] is
    defined exactly when [index < names.length]. *)
Definition next (it : iterator) : M (iterator * value) :=
  let r := it_result it in
  match it_names it !! it_index it with
  | None =>
      let* _ := result_set_done r true in
      let* a := result_value r in
      let* _ := array_set_length a 0 in
      let* a := result_value r in
      let* frozen := isFrozen a in
      let* _ := if negb frozen
                then (let* a := result_value r in freeze a)
                else ret tt in
      ret (it, VObj r)
  | Some key =>
      let it' := {| it_o := it_o it; it_names := it_names it;
                    it_index := S (it_index it); it_result := r |} in
      let* a := result_value r in
      let* _ := array_set_length a 2 in
      let* a := result_value r in
      let* _ := array_set a 0 (SKey key) in
      let* a := result_value r in
      let* d := getOwnPropertyDescriptor (it_o it) key in
      let* _ := array_set a 1 (SDesc d) in
      ret (it', VObj r)
  end.

(** validateInterface, source lines 85-95: a new function whose body is
    [guard_body] and whose prototype is set to [original]. The function
    expression comes with its own length, name and prototype properties. The
    function is new and extensible, so Object.setPrototypeOf can only fail on
    the type of [original]. *)
Definition validateInterface (iface prop original : value) : M value :=
  let* h := get_heap in
  let f := length h in
  let* _ := alloc (CObj
    {| o_props := [(KStr "length", PData (VNum 0) false false true);
                   (KStr "name", PData (VStr "") false false true);
                   (KStr "prototype", PData (VObj (S f)) true false false)];
       o_proto := Function_prototype R;
       o_extensible := true;
       o_call := Guard iface prop original |}) in
  let* _ := alloc (CObj
    {| o_props := [(KStr "constructor", PData (VObj f) true false true)];
       o_proto := Object_prototype R;
       o_extensible := true;
       o_call := NotCallable |}) in
  match original with
  | VObj _ | VNull =>
      let* _ := store f (CObj
        {| o_props := [(KStr "length", PData (VNum 0) false false true);
                       (KStr "name", PData (VStr "") false false true);
                       (KStr "prototype", PData (VObj (S f)) true false false)];
           o_proto := original;
           o_extensible := true;
           o_call := Guard iface prop original |}) in
      ret (VObj f)
  | _ => throw (TypeError host_msg_bad_prototype)
  end.

(** [indexOf.call(exceptFor, prop)] where [exceptFor || 0] is an array of
    property keys ([Some]) or [0] ([None]). *)
Fixpoint index_from (i : Z) (l : list value) (x : value) : Z :=
  match l with
  | [] => (-1)%Z
  | y :: l' => if strict_equal y x then i else index_from (i + 1)%Z l' x
  end.

Definition indexOf_call (exceptFor : option (list value)) (prop : key) : Z :=
  match exceptFor with
  | None => (-1)%Z
  | Some l => index_from 0%Z l (value_of_key prop)
  end.

(** [descriptors[prop] = descriptor] on the plain object [descriptors]: the
    key __proto__ reaches the setter inherited from Object.prototype, which
    changes the prototype of [descriptors] and adds no own property. *)
Definition descriptors_set (descriptors : list (key * property)) (k : key)
  (d : property) : list (key * property) :=
  if decide (k = KStr "__proto__") then descriptors
  else own_set descriptors k d.

(** Source lines 116-141: the new descriptor of one property that is neither
    excluded nor non-configurable. *)
Definition restrict_descriptor (fuel : nat) (object : value)
  (isConstructor : bool) (prop : key) (descriptor : property) : M property :=
  match descriptor with
  | PData v _ _ _ =>
      let* h := get_heap in
      if negb isConstructor
         && bool_decide (typeof h v = "function")
         && negb (bool_decide (prop = KStr "constructor"))
      then
        let* iface := Get fuel object (KStr "constructor") in
        let* v' := validateInterface iface (value_of_key prop) v in
        ret (PData v' false false false)
      else ret (PData v false false false)
  | PAccessor g s _ _ =>
      if negb isConstructor then
        let* g' :=
          if to_boolean g then
            let* iface := Get fuel object (KStr "constructor") in
            let* name := lift_outcome (string_concat "get " (value_of_key prop)) in
            validateInterface iface (VStr name) g
          else ret g in
        let* s' :=
          if to_boolean s then
            let* iface := Get fuel object (KStr "constructor") in
            let* name := lift_outcome (string_concat "set " (value_of_key prop)) in
            validateInterface iface (VStr name) s
          else ret s in
        ret (PAccessor g' s' false false)
      else ret (PAccessor g s false false)
  end.

(** The loop of restrictProperties, source lines 107-144. Each round consumes
    one name, so [S (length names)] rounds are enough. *)
Fixpoint restrict_loop (rounds : nat) (fuel : nat) (object : value)
  (isConstructor : bool) (exceptFor : option (list value))
  (properties : iterator) (descriptors : list (key * property))
  : M (list (key * property)) :=
  match rounds with
  | 0%nat => stuck
  | S rounds' =>
      let* step := next properties in
      let properties := fst step in
      let result := snd step in
      match result with
      | VObj r =>
          let* done := result_done r in
          if done then ret descriptors
          else
            let* a := result_value r in
            let* s0 := array_get a 0 in
            let* a := result_value r in
            let* s1 := array_get a 1 in
            match s0, s1 with
            | SKey prop, SDesc descriptor =>
                if (0 <=? indexOf_call exceptFor prop)%Z then
                  restrict_loop rounds' fuel object isConstructor exceptFor
                                properties descriptors
                else
                  match descriptor with
                  | None => throw (TypeError host_msg_nullish)
                  | Some d =>
                      if negb (p_configurable d) then
                        restrict_loop rounds' fuel object isConstructor
                                      exceptFor properties descriptors
                      else
                        let* d' := restrict_descriptor fuel object
                                     isConstructor prop d in
                        restrict_loop rounds' fuel object isConstructor
                                      exceptFor properties
                                      (descriptors_set descriptors prop d')
                  end
            | _, _ => stuck
            end
      | _ => stuck
      end
  end.

(** restrictProperties, source lines 97-147. *)
Definition restrictProperties (fuel : nat) (object : value)
  (isConstructor : bool) (exceptFor : option (list value)) : M value :=
  let* properties := propertiesOf object in
  let* descriptors :=
    restrict_loop (S (length (it_names properties))) fuel object isConstructor
                  exceptFor properties [] in
  defineProperties object descriptors.

(** hasOwn, source lines 157-159. *)
Definition hasOwn (obj : value) (k : key) : M bool := hasOwnProperty obj k.

(** isConstructor, source lines 161-163. *)
Definition isConstructor (iface : value) : M bool :=
  let* h := get_heap in
  if bool_decide (typeof h iface = "function")
  then hasOwn iface (KStr "prototype")
  else ret false.

(** verifyIsConstructor, source lines 165-170. *)
Definition verifyIsConstructor (iface : value) (name : value) : M value :=
  let name := if to_boolean name then name else VStr "iface" in
  let* b := isConstructor iface in
  if negb b then
    let* s := lift_outcome (to_string name) in
    throw (TypeError (s +:+ " must be a constructor."))
  else ret iface.

(** restrictMap.has(iface): a WeakSet holds objects only. *)
Definition restrictMap_has (iface : value) : M bool :=
  fun st =>
    (Ok (match iface with
         | VObj _ => bool_decide (iface ∈ st_restrictMap st)
         | _ => false
         end), st).

(** The options object of restrict, by the three properties the code reads:
    an own name, and the arrays exclude and excludeStatic. *)
Record options := {
  opt_name : option value;
  opt_exclude : option (list value);
  opt_excludeStatic : option (list value)
}.

(** An argument of restrict: a value of the heap model, or an options
    object. *)
Inductive arg :=
| AVal (v : value)
| AOpts (o : options).

Definition typeof_arg (h : heap) (a : arg) : string :=
  match a with
  | AVal v => typeof h v
  | AOpts _ => "object"
  end.

(** What restrict returns: its first argument, or the function of the
    options-only call. *)
Inductive restrict_result :=
| Returned (v : value)
| Decorator (exceptFor : arg).

(** The options the code reads from [exceptFor] (source lines 193-204).
    [undefined] is replaced by an empty object literal; reading a property of
    [null] throws; a primitive has none of the three properties. A heap object
    in this position is outside the model: options objects are [AOpts]. *)
Definition no_options : options :=
  {| opt_name := None; opt_exclude := None; opt_excludeStatic := None |}.

Definition options_of (exceptFor : arg) : outcome options :=
  match exceptFor with
  | AOpts o => Ok o
  | AVal VUndef => Ok no_options
  | AVal VNull => Throw (TypeError host_msg_nullish)
  | AVal (VObj _) => Stuck
  | AVal _ => Ok no_options
  end.

Definition read_options (exceptFor : arg) : M options :=
  lift_outcome (options_of exceptFor).

(** restrict, source lines 178-205. *)
Definition restrict (fuel : nat) (iface : arg) (exceptFor : arg)
  : M restrict_result :=
  let* h := get_heap in
  if bool_decide (typeof_arg h iface = "object") then ret (Decorator iface)
  else
    let iface := match iface with AVal v => v | AOpts _ => VUndef end in
    let* known := restrictMap_has iface in
    if known then ret (Returned iface)
    else
      let* iface' := verifyIsConstructor iface VUndef in
      let* prototype := Get fuel iface' (KStr "prototype") in
      let toStringTag := KSym Symbol_toStringTag in
      let* tagged := hasOwn prototype toStringTag in
      let* _ :=
        if negb tagged then
          let* opts := read_options exceptFor in
          let* v :=
            match opt_name opts with
            | Some n => ret n
            | None => Get fuel iface (KStr "name")
            end in
          defineProperty prototype toStringTag
            {| d_value := Some v; d_writable := None; d_get := None;
               d_set := None; d_enumerable := None;
               d_configurable := None |}
        else ret prototype in
      let* opts := read_options exceptFor in
      let* _ := restrictProperties fuel prototype false (opt_exclude opts) in
      let* opts := read_options exceptFor in
      let* v := restrictProperties fuel iface true (opt_excludeStatic opts) in
      ret (Returned v).

(** The function that [restrict(options)] returns, source lines 181-183. *)
Definition decorator_call (fuel : nat) (exceptFor : arg) (iface : value)
  : M restrict_result :=
  let* iface' := verifyIsConstructor iface VUndef in
  restrict fuel (AVal iface') exceptFor.

(** sealed, source lines 207-211. *)
Definition sealed (fuel : nat) (iface : value) : M value :=
  let* iface' := verifyIsConstructor iface VUndef in
  let* _ := seal iface' in
  let* prototype := Get fuel iface (KStr "prototype") in
  let* _ := seal prototype in
  ret iface.

End Host.

(** ** A host realm and some classes, for the worked examples

    The heap starts with the intrinsics; user functions are opaque, and in the
    examples each returns its own identity as a number and changes nothing. *)

Definition plain_object (ps : list (key * property)) (proto : value) : cell :=
  CObj {| o_props := ps; o_proto := proto; o_extensible := true;
          o_call := NotCallable |}.

Definition function_object (ps : list (key * property)) (proto : value)
  (k : fun_kind) : cell :=
  CObj {| o_props := ps; o_proto := proto; o_extensible := true; o_call := k |}.

Definition realm0 : realm :=
  {| Object_prototype := VObj 0; Function_prototype := VObj 1;
     String_prototype := VObj 3; Number_prototype := VObj 4;
     Boolean_prototype := VObj 5; Symbol_prototype := VObj 6 |}.

(** Object.prototype, Function.prototype with its method apply (at location
    2), and the prototypes of the String, Number, Boolean and Symbol
    wrappers. Properties of the intrinsics that the examples do not read are
    left out. *)
Definition intrinsics : heap :=
  [ plain_object [] VNull;
    function_object
      [(KStr "apply", PData (VObj 2) true false true)]
      (VObj 0) (HostFn 0);
    function_object [] (VObj 1) BuiltinApply;
    plain_object [] (VObj 0);
    plain_object [] (VObj 0);
    plain_object [] (VObj 0);
    plain_object [] (VObj 0) ].

Definition host_call0 (id : nat) (h : heap) (this : value) (args : list value)
  : outcome value * heap :=
  (Ok (VNum (Z.of_nat id)), h).

(** The own properties a function object is created with. *)
Definition function_props (name : string) : list (key * property) :=
  [(KStr "length", PData (VNum 0) false false true);
   (KStr "name", PData (VStr name) false false true)].

(** [class C { m() {} get x() {} static s = 1 }] at locations 7 to 10. *)
Definition class_C : heap :=
  intrinsics ++
  [ function_object
      (function_props "C" ++
       [(KStr "prototype", PData (VObj 8) false false false);
        (KStr "s", PData (VNum 1) true true true)])
      (VObj 1) (HostFn 10);
    plain_object
      [(KStr "constructor", PData (VObj 7) true false true);
       (KStr "m", PData (VObj 9) true false true);
       (KStr "x", PAccessor (VObj 10) VUndef false true)]
      (VObj 0);
    function_object (function_props "m") (VObj 1) (HostFn 11);
    function_object (function_props "get x") (VObj 1) (HostFn 12) ].

Definition state_of (h : heap) : state :=
  {| st_heap := h; st_restrictMap := [] |}.

(** The own properties that the host gives a function object when it creates
    it, by the syntactic form of the function (ECMAScript, function
    definitions: MakeConstructor is applied to classes and to [function]
    functions only). *)
Inductive function_form :=
| ClassConstructor
| ClassicFunction
| ArrowFunction
| MethodFunction
| BoundFunction.

Definition initial_props (form : function_form) (name : string) (proto : loc)
  : list (key * property) :=
  match form with
  | ClassConstructor =>
      function_props name ++ [(KStr "prototype", PData (VObj proto) false false false)]
  | ClassicFunction =>
      function_props name ++ [(KStr "prototype", PData (VObj proto) true false false)]
  | ArrowFunction | MethodFunction | BoundFunction => function_props name
  end.

Definition has_prototype_slot (form : function_form) : bool :=
  match form with
  | ClassConstructor | ClassicFunction => true
  | _ => false
  end.

(** ** Predicates used in the statements *)

Definition with_heap (st : state) (h : heap) : state :=
  {| st_heap := h; st_restrictMap := st_restrictMap st |}.

Definition own_prototype_slot (h : heap) (f : value) : bool :=
  match f with
  | VObj l =>
      match h !! l with
      | Some (CObj o) => bool_decide (is_Some (own (o_props o) (KStr "prototype")))
      | _ => false
      end
  | _ => false
  end.

Definition example_functions : heap :=
  intrinsics ++
  [ function_object (initial_props ClassConstructor "A" 8) (VObj 1) (HostFn 20);
    plain_object [(KStr "constructor", PData (VObj 7) true false true)] (VObj 0);
    function_object (initial_props ArrowFunction "f" 0) (VObj 1) (HostFn 21);
    function_object (initial_props BoundFunction "bound g" 0) (VObj 1) (HostFn 22);
    function_object (initial_props ClassicFunction "h" 12) (VObj 1) (HostFn 23);
    plain_object [(KStr "constructor", PData (VObj 11) true false true)] (VObj 0) ].

Definition constructor_like (h : heap) (f : value) : bool :=
  is_callable h f && own_prototype_slot h f.


(** The two cells of an iterator: its result object, which holds [done] and
    points to the array [a], and the array with its slots. *)
Definition iter_cells (h : heap) (it : iterator) (a : loc) (sl : list slot)
  (done frozen : bool) : Prop :=
  h !! it_result it = Some (CResult done a) /\ h !! a = Some (CArray sl frozen).

Definition advance (it : iterator) : iterator :=
  {| it_o := it_o it; it_names := it_names it; it_index := S (it_index it);
     it_result := it_result it |}.

(** The own properties of [Object(o)]. *)
Definition coerced_props (h : heap) (o : value) : outcome (list (key * property)) :=
  match o with
  | VUndef | VNull => Ok []
  | _ => own_props h o
  end.

(** A consumer of an iterator, as [for (const [key, descriptor] of it)]: it
    calls next until the result is done and collects the pairs it reads. *)
Fixpoint drain (rounds : nat) (it : iterator) : M (list (slot * slot)) :=
  match rounds with
  | 0%nat => stuck
  | S n =>
      let* step := next it in
      match snd step with
      | VObj r =>
          let* done := result_done r in
          if done then ret []
          else
            let* a := result_value r in
            let* s0 := array_get a 0 in
            let* s1 := array_get a 1 in
            let* rest := drain n (fst step) in
            ret ((s0, s1) :: rest)
      | _ => stuck
      end
  end.

(** A consumer that calls next [n] times and keeps every result it is
    handed. *)
Fixpoint nexts (n : nat) (it : iterator) : M (iterator * list value) :=
  match n with
  | 0%nat => ret (it, [])
  | S n' =>
      let* step := next it in
      let* rest := nexts n' (fst step) in
      ret (fst rest, snd step :: snd rest)
  end.

(** What the value array holds, and whether it is frozen, after [n] calls of
    next on an iterator over the keys [names] of an object with own
    properties [ps]. *)
Definition array_after (ps : list (key * property)) (names : list key)
  (n : nat) : list slot * bool :=
  match n with
  | 0%nat => ([], false)
  | S m =>
      match names !! m with
      | Some k => ([SKey k; SDesc (own ps k)], false)
      | None => ([], true)
      end
  end.

(** The pairs a consumer reads from an iterator over the keys [ks] of an
    object with own properties [ps]. *)
Definition pairs_of (ps : list (key * property)) (ks : list key)
  : list (slot * slot) :=
  map (fun k => (SKey k, SDesc (own ps k))) ks.

(** What one step of an iterator puts into the array, and whether it freezes
    it; and the iterator after the step. *)
Definition yielded (it : iterator) (ps : list (key * property))
  : list slot * bool :=
  match it_names it !! it_index it with
  | Some k => ([SKey k; SDesc (own ps k)], false)
  | None => ([], true)
  end.

Definition after_step (it : iterator) : iterator :=
  match it_names it !! it_index it with
  | Some _ => advance it
  | None => it
  end.

(** A frozen array belongs to an exhausted iterator and is empty. *)
Definition frozen_when_exhausted (it : iterator) (sl : list slot) (fr : bool)
  : Prop :=
  fr = true -> sl = [] /\ it_names it !! it_index it = None.

Definition class_C_prototype_props : list (key * property) :=
  [(KStr "constructor", PData (VObj 7) true false true);
   (KStr "m", PData (VObj 9) true false true);
   (KStr "x", PAccessor (VObj 10) VUndef false true)].

(** Reading [v.k] runs no user code: the lookup finds a data property, an
    accessor without a getter, or nothing. *)
Definition plain_read (R : realm) (h : heap) (v : value) (k : key)
  : option value :=
  match find_prop R h v k with
  | Ok None => Some VUndef
  | Ok (Some (PData x _ _ _)) => Some x
  | Ok (Some (PAccessor VUndef _ _ _)) => Some VUndef
  | _ => None
  end.

(** A descriptor with both accessor fields and data fields is rejected by the
    host before it reaches a property; the others are well formed. *)
Definition wellformed_descriptor (d : descriptor) : Prop :=
  is_accessor_desc d && is_data_desc d = false.

(** A descriptor that asks for a change that a property which is not
    configurable refuses: making it configurable, changing enumerable,
    turning a data property into an accessor or back, replacing the getter or
    the setter and, on a data property that is not writable, making it
    writable or changing its value. What is left is allowed: a new value for
    a writable data property, and making a writable data property
    non-writable. *)
Definition reconfigures (cur : property) (d : descriptor) : Prop :=
  d_configurable d = Some true
  \/ d_enumerable d = Some (negb (p_enumerable cur))
  \/ match cur with
     | PData v w _ _ =>
         is_accessor_desc d = true
         \/ (w = false
             /\ (d_writable d = Some true
                 \/ exists v', d_value d = Some v' /\ v' <> v))
     | PAccessor g s _ _ =>
         is_data_desc d = true
         \/ (exists g', d_get d = Some g' /\ g' <> g)
         \/ (exists s', d_set d = Some s' /\ s' <> s)
     end.

(** [new] is [cur] made non-configurable, with at most a new value, allowed
    only when [cur] is writable, and with writable at most turned off. *)
Definition keeps_configuration (cur new : property) : Prop :=
  match cur, new with
  | PData v w e _, PData v' w' e' c' =>
      e' = e /\ c' = false /\ (w' = true -> w = true) /\ (w = false -> v' = v)
  | PAccessor g s e _, PAccessor g' s' e' c' =>
      g' = g /\ s' = s /\ e' = e /\ c' = false
  | _, _ => False
  end.

Definition value_only (v : value) : descriptor :=
  {| d_value := Some v; d_writable := None; d_get := None; d_set := None;
     d_enumerable := None; d_configurable := None |}.

(** The object [o] with the descriptors [ds] written over its properties. *)
Definition redefine (o : object) (ds : list (key * property)) : object :=
  {| o_props := fold_left (fun ps kd => own_set ps (fst kd) (snd kd)) ds (o_props o);
     o_proto := o_proto o;
     o_extensible := o_extensible o;
     o_call := o_call o |}.

(** The heap while restrictProperties runs on an object of [h0]: the two
    cells of its iterator follow [h0], and the guards made so far follow
    them. *)
Definition iter_heap (h0 : heap) (sl : list slot) (fr done : bool) (G : heap)
  : heap :=
  h0 ++ [CArray sl fr; CResult done (length h0)] ++ G.

(** [x] is a function made by validateInterface(iface, name, original), at a
    location not below [lo]. *)
Definition is_guard (h : heap) (lo : nat) (x : value) (iface name original : value)
  : Prop :=
  exists g og,
    x = VObj g /\ (lo <= g)%nat /\ h !! g = Some (CObj og)
    /\ o_call og = Guard iface name original /\ o_proto og = original.

(** The test of source lines 121-123. *)
Definition wraps_data (isConstructor : bool) (h : heap) (k : key) (v : value)
  : bool :=
  negb isConstructor && is_callable h v
  && negb (bool_decide (k = KStr "constructor")).

(** How source lines 131-140 treat a getter or setter [f] of [k]. *)
Definition wrapped_accessor (h' : heap) (lo : nat) (iface : value)
  (prefix : string) (k : key) (f f' : value) : Prop :=
  if to_boolean f then
    exists name,
      string_concat prefix (value_of_key k) = Ok name
      /\ is_guard h' lo f' iface (VStr name) f
  else f' = f.

(** [d'] is the descriptor that restrictProperties writes for the property
    [d] of key [k]: [h1] is the heap when the property is visited, [h'] the
    heap when restrictProperties returns. *)
Definition locked (h1 h' : heap) (lo : nat) (isConstructor : bool)
  (iface : value) (k : key) (d d' : property) : Prop :=
  match d with
  | PData v _ _ _ =>
      if wraps_data isConstructor h1 k v then
        exists v', d' = PData v' false false false
                   /\ is_guard h' lo v' iface (value_of_key k) v
      else d' = PData v false false false
  | PAccessor g s _ _ =>
      if isConstructor then d' = PAccessor g s false false
      else
        exists g' s',
          d' = PAccessor g' s' false false
          /\ wrapped_accessor h' lo iface "get " k g g'
          /\ wrapped_accessor h' lo iface "set " k s s'
  end.

(** A property that restrictProperties leaves alone. *)
Definition skipped (exceptFor : option (list value)) (k : key) (d : property)
  : bool :=
  (0 <=? indexOf_call exceptFor k)%Z
  || negb (p_configurable d)
  || bool_decide (k = KStr "__proto__").

(** The two cells that validateInterface allocates at [f] and [S f]. *)
Definition guard_cell (R : realm) (iface name original : value) (f : loc)
  : cell :=
  CObj {| o_props := [(KStr "length", PData (VNum 0) false false true);
                      (KStr "name", PData (VStr "") false false true);
                      (KStr "prototype", PData (VObj (S f)) true false false)];
          o_proto := original;
          o_extensible := true;
          o_call := Guard iface name original |}.

Definition guard_prototype_cell (R : realm) (f : loc) : cell :=
  CObj {| o_props := [(KStr "constructor", PData (VObj f) true false true)];
          o_proto := Object_prototype R;
          o_extensible := true;
          o_call := NotCallable |}.

(** Every object of [h] is in [h'], unchanged. *)
Definition objects_kept (h h' : heap) : Prop :=
  forall x o, h !! x = Some (CObj o) -> h' !! x = Some (CObj o).

(** The invariant of the descriptors object during the loop of
    restrictProperties on the object [o] of [h0]: every entry is the locked
    form of a property of [o] that is not skipped. *)
Definition descriptors_ok (h0 : heap) (o : object) (isConstructor : bool)
  (exceptFor : option (list value)) (iface : value) (G : heap)
  (ds : list (key * property)) : Prop :=
  forall k d',
    own ds k = Some d' ->
    exists d t1,
      own (o_props o) k = Some d
      /\ skipped exceptFor k d = false
      /\ locked (h0 ++ t1) (iter_heap h0 [] true true G) (length h0 + 2)
                isConstructor iface k d d'.

Definition tag_key : key := KSym Symbol_toStringTag.

(** The locked form of a static property: only the attributes change. *)
Definition lock_static (d : property) : property :=
  match d with
  | PData v _ _ _ => PData v false false false
  | PAccessor g s _ _ => PAccessor g s false false
  end.

(** Where restrict takes the value of a new type tag from, when reading the
    name of the constructor runs no user code. *)
Definition tag_source (R : realm) (h : heap) (c : loc) (E : options)
  : option value :=
  match opt_name E with
  | Some n => Some n
  | None => plain_read R h (VObj c) (KStr "name")
  end.

(** The prototype object once restrict has made sure that it has a type
    tag. *)
Definition with_tag (op : object) (n : value) : object :=
  match own (o_props op) tag_key with
  | Some _ => op
  | None =>
      {| o_props := own_set (o_props op) tag_key (PData n false false false);
         o_proto := o_proto op;
         o_extensible := o_extensible op;
         o_call := o_call op |}
  end.



(** The property [k] of the object at [l]. *)
Definition property_of (h : heap) (l : loc) (k : key) : option property :=
  match h !! l with
  | Some (CObj o) => own (o_props o) k
  | _ => None
  end.

Definition call_kind (h : heap) (v : value) : option fun_kind :=
  match v with
  | VObj l =>
      match h !! l with
      | Some (CObj o) => Some (o_call o)
      | _ => None
      end
  | _ => None
  end.


Definition exclude_m : arg :=
  AOpts {| opt_name := None; opt_exclude := Some [VStr "m"];
           opt_excludeStatic := None |}.

(** [class P { __proto__() {} }] at locations 7 to 9. *)
Definition class_P : heap :=
  intrinsics ++
  [ function_object (initial_props ClassConstructor "P" 8) (VObj 1) (HostFn 10);
    plain_object
      [(KStr "constructor", PData (VObj 7) true false true);
       (KStr "__proto__", PData (VObj 9) true false true)]
      (VObj 0);
    function_object (initial_props MethodFunction "__proto__" 0) (VObj 1)
                    (HostFn 11) ].

(** [class S { m() {} [Symbol.iterator]() {} }] at locations 7 to 10, an
    instance [new S] at 11 and a plain object [{}] at 12. *)
Definition class_S : heap :=
  intrinsics ++
  [ function_object (initial_props ClassConstructor "S" 8) (VObj 1) (HostFn 10);
    plain_object
      [(KStr "constructor", PData (VObj 7) true false true);
       (KStr "m", PData (VObj 9) true false true);
       (KSym Symbol_iterator, PData (VObj 10) true false true)]
      (VObj 0);
    function_object (initial_props MethodFunction "m" 0) (VObj 1) (HostFn 11);
    function_object (initial_props MethodFunction "[Symbol.iterator]" 0)
                    (VObj 1) (HostFn 12);
    plain_object [] (VObj 8);
    plain_object [] (VObj 0) ].

(** [function F() {}] whose prototype has [constructor] redefined as an
    accessor: [Object.defineProperty(F.prototype, 'constructor',
    { get() { return F }, configurable: true })]. The getter is the user
    function 30, at location 9. *)
Definition class_F : heap :=
  intrinsics ++
  [ function_object (initial_props ClassicFunction "F" 8) (VObj 1) (HostFn 10);
    plain_object
      [(KStr "constructor", PAccessor (VObj 9) VUndef false true)]
      (VObj 0);
    function_object (initial_props MethodFunction "get" 0) (VObj 1) (HostFn 30) ].

(** User functions for [class_F]: function 30 returns F, the others return
    their identity. *)
Definition host_call1 (id : nat) (h : heap) (this : value) (args : list value)
  : outcome value * heap :=
  if Nat.eqb id 30 then (Ok (VObj 7), h) else (Ok (VNum (Z.of_nat id)), h).

(** A computation that leaves restrictMap as it found it. *)
Definition keeps_registry {A} (m : M A) : Prop :=
  forall st, st_restrictMap (snd (m st)) = st_restrictMap st.

(** The state after [restrict(S)] on [class_S]; the guard of its method m is
    at location 15. *)
Definition restricted_S : state :=
  snd (restrict host_call0 realm0 1 (AVal (VObj 7)) (AVal VUndef)
                (state_of class_S)).

(** The same state when the original method m, at location 9, has an own
    property apply that holds undefined. *)
Definition restricted_S_without_apply : state :=
  with_heap restricted_S
    (<[9%nat := function_object
                  (function_props "m" ++
                   [(KStr "apply", PData VUndef true true true)])
                  (VObj 1) (HostFn 11)]> (st_heap restricted_S)).

(** The class S of [class_S] on a host whose Function.prototype also has the
    built-in Symbol.hasInstance method, at location 13, and the state after
    [restrict(S)]; the guard of the method m is at location 16. *)
Definition class_S_host : heap :=
  <[1%nat := function_object
               [(KStr "apply", PData (VObj 2) true false true);
                (KSym Symbol_hasInstance, PData (VObj 13) false false false)]
               (VObj 0) (HostFn 0)]> class_S
  ++ [function_object [] (VObj 1) BuiltinHasInstance].

Definition restricted_S_host : state :=
  snd (restrict host_call0 realm0 1 (AVal (VObj 7)) (AVal VUndef)
                (state_of class_S_host)).

Definition class_C_constructor : object :=
  {| o_props := function_props "C" ++
       [(KStr "prototype", PData (VObj 8) false false false);
        (KStr "s", PData (VNum 1) true true true)];
     o_proto := VObj 1; o_extensible := true; o_call := HostFn 10 |}.

Definition class_C_prototype : object :=
  {| o_props := class_C_prototype_props; o_proto := VObj 0;
     o_extensible := true; o_call := NotCallable |}.

(** The [[Prototype]] of the object [v]. *)
Definition proto_of (h : heap) (v : value) : option value :=
  match v with
  | VObj l =>
      match h !! l with
      | Some (CObj o) => Some (o_proto o)
      | _ => None
      end
  | _ => None
  end.

(** A property whose accessor functions restrictProperties cannot wrap: the
    name of a guard is built as ['get ' + prop] or ['set ' + prop] (source
    lines 134 and 139), and the concatenation throws when [prop] is a
    symbol. *)
Definition unnameable (exceptFor : option (list value)) (isConstructor : bool)
  (k : key) (d : property) : bool :=
  match k, d with
  | KSym _, PAccessor g s _ c =>
      negb isConstructor && c && negb (0 <=? indexOf_call exceptFor k)%Z
      && (to_boolean g || to_boolean s)
  | _, _ => false
  end.

(** The getter and the setter of an accessor property are functions or
    undefined. *)
Definition function_or_undefined (f : value) : Prop :=
  f = VUndef \/ exists x, f = VObj x.

Definition accessors_wellformed (o : object) : Prop :=
  forall k g s e c,
    own (o_props o) k = Some (PAccessor g s e c) ->
    function_or_undefined g /\ function_or_undefined s.

Definition is_function_or_undefined (f : value) : bool :=
  match f with
  | VUndef | VObj _ => true
  | _ => false
  end.

Definition accessor_functions_ok (d : property) : bool :=
  match d with
  | PAccessor g s _ _ => is_function_or_undefined g && is_function_or_undefined s
  | PData _ _ _ _ => true
  end.

(** [class G { get [Symbol.toStringTag]() { return "G" } }] at locations 7
    to 9. *)
Definition class_G : heap :=
  intrinsics ++
  [ function_object (initial_props ClassConstructor "G" 8) (VObj 1) (HostFn 10);
    plain_object
      [(KStr "constructor", PData (VObj 7) true false true);
       (tag_key, PAccessor (VObj 9) VUndef false true)]
      (VObj 0);
    function_object (initial_props MethodFunction "get [Symbol.toStringTag]" 0)
                    (VObj 1) (HostFn 11) ].

(** [function N() {}; N.prototype = null] at location 7. *)
Definition function_N_object : object :=
  {| o_props := function_props "N" ++
       [(KStr "prototype", PData VNull true false false)];
     o_proto := VObj 1; o_extensible := true; o_call := HostFn 10 |}.

Definition function_N : heap := intrinsics ++ [CObj function_N_object].

(** The class C of [class_C] after [Object.preventExtensions(C.prototype)]. *)
Definition class_C_prototype_fixed : object :=
  {| o_props := class_C_prototype_props; o_proto := VObj 0;
     o_extensible := false; o_call := NotCallable |}.

Definition class_C_fixed : heap :=
  <[8%nat := CObj class_C_prototype_fixed]> class_C.
(** * Properties *)

(** ** The monad *)

Lemma bind_Ok {A B} (m : M A) (k : A -> M B) st a st1 :
  m st = (Ok a, st1) -> bind m k st = k a st1.
Proof. intros H. unfold bind. now rewrite H. Qed.

Lemma bind_Ok_inv {A B} (m : M A) (k : A -> M B) st b st2 :
  bind m k st = (Ok b, st2) ->
  exists a st1, m st = (Ok a, st1) /\ k a st1 = (Ok b, st2).
Proof.
  unfold bind. destruct (m st) as [[a | e |] st1]; intros H; try discriminate.
  eauto.
Qed.

Lemma bind_ret {A B} (a : A) (k : A -> M B) st : bind (ret a) k st = k a st.
Proof. reflexivity. Qed.

Lemma bind_lift_Ok {A B} (a : A) (k : A -> M B) st :
  bind (lift_outcome (Ok a)) k st = k a st.
Proof. reflexivity. Qed.

Lemma get_heap_eq st : get_heap st = (Ok (st_heap st), st).
Proof. reflexivity. Qed.

Lemma with_heap_same st : with_heap st (st_heap st) = st.
Proof. now destruct st. Qed.

Lemma store_eq l c st :
  store l c st = (Ok tt, with_heap st (<[l := c]> (st_heap st))).
Proof. reflexivity. Qed.

(** ** isConstructor *)

Lemma typeof_function h f :
  bool_decide (typeof h f = "function") = is_callable h f.
Proof.
  destruct f; simpl; try reflexivity.
  destruct (is_callable_cell (h !! l)); reflexivity.
Qed.

Lemma isConstructor_eq f st :
  isConstructor f st
  = (Ok (is_callable (st_heap st) f && own_prototype_slot (st_heap st) f), st).
Proof.
  unfold isConstructor. rewrite (bind_Ok _ _ _ _ _ (get_heap_eq st)).
  rewrite typeof_function.
  destruct f as [| | | | | | l]; simpl; try reflexivity.
  unfold hasOwn, hasOwnProperty, is_callable_cell.
  destruct (st_heap st !! l) as [[o | |] |] eqn:Hl; simpl; try reflexivity.
  destruct (o_call o) eqn:Hk; simpl; try reflexivity;
    (rewrite (bind_Ok _ _ _ _ _ (get_heap_eq st)); simpl; now rewrite Hl).
Qed.

(** C8. For every value [f], isConstructor returns without an error and
    leaves the state as it was, and its answer is [true] exactly when [f] is
    callable and has an own prototype property. So it is [true] for a class
    constructor and for a classic function, whose objects the host creates
    with that property, and [false] for an arrow function, a method, a bound
    function and every value that is not callable. *)
Theorem isConstructor_callable_with_own_prototype :
  (forall f st, exists b,
      isConstructor f st = (Ok b, st)
      /\ (b = true <->
          is_callable (st_heap st) f = true
          /\ exists l o, f = VObj l /\ st_heap st !! l = Some (CObj o)
                         /\ is_Some (own (o_props o) (KStr "prototype"))))
  /\ (forall st l form name proto proto_of k,
        k <> NotCallable ->
        st_heap st !! l
          = Some (function_object (initial_props form name proto) proto_of k) ->
        isConstructor (VObj l) st = (Ok (has_prototype_slot form), st))
  /\ (forall f st,
        is_callable (st_heap st) f = false ->
        isConstructor f st = (Ok false, st)).
Proof.
  split; [| split].
  - intros f st. eexists. split; [apply isConstructor_eq |].
    rewrite andb_true_iff. unfold own_prototype_slot. split.
    + intros [Hc Hp]. split; [exact Hc |].
      destruct f as [| | | | | | l]; try discriminate.
      destruct (st_heap st !! l) as [[o | |] |] eqn:Hl; try discriminate.
      exists l, o. split; [reflexivity | split; [exact Hl |]].
      apply bool_decide_eq_true in Hp. exact Hp.
    + intros [Hc (l & o & -> & Hl & Hp)]. split; [exact Hc |].
      rewrite Hl. now apply bool_decide_eq_true.
  - intros st l form name proto proto_of k Hk Hl.
    rewrite isConstructor_eq. simpl. unfold own_prototype_slot.
    rewrite Hl. simpl.
    destruct k; try congruence; destruct form; reflexivity.
  - intros f st Hc. rewrite isConstructor_eq, Hc. reflexivity.
Qed.

Lemma isConstructor_callable_with_own_prototype_witness :
  isConstructor (VObj 7) (state_of example_functions)
    = (Ok true, state_of example_functions)
  /\ isConstructor (VObj 11) (state_of example_functions)
    = (Ok true, state_of example_functions)
  /\ isConstructor (VObj 9) (state_of example_functions)
    = (Ok false, state_of example_functions)
  /\ isConstructor (VObj 10) (state_of example_functions)
    = (Ok false, state_of example_functions)
  /\ isConstructor (VStr "a string") (state_of example_functions)
    = (Ok false, state_of example_functions).
Proof.
  pose proof isConstructor_callable_with_own_prototype as (_ & Hform & Hnot).
  split; [| split; [| split; [| split]]].
  - apply (Hform (state_of example_functions) 7%nat ClassConstructor "A" 8%nat
                 (VObj 1) (HostFn 20)); [discriminate | reflexivity].
  - apply (Hform (state_of example_functions) 11%nat ClassicFunction "h" 12%nat
                 (VObj 1) (HostFn 23)); [discriminate | reflexivity].
  - apply (Hform (state_of example_functions) 9%nat ArrowFunction "f" 0%nat
                 (VObj 1) (HostFn 21)); [discriminate | reflexivity].
  - apply (Hform (state_of example_functions) 10%nat BoundFunction "bound g" 0%nat
                 (VObj 1) (HostFn 22)); [discriminate | reflexivity].
  - apply Hnot. reflexivity.
Defined.

(** ** verifyIsConstructor, and the rejection of values that are not
    constructors *)

Lemma verifyIsConstructor_eq f st :
  verifyIsConstructor f VUndef st
  = if constructor_like (st_heap st) f then (Ok f, st)
    else (Throw (TypeError "iface must be a constructor."), st).
Proof.
  unfold verifyIsConstructor. simpl.
  rewrite (bind_Ok _ _ _ _ _ (isConstructor_eq f st)).
  fold (constructor_like (st_heap st) f).
  destruct (constructor_like (st_heap st) f); reflexivity.
Qed.

Section Rejection.

Variable host_call :
  nat -> heap -> value -> list value -> outcome value * heap.
Variable R : realm.

(** restrict and sealed, given a first argument that is not a constructor,
    throw the TypeError of verifyIsConstructor to their caller and leave the
    state as it was; for restrict, when the typeof of the argument is not
    object. A first argument of restrict whose typeof is object is returned
    wrapped in a function, with the state as it was, and that function throws
    the same TypeError when its argument is not a constructor. *)
Theorem restrict_sealed_reject_non_constructor fuel st v :
  constructor_like (st_heap st) v = false ->
  v ∉ st_restrictMap st ->
  (forall exceptFor,
      typeof (st_heap st) v <> "object" ->
      restrict host_call R fuel (AVal v) exceptFor st
      = (Throw (TypeError "iface must be a constructor."), st))
  /\ sealed host_call R fuel v st
     = (Throw (TypeError "iface must be a constructor."), st)
  /\ (forall options exceptFor,
        typeof_arg (st_heap st) options = "object" ->
        restrict host_call R fuel options exceptFor st
        = (Ok (Decorator options), st)
        /\ decorator_call host_call R fuel options v st
           = (Throw (TypeError "iface must be a constructor."), st)).
Proof.
  intros Hnc Hreg. split; [| split].
  - intros exceptFor Hty. unfold restrict.
    rewrite (bind_Ok _ _ _ _ _ (get_heap_eq st)). simpl.
    rewrite bool_decide_eq_false_2 by exact Hty.
    unfold bind at 1. unfold restrictMap_has.
    assert (Hk : match v with
                 | VObj _ => bool_decide (v ∈ st_restrictMap st)
                 | _ => false
                 end = false).
    { destruct v; try reflexivity. now apply bool_decide_eq_false_2. }
    rewrite Hk. unfold bind at 1. rewrite verifyIsConstructor_eq, Hnc.
    reflexivity.
  - unfold sealed. unfold bind at 1. rewrite verifyIsConstructor_eq, Hnc.
    reflexivity.
  - intros options exceptFor Hty. split.
    + unfold restrict. rewrite (bind_Ok _ _ _ _ _ (get_heap_eq st)).
      rewrite bool_decide_eq_true_2 by exact Hty. reflexivity.
    + unfold decorator_call. unfold bind at 1.
      rewrite verifyIsConstructor_eq, Hnc. reflexivity.
Qed.

End Rejection.

Lemma restrict_sealed_reject_non_constructor_witness :
  restrict host_call0 realm0 3 (AVal (VObj 9)) (AVal VUndef)
           (state_of example_functions)
  = (Throw (TypeError "iface must be a constructor."),
     state_of example_functions)
  /\ sealed host_call0 realm0 3 (VNum 42) (state_of example_functions)
     = (Throw (TypeError "iface must be a constructor."),
        state_of example_functions)
  /\ restrict host_call0 realm0 3 (AVal VNull) (AVal VUndef)
              (state_of example_functions)
     = (Ok (Decorator (AVal VNull)), state_of example_functions).
Proof.
  split; [| split].
  - apply (restrict_sealed_reject_non_constructor host_call0 realm0 3
             (state_of example_functions) (VObj 9)).
    + reflexivity.
    + simpl. apply not_elem_of_nil.
    + discriminate.
  - apply (restrict_sealed_reject_non_constructor host_call0 realm0 3
             (state_of example_functions) (VNum 42)).
    + reflexivity.
    + simpl. apply not_elem_of_nil.
  - apply (restrict_sealed_reject_non_constructor host_call0 realm0 3
             (state_of example_functions) (VNum 42)).
    + reflexivity.
    + simpl. apply not_elem_of_nil.
    + reflexivity.
Defined.

(** ** The iterator of propertiesOf *)

Lemma resize_length n l : length (resize n l) = n.
Proof.
  unfold resize. rewrite length_app, length_take, length_replicate. lia.
Qed.

Lemma result_value_eq st h r d a :
  h !! r = Some (CResult d a) ->
  result_value r (with_heap st h) = (Ok a, with_heap st h).
Proof. intros H. unfold result_value, bind. simpl. now rewrite H. Qed.

Lemma result_done_eq st h r d a :
  h !! r = Some (CResult d a) ->
  result_done r (with_heap st h) = (Ok d, with_heap st h).
Proof. intros H. unfold result_done, bind. simpl. now rewrite H. Qed.

Lemma result_set_done_eq st h r d a b :
  h !! r = Some (CResult d a) ->
  result_set_done r b (with_heap st h)
  = (Ok tt, with_heap st (<[r := CResult b a]> h)).
Proof. intros H. unfold result_set_done, bind. simpl. now rewrite H. Qed.

Lemma array_set_length_eq st h a l n :
  h !! a = Some (CArray l false) ->
  array_set_length a n (with_heap st h)
  = (Ok tt, with_heap st (<[a := CArray (resize n l) false]> h)).
Proof. intros H. unfold array_set_length, bind. simpl. now rewrite H. Qed.

Lemma array_set_length_frozen st h a l n :
  h !! a = Some (CArray l true) ->
  array_set_length a n (with_heap st h) = (Ok tt, with_heap st h).
Proof. intros H. unfold array_set_length, bind. simpl. now rewrite H. Qed.

Lemma array_set_eq st h a l i s :
  h !! a = Some (CArray l false) ->
  array_set a i s (with_heap st h)
  = (Ok tt, with_heap st
       (<[a := CArray (<[i := s]> (resize (Nat.max (S i) (length l)) l)) false]> h)).
Proof. intros H. unfold array_set, bind. simpl. now rewrite H. Qed.

Lemma array_get_eq st h a l f i :
  h !! a = Some (CArray l f) ->
  array_get a i (with_heap st h) = (Ok (default SEmpty (l !! i)), with_heap st h).
Proof. intros H. unfold array_get, bind. simpl. now rewrite H. Qed.

Lemma isFrozen_eq st h a l f :
  h !! a = Some (CArray l f) ->
  isFrozen a (with_heap st h) = (Ok f, with_heap st h).
Proof. intros H. unfold isFrozen, bind. simpl. now rewrite H. Qed.

Lemma freeze_eq st h a l f :
  h !! a = Some (CArray l f) ->
  freeze a (with_heap st h) = (Ok tt, with_heap st (<[a := CArray l true]> h)).
Proof. intros H. unfold freeze, bind. simpl. now rewrite H. Qed.

(** Writing a cell of an iterator does not change what reflection sees of any
    object. *)
Lemma own_props_insert_other (h : heap) x c0 c v :
  h !! x = Some c0 ->
  (forall o, c0 <> CObj o) ->
  (forall o, c <> CObj o) ->
  own_props (<[x := c]> h) v = own_props h v.
Proof.
  intros Hx Hc0 Hc. destruct v as [| | | | | | y]; try reflexivity.
  unfold own_props.
  destruct (decide (y = x)) as [-> | Hne].
  - rewrite Hx. rewrite list_lookup_insert_eq by (eapply lookup_lt_Some; eauto).
    destruct c as [o | |], c0 as [o0 | |]; try reflexivity;
      try (now destruct (Hc o)); now destruct (Hc0 o0).
  - now rewrite list_lookup_insert_ne by congruence.
Qed.

Lemma own_props_insert_array (h : heap) a l f c v :
  h !! a = Some (CArray l f) ->
  (forall o, c <> CObj o) ->
  own_props (<[a := c]> h) v = own_props h v.
Proof.
  intros Ha Hc. eapply own_props_insert_other; eauto.
Qed.

Lemma getOwnPropertyDescriptor_eq st h o k ps :
  own_props h o = Ok ps ->
  getOwnPropertyDescriptor o k (with_heap st h) = (Ok (own ps k), with_heap st h).
Proof.
  intros H. unfold getOwnPropertyDescriptor, bind, lift_outcome. simpl.
  now rewrite H.
Qed.

(** One step of the iterator while names are left: the array is overwritten
    in place with the next key and with the descriptor read from the heap of
    this very step. *)
Lemma next_step st (h : heap) it a sl d k ps :
  iter_cells h it a sl d false ->
  it_names it !! it_index it = Some k ->
  own_props h (it_o it) = Ok ps ->
  next it (with_heap st h)
  = (Ok (advance it, VObj (it_result it)),
     with_heap st (<[a := CArray [SKey k; SDesc (own ps k)] false]> h)).
Proof.
  intros [Hr Ha] Hk Hps. unfold next. rewrite Hk.
  assert (Hlt : (a < length h)%nat) by (eapply lookup_lt_Some; eauto).
  assert (Hne : a <> it_result it) by (intros ->; congruence).
  rewrite (bind_Ok _ _ _ _ _ (result_value_eq st h _ _ _ Hr)).
  rewrite (bind_Ok _ _ _ _ _ (array_set_length_eq st h _ _ 2 Ha)).
  pose (h1 := <[a := CArray (resize 2 sl) false]> h). fold h1.
  assert (Hr1 : h1 !! it_result it = Some (CResult d a)).
  { subst h1. now rewrite list_lookup_insert_ne. }
  assert (Ha1 : h1 !! a = Some (CArray (resize 2 sl) false)).
  { subst h1. now rewrite list_lookup_insert_eq. }
  rewrite (bind_Ok _ _ _ _ _ (result_value_eq st h1 _ _ _ Hr1)).
  rewrite (bind_Ok _ _ _ _ _ (array_set_eq st h1 _ _ 0 (SKey k) Ha1)).
  assert (Hl2 : length (resize 2 sl) = 2%nat) by apply resize_length.
  destruct (resize 2 sl) as [| x [| y [| z t]]] eqn:Hres; try discriminate.
  change (<[0%nat:=SKey k]> (resize (Nat.max 1 (length [x; y])) [x; y]))
    with [SKey k; y].
  pose (h2 := <[a := CArray [SKey k; y] false]> h1). fold h2.
  assert (Hr2 : h2 !! it_result it = Some (CResult d a)).
  { subst h2. now rewrite list_lookup_insert_ne. }
  assert (Ha2 : h2 !! a = Some (CArray [SKey k; y] false)).
  { subst h2. rewrite list_lookup_insert_eq; [reflexivity |].
    subst h1. now rewrite length_insert. }
  rewrite (bind_Ok _ _ _ _ _ (result_value_eq st h2 _ _ _ Hr2)).
  assert (Hps2 : own_props h2 (it_o it) = Ok ps).
  { subst h2. rewrite (own_props_insert_array _ a _ false) by (done || discriminate).
    subst h1. rewrite (own_props_insert_array _ a sl false) by (done || discriminate).
    exact Hps. }
  rewrite (bind_Ok _ _ _ _ _ (getOwnPropertyDescriptor_eq st h2 _ k _ Hps2)).
  rewrite (bind_Ok _ _ _ _ _ (array_set_eq st h2 _ _ 1 (SDesc (own ps k)) Ha2)).
  unfold ret. subst h2 h1. rewrite !list_insert_insert_eq. reflexivity.
Qed.

(** A step after the last name: the result is marked done and the array is
    emptied and frozen; the iterator does not advance. *)
Lemma next_exhausted st (h : heap) it a sl d fr :
  iter_cells h it a sl d fr ->
  (fr = true -> sl = []) ->
  it_names it !! it_index it = None ->
  next it (with_heap st h)
  = (Ok (it, VObj (it_result it)),
     with_heap st (<[a := CArray [] true]> (<[it_result it := CResult true a]> h))).
Proof.
  intros [Hr Ha] Hfr Hk. unfold next. rewrite Hk.
  assert (Hne : a <> it_result it) by (intros ->; congruence).
  assert (Hltr : (it_result it < length h)%nat) by (eapply lookup_lt_Some; eauto).
  rewrite (bind_Ok _ _ _ _ _ (result_set_done_eq st h _ _ _ true Hr)).
  pose (h1 := <[it_result it := CResult true a]> h). fold h1.
  assert (Hr1 : h1 !! it_result it = Some (CResult true a)).
  { subst h1. now rewrite list_lookup_insert_eq. }
  assert (Ha1 : h1 !! a = Some (CArray sl fr)).
  { subst h1. now rewrite list_lookup_insert_ne. }
  rewrite (bind_Ok _ _ _ _ _ (result_value_eq st h1 _ _ _ Hr1)).
  destruct fr.
  - rewrite (Hfr eq_refl) in *.
    rewrite (bind_Ok _ _ _ _ _ (array_set_length_frozen st h1 _ _ 0 Ha1)).
    rewrite (bind_Ok _ _ _ _ _ (result_value_eq st h1 _ _ _ Hr1)).
    rewrite (bind_Ok _ _ _ _ _ (isFrozen_eq st h1 _ _ _ Ha1)). cbn [negb].
    unfold bind, ret. now rewrite (list_insert_id _ _ _ Ha1).
  - rewrite (bind_Ok _ _ _ _ _ (array_set_length_eq st h1 _ _ 0 Ha1)).
    change (resize 0 sl) with ([] : list slot).
    pose (h2 := <[a := CArray [] false]> h1). fold h2.
    assert (Hr2 : h2 !! it_result it = Some (CResult true a)).
    { subst h2. now rewrite list_lookup_insert_ne. }
    assert (Ha2 : h2 !! a = Some (CArray [] false)).
    { subst h2. rewrite list_lookup_insert_eq; [reflexivity |].
      eapply lookup_lt_Some; eauto. }
    rewrite (bind_Ok _ _ _ _ _ (result_value_eq st h2 _ _ _ Hr2)).
    rewrite (bind_Ok _ _ _ _ _ (isFrozen_eq st h2 _ _ _ Ha2)). cbn [negb].
    assert (Hfz : (let* a := result_value (it_result it) in freeze a)
                    (with_heap st h2)
                  = (Ok tt, with_heap st (<[a := CArray [] true]> h2))).
    { rewrite (bind_Ok _ _ _ _ _ (result_value_eq st h2 _ _ _ Hr2)).
      exact (freeze_eq st h2 _ _ _ Ha2). }
    rewrite (bind_Ok _ _ _ _ _ Hfz).
    unfold ret. subst h2. now rewrite list_insert_insert_eq.
Qed.

Lemma iter_cells_step (h : heap) it a sl d fr c :
  iter_cells h it a sl d fr ->
  iter_cells (<[a := CArray c false]> h) (advance it) a c d false.
Proof.
  intros [Hr Ha]. split; simpl.
  - rewrite list_lookup_insert_ne; [exact Hr | intros ->; congruence].
  - rewrite list_lookup_insert_eq; [reflexivity | eapply lookup_lt_Some; eauto].
Qed.

Lemma iter_cells_exhausted (h : heap) it a sl d fr :
  iter_cells h it a sl d fr ->
  iter_cells (<[a := CArray [] true]> (<[it_result it := CResult true a]> h))
             it a [] true true.
Proof.
  intros [Hr Ha].
  assert (a <> it_result it) by (intros ->; congruence).
  split.
  - rewrite list_lookup_insert_ne by done.
    rewrite list_lookup_insert_eq; [reflexivity | eapply lookup_lt_Some; eauto].
  - rewrite list_lookup_insert_eq; [reflexivity |].
    rewrite length_insert. eapply lookup_lt_Some; eauto.
Qed.

Lemma own_props_app (h t : heap) v ps :
  own_props h v = Ok ps -> own_props (h ++ t) v = Ok ps.
Proof.
  destruct v as [| | | | | | l]; try (intros H; exact H).
  unfold own_props. destruct (h !! l) as [c |] eqn:Hl; [| discriminate].
  now rewrite (lookup_app_l_Some _ _ _ _ Hl).
Qed.

Lemma Object_call_eq host_R st (h : heap) o ps :
  coerced_props h o = Ok ps ->
  exists o' t,
    Object_call host_R o (with_heap st h) = (Ok o', with_heap st (h ++ t))
    /\ own_props (h ++ t) o' = Ok ps
    /\ (forall l, o = VObj l -> o' = o /\ t = []).
Proof.
  intros Hps.
  assert (Hw : forall proto,
    exists o' t,
      (let* l := alloc (CObj {| o_props := ps; o_proto := proto;
                                o_extensible := true; o_call := NotCallable |}) in
       ret (VObj l)) (with_heap st h) = (Ok o', with_heap st (h ++ t))
      /\ own_props (h ++ t) o' = Ok ps).
  { intros proto. eexists _, _. split; [reflexivity |].
    unfold own_props. rewrite lookup_app_r by (simpl; lia).
    simpl. now rewrite Nat.sub_diag. }
  destruct o as [| | b | z | s | n | l]; simpl in Hps.
  1-6: injection Hps as <-.
  1-6: match goal with
       | |- context [Object_call _ _] =>
           unfold Object_call;
           match goal with
           | |- context [alloc (CObj {| o_props := _; o_proto := ?p;
                                        o_extensible := _; o_call := _ |})] =>
               destruct (Hw p) as (o' & t & Heq & Hown)
           end;
           exists o', t; split; [exact Heq | split; [exact Hown | discriminate]]
       end.
  exists (VObj l), []. rewrite app_nil_r. split; [reflexivity |].
  split; [exact Hps |]. intros l' _. split; reflexivity.
Qed.

(** propertiesOf: the names are the own string keys followed by the own
    symbols of Object(o), read when the iterator is made; the iterator starts
    at index 0 with a fresh result object and a fresh empty array. *)
Lemma propertiesOf_eq host_R st (h : heap) o ps :
  coerced_props h o = Ok ps ->
  exists it t,
    propertiesOf host_R o (with_heap st h) = (Ok it, with_heap st (h ++ t))
    /\ it_names it = own_names ps ++ own_symbols ps
    /\ it_index it = 0%nat
    /\ own_props (h ++ t) (it_o it) = Ok ps
    /\ iter_cells (h ++ t) it (Nat.pred (it_result it)) [] false false
    /\ (length h <= Nat.pred (it_result it))%nat
    /\ (forall l, o = VObj l ->
          it_o it = o /\ t = [CArray [] false; CResult false (length h)]
          /\ it_result it = S (length h)).
Proof.
  intros Hps.
  assert (Hgen : forall (h0 : heap) o', own_props h0 o' = Ok ps ->
    let it := {| it_o := o'; it_names := own_names ps ++ own_symbols ps;
                 it_index := 0; it_result := S (length h0) |} in
    (let* names := getOwnPropertyNames o' in
     let* a := alloc (CArray [] false) in
     let* r := alloc (CResult false a) in
     let* symbols := getOwnPropertySymbols o' in
     ret {| it_o := o'; it_names := names ++ symbols; it_index := 0;
            it_result := r |}) (with_heap st h0)
    = (Ok it, with_heap st (h0 ++ [CArray [] false; CResult false (length h0)]))
    /\ own_props (h0 ++ [CArray [] false; CResult false (length h0)]) o' = Ok ps
    /\ iter_cells (h0 ++ [CArray [] false; CResult false (length h0)]) it
                  (length h0) [] false false).
  { intros h0 o' Ho'. split; [| split].
    - unfold getOwnPropertyNames, getOwnPropertySymbols, bind, get_heap,
        lift_outcome, alloc, put_heap, ret. simpl. rewrite Ho'. simpl.
      rewrite <- app_assoc.
      rewrite (own_props_app h0 _ _ _ Ho'). simpl.
      unfold with_heap. rewrite length_app. simpl.
      replace (length h0 + 1)%nat with (S (length h0)) by lia. reflexivity.
    - now apply own_props_app.
    - split; simpl.
      + rewrite lookup_app_r by lia.
        replace (S (length h0) - length h0)%nat with 1%nat by lia. reflexivity.
      + rewrite lookup_app_r by lia. now rewrite Nat.sub_diag. }
  unfold propertiesOf.
  destruct (Object_call_eq host_R st h o ps Hps) as (o' & t & Hobj & Hown & Hsame).
  rewrite (bind_Ok _ _ _ _ _ Hobj).
  destruct (Hgen (h ++ t) o' Hown) as (Heq & Hown' & Hcells).
  eexists _, (t ++ [CArray [] false; CResult false (length (h ++ t))]).
  rewrite app_assoc. split; [exact Heq |].
  split; [reflexivity |]. split; [reflexivity |]. split; [exact Hown' |].
  split; [exact Hcells |]. split; [simpl; rewrite length_app; lia |].
  intros l ->. destruct (Hsame l eq_refl) as [-> ->]. split; [reflexivity |].
  rewrite !app_nil_r. split; [reflexivity |]. reflexivity.
Qed.

Lemma drop_cons_inv {A} (l : list A) i x rest :
  drop i l = x :: rest -> l !! i = Some x /\ drop (S i) l = rest.
Proof.
  intros H. split.
  - rewrite <- (Nat.add_0_r i), <- lookup_drop, H. reflexivity.
  - change (S i) with (1 + i)%nat. rewrite Nat.add_comm, <- drop_drop, H.
    reflexivity.
Qed.

Lemma drop_nil_inv {A} (l : list A) i : drop i l = [] -> l !! i = None.
Proof.
  intros H. rewrite <- (Nat.add_0_r i), <- lookup_drop, H. reflexivity.
Qed.

(** Draining an iterator that nobody else touches yields one pair per
    remaining name, in order, and leaves the array empty and frozen. *)
Lemma drain_eq st rest :
  forall (h : heap) it a sl ps n,
    iter_cells h it a sl false false ->
    own_props h (it_o it) = Ok ps ->
    drop (it_index it) (it_names it) = rest ->
    (S (length rest) <= n)%nat ->
    exists h' it',
      drain n it (with_heap st h) = (Ok (pairs_of ps rest), with_heap st h')
      /\ iter_cells h' it' a [] true true
      /\ it_names it' !! it_index it' = None
      /\ it_result it' = it_result it.
Proof.
  induction rest as [| k rest IH]; intros h it a sl ps n Hc Hps Hdrop Hn;
    (destruct n as [| n]; [lia |]); simpl drain.
  - apply drop_nil_inv in Hdrop.
    assert (Hfr : false = true -> sl = []) by discriminate.
    rewrite (bind_Ok _ _ _ _ _ (next_exhausted st h it a sl false false Hc Hfr Hdrop)).
    cbn [snd fst]. pose proof (iter_cells_exhausted _ _ _ _ _ _ Hc) as Hc'.
    rewrite (bind_Ok _ _ _ _ _ (result_done_eq st _ _ _ _ (proj1 Hc'))).
    eexists _, it. split; [reflexivity |]. split; [exact Hc' |]. now split.
  - apply drop_cons_inv in Hdrop as [Hk Hdrop].
    rewrite (bind_Ok _ _ _ _ _ (next_step st h it a sl false k ps Hc Hk Hps)).
    cbn [snd fst].
    pose proof (iter_cells_step _ _ _ _ _ _ [SKey k; SDesc (own ps k)] Hc) as Hc'.
    set (h1 := <[a := _]> h) in *.
    pose proof Hc' as [Hr1 Ha1]. simpl in Hr1.
    rewrite (bind_Ok _ _ _ _ _ (result_done_eq st _ _ _ _ Hr1)).
    rewrite (bind_Ok _ _ _ _ _ (result_value_eq st _ _ _ _ Hr1)).
    rewrite (bind_Ok _ _ _ _ _ (array_get_eq st _ _ _ _ 0 Ha1)).
    rewrite (bind_Ok _ _ _ _ _ (array_get_eq st _ _ _ _ 1 Ha1)).
    assert (Hps1 : own_props h1 (it_o (advance it)) = Ok ps).
    { subst h1. rewrite (own_props_insert_array _ a sl false) by
        (discriminate || apply Hc). exact Hps. }
    destruct (IH h1 (advance it) a _ ps n Hc' Hps1 Hdrop ltac:(simpl in Hn; lia))
      as (h' & it' & Hd & Hc'' & Hnone & Hres).
    rewrite (bind_Ok _ _ _ _ _ Hd).
    exists h', it'. split; [reflexivity |]. split; [exact Hc'' |].
    split; [exact Hnone | exact Hres].
Qed.

(** C7. For every primitive and every object of the heap, propertiesOf does
    not throw: it coerces its argument with Object and returns an iterator
    whose names are the own string keys followed by the own symbols, read at
    that moment. While names are left, a step yields the
    next key together with the descriptor that the object has when the step is
    taken; a consumer that drains the iterator so reads exactly one pair per
    own key, in that order. Once the names are used up, every step reports
    done with the array empty and frozen, and leaves the iterator in a state
    where the same holds again. *)
Theorem propertiesOf_yields_own_properties (host_R : realm) :
  (forall st o ps,
      coerced_props (st_heap st) o = Ok ps ->
      exists it st' a,
        propertiesOf host_R o st = (Ok it, st')
        /\ it_names it = own_names ps ++ own_symbols ps
        /\ it_index it = 0%nat
        /\ own_props (st_heap st') (it_o it) = Ok ps
        /\ iter_cells (st_heap st') it a [] false false
        /\ forall n, (S (length (it_names it)) <= n)%nat ->
             exists st'',
               drain n it st' = (Ok (pairs_of ps (it_names it)), st''))
  /\ (forall st it a sl d k ps,
        iter_cells (st_heap st) it a sl d false ->
        it_names it !! it_index it = Some k ->
        own_props (st_heap st) (it_o it) = Ok ps ->
        exists st',
          next it st = (Ok (advance it, VObj (it_result it)), st')
          /\ iter_cells (st_heap st') (advance it) a
                        [SKey k; SDesc (own ps k)] d false)
  /\ (forall st it a sl d fr,
        iter_cells (st_heap st) it a sl d fr ->
        (fr = true -> sl = []) ->
        it_names it !! it_index it = None ->
        exists st',
          next it st = (Ok (it, VObj (it_result it)), st')
          /\ iter_cells (st_heap st') it a [] true true).
Proof.
  split; [| split].
  - intros st o ps Hps.
    destruct (propertiesOf_eq host_R st (st_heap st) o ps Hps)
      as (it & t & Heq & Hnames & Hidx & Hown & Hcells & _ & _).
    rewrite with_heap_same in Heq.
    exists it, (with_heap st (st_heap st ++ t)), (Nat.pred (it_result it)).
    split; [exact Heq |]. split; [exact Hnames |]. split; [exact Hidx |].
    split; [exact Hown |]. split; [exact Hcells |].
    intros n Hn.
    destruct (drain_eq st (it_names it) (st_heap st ++ t) it _ _ ps n Hcells Hown)
      as (h' & it' & Hd & _); [now rewrite Hidx | exact Hn |].
    eexists. exact Hd.
  - intros st it a sl d k ps Hc Hk Hps.
    pose proof (next_step st (st_heap st) it a sl d k ps Hc Hk Hps) as Hn.
    rewrite with_heap_same in Hn. eexists. split; [exact Hn |].
    simpl. eapply iter_cells_step. exact Hc.
  - intros st it a sl d fr Hc Hfr Hk.
    pose proof (next_exhausted st (st_heap st) it a sl d fr Hc Hfr Hk) as Hn.
    rewrite with_heap_same in Hn. eexists. split; [exact Hn |].
    simpl. eapply iter_cells_exhausted. exact Hc.
Qed.

Lemma propertiesOf_yields_own_properties_witness :
  exists it st' a,
    propertiesOf realm0 (VStr "ab") (state_of class_C) = (Ok it, st')
    /\ it_names it = [KStr "0"; KStr "1"; KStr "length"]
    /\ it_index it = 0%nat
    /\ own_props (st_heap st') (it_o it) = Ok (string_props "ab")
    /\ iter_cells (st_heap st') it a [] false false
    /\ forall n, (S (length (it_names it)) <= n)%nat ->
         exists st'',
           drain n it st'
           = (Ok (pairs_of (string_props "ab") (it_names it)), st'').
Proof.
  exact (proj1 (propertiesOf_yields_own_properties realm0)
               (state_of class_C) (VStr "ab") (string_props "ab") eq_refl).
Defined.

(** Any step of an iterator in a state that its own steps produce. *)
Lemma next_any st (h : heap) it a sl d fr ps :
  iter_cells h it a sl d fr ->
  frozen_when_exhausted it sl fr ->
  own_props h (it_o it) = Ok ps ->
  exists h1 d1,
    next it (with_heap st h)
    = (Ok (after_step it, VObj (it_result it)), with_heap st h1)
    /\ iter_cells h1 (after_step it) a (fst (yielded it ps)) d1
                  (snd (yielded it ps))
    /\ frozen_when_exhausted (after_step it) (fst (yielded it ps))
                             (snd (yielded it ps))
    /\ own_props h1 (it_o (after_step it)) = Ok ps
    /\ it_result (after_step it) = it_result it.
Proof.
  intros Hc Hok Hps. unfold yielded, after_step.
  destruct (it_names it !! it_index it) as [k |] eqn:Hk.
  - assert (fr = false) as ->.
    { destruct fr; [| reflexivity]. destruct (Hok eq_refl). congruence. }
    eexists _, d. split; [exact (next_step st h it a sl d k ps Hc Hk Hps) |].
    split; [eapply iter_cells_step; exact Hc |].
    split; [discriminate |]. split; [| reflexivity].
    rewrite (own_props_insert_array _ a sl false) by (discriminate || apply Hc).
    exact Hps.
  - assert (Hfr : fr = true -> sl = []) by (intros E; now destruct (Hok E)).
    eexists _, true.
    split; [exact (next_exhausted st h it a sl d fr Hc Hfr Hk) |].
    split; [eapply iter_cells_exhausted; exact Hc |].
    split; [now split |]. split; [| reflexivity].
    destruct Hc as [Hr Ha].
    rewrite (own_props_insert_array _ a sl fr); try discriminate.
    + rewrite (own_props_insert_other _ _ _ _ _ Hr); try discriminate.
      exact Hps.
    + rewrite list_lookup_insert_ne; [exact Ha | intros E; rewrite E in Hr; congruence].
Qed.

Lemma lookup_min {A} (l : list A) j : l !! Nat.min j (length l) = l !! j.
Proof.
  destruct (le_lt_dec (length l) j) as [Hle | Hlt].
  - rewrite Nat.min_r by exact Hle.
    rewrite (lookup_ge_None_2 l (length l)) by lia.
    now rewrite (lookup_ge_None_2 l j).
  - rewrite Nat.min_l by lia. reflexivity.
Qed.

(** [n] calls of next on an iterator that has reached the key number [j]:
    every call returns the result object, which keeps pointing to the same
    array. *)
Lemma nexts_eq st ps names r a :
  forall n j it (h : heap) sl d fr,
    it_names it = names ->
    it_result it = r ->
    it_index it = Nat.min j (length names) ->
    iter_cells h it a sl d fr ->
    frozen_when_exhausted it sl fr ->
    own_props h (it_o it) = Ok ps ->
    exists itn hn dn,
      nexts n it (with_heap st h)
      = (Ok (itn, replicate n (VObj r)), with_heap st hn)
      /\ hn !! r = Some (CResult dn a)
      /\ hn !! a
         = Some (match n with
                 | 0%nat => CArray sl fr
                 | S _ => CArray (fst (array_after ps names (j + n)))
                                 (snd (array_after ps names (j + n)))
                 end).
Proof.
  induction n as [| n IH]; intros j it h sl d fr Hnames Hres Hidx Hc Hok Hps.
  - exists it, h, d. split; [reflexivity |]. destruct Hc as [Hr Ha].
    rewrite Hres in Hr. split; assumption.
  - destruct (next_any st h it a sl d fr ps Hc Hok Hps)
      as (h1 & d1 & Hn & Hc1 & Hok1 & Hps1 & Hr1).
    assert (Hy : yielded it ps = array_after ps names (S j)).
    { unfold yielded, array_after. rewrite Hnames, Hidx, lookup_min.
      reflexivity. }
    assert (Hidx1 : it_index (after_step it) = Nat.min (S j) (length names)).
    { unfold after_step. rewrite Hnames, Hidx, lookup_min.
      destruct (names !! j) as [k |] eqn:Hk.
      - apply lookup_lt_Some in Hk. cbn [advance it_index]. rewrite Hidx. lia.
      - apply lookup_ge_None in Hk. rewrite Hidx. lia. }
    assert (Hnames1 : it_names (after_step it) = names).
    { unfold after_step. now destruct (it_names it !! it_index it). }
    destruct (IH (S j) (after_step it) h1 _ d1 _ Hnames1
                 ltac:(now rewrite Hr1) Hidx1 Hc1 Hok1 Hps1)
      as (itn & hn & dn & Hrun & Hr & Ha).
    exists itn, hn, dn. split; [| split; [exact Hr |]].
    + cbn [nexts]. rewrite (bind_Ok _ _ _ _ _ Hn). cbn [fst snd].
      rewrite (bind_Ok _ _ _ _ _ Hrun). cbn [fst snd]. now rewrite Hres.
    + rewrite Ha. destruct n as [| n].
      * rewrite Hy. now rewrite Nat.add_1_r.
      * now replace (S j + S n)%nat with (j + S (S n))%nat by lia.
Qed.

(** C10. The iterator that propertiesOf returns has one result object and one
    value array. Every call of next returns that result object, which always
    points to that array, and the array is rewritten in place: after [n]
    calls it holds the pair of the key number [n], and when the keys are used
    up it is empty and frozen. A reference kept from an earlier step is a
    reference to the same two objects, so it observes the contents of the
    latest step. *)
Theorem next_shares_result_and_array (host_R : realm) st o ps :
  coerced_props (st_heap st) o = Ok ps ->
  exists it st0 r a,
    propertiesOf host_R o st = (Ok it, st0)
    /\ it_names it = own_names ps ++ own_symbols ps
    /\ forall n,
         exists itn stn dn,
           nexts n it st0 = (Ok (itn, replicate n (VObj r)), stn)
           /\ st_heap stn !! r = Some (CResult dn a)
           /\ st_heap stn !! a
              = Some (CArray (fst (array_after ps (it_names it) n))
                             (snd (array_after ps (it_names it) n))).
Proof.
  intros Hps.
  destruct (propertiesOf_eq host_R st (st_heap st) o ps Hps)
    as (it & t & Hprops & Hnames & Hidx & Hown & Hcells & _).
  rewrite with_heap_same in Hprops.
  exists it, (with_heap st (st_heap st ++ t)), (it_result it),
    (Nat.pred (it_result it)).
  split; [exact Hprops |]. split; [exact Hnames |]. intros n.
  destruct (nexts_eq st ps (it_names it) (it_result it)
              (Nat.pred (it_result it)) n 0 it (st_heap st ++ t) [] false false
              eq_refl eq_refl ltac:(now rewrite Hidx) Hcells
              ltac:(discriminate) Hown)
    as (itn & hn & dn & Hrun & Hr & Ha).
  exists itn, (with_heap st hn), dn. split; [exact Hrun |].
  split; [exact Hr |]. cbn [st_heap with_heap]. rewrite Ha.
  now destruct n.
Qed.

Lemma next_shares_result_and_array_witness :
  exists it st0 r a,
    propertiesOf realm0 (VObj 8) (state_of class_C) = (Ok it, st0)
    /\ it_names it
       = own_names class_C_prototype_props ++ own_symbols class_C_prototype_props
    /\ forall n,
         exists itn stn dn,
           nexts n it st0 = (Ok (itn, replicate n (VObj r)), stn)
           /\ st_heap stn !! r = Some (CResult dn a)
           /\ st_heap stn !! a
              = Some (CArray
                        (fst (array_after class_C_prototype_props (it_names it) n))
                        (snd (array_after class_C_prototype_props (it_names it) n))).
Proof.
  exact (next_shares_result_and_array realm0 (state_of class_C) (VObj 8)
           class_C_prototype_props eq_refl).
Defined.

(** ** Reading a property without running user code *)

Section Reading.

Variable host_call :
  nat -> heap -> value -> list value -> outcome value * heap.
Variable R : realm.

Lemma Get_plain fuel st (h : heap) v k x :
  plain_read R h v k = Some x ->
  Get host_call R fuel v k (with_heap st h) = (Ok x, with_heap st h).
Proof.
  unfold plain_read, Get, Get_with, bind, get_heap, lift_outcome. simpl.
  destruct (find_prop R h v k) as [[[y w e c | g s e c] |] | |];
    try discriminate.
  - now intros [= ->].
  - destruct g; try discriminate. now intros [= <-].
  - now intros [= <-].
Qed.

Lemma Get_plain_st fuel st v k x :
  plain_read R (st_heap st) v k = Some x ->
  Get host_call R fuel v k st = (Ok x, st).
Proof.
  destruct st as [h reg]. intros H.
  exact (Get_plain fuel {| st_heap := h; st_restrictMap := reg |} h v k x H).
Qed.

End Reading.

(** ** sealed *)

Lemma own_map_seal ps k :
  own (map (fun kp => (fst kp, seal_prop (snd kp))) ps) k
  = seal_prop <$> own ps k.
Proof.
  induction ps as [| [k' p] ps IH]; [reflexivity |]. simpl.
  destruct (decide (k' = k)); [reflexivity | exact IH].
Qed.

Lemma seal_prop_idem p : seal_prop (seal_prop p) = seal_prop p.
Proof. now destruct p. Qed.

Lemma seal_object_idem o : seal_object (seal_object o) = seal_object o.
Proof.
  unfold seal_object. simpl. f_equal. rewrite map_map.
  apply map_ext. intros [k p]. simpl. now rewrite seal_prop_idem.
Qed.

Lemma seal_eq st l o :
  st_heap st !! l = Some (CObj o) ->
  seal (VObj l) st
  = (Ok (VObj l), with_heap st (<[l := CObj (seal_object o)]> (st_heap st))).
Proof. intros H. unfold seal, bind. simpl. now rewrite H. Qed.

Lemma seal_prop_not_configurable p : p_configurable (seal_prop p) = false.
Proof. now destruct p. Qed.

Lemma seal_keys o : map fst (o_props (seal_object o)) = map fst (o_props o).
Proof. unfold seal_object. simpl. rewrite map_map. now apply map_ext. Qed.

Lemma own_set_same (ps : list (key * property)) k d :
  own (own_set ps k d) k = Some d.
Proof.
  induction ps as [| [k' p] ps IH]; simpl.
  - now rewrite decide_True.
  - destruct (decide (k' = k)); simpl.
    + now rewrite decide_True.
    + now rewrite decide_False.
Qed.

Lemma field_agrees_false {A} `{EqDecision A} (f : option A) (cur : A) :
  field_agrees f cur = false -> exists x, f = Some x /\ x <> cur.
Proof.
  destruct f as [x |]; [| discriminate]. cbn. intros H.
  exists x. split; [reflexivity |]. now apply bool_decide_eq_false in H.
Qed.

(** The host's test on a property that is not configurable refuses exactly
    the descriptors that reconfigure it. *)
Lemma admissible_sealed cur d :
  wellformed_descriptor d ->
  admissible (seal_prop cur) d = false <-> reconfigures cur d.
Proof.
  unfold wellformed_descriptor, reconfigures, admissible.
  rewrite seal_prop_not_configurable.
  assert (He : p_enumerable (seal_prop cur) = p_enumerable cur)
    by now destruct cur.
  assert (Hk : p_is_data (seal_prop cur) = p_is_data cur) by now destruct cur.
  rewrite He, Hk. intros Hwf. split.
  - intros Hadm.
    apply andb_false_iff in Hadm as [Hadm | Hmatch].
    + apply andb_false_iff in Hadm as [Hadm | Hkind].
      * apply andb_false_iff in Hadm as [Hc | Hen].
        -- left. apply negb_false_iff in Hc. now apply bool_decide_eq_true in Hc.
        -- right. left. apply field_agrees_false in Hen as (e' & -> & Hne).
           f_equal. revert Hne. destruct e', (p_enumerable cur); cbn; congruence.
      * right. right. apply orb_false_iff in Hkind as [Hgen Hne].
        apply negb_false_iff in Hgen. apply bool_decide_eq_false in Hne.
        destruct cur as [v w e c | g s e c]; cbn [p_is_data negb] in Hne.
        -- left. destruct (is_accessor_desc d); congruence.
        -- left. destruct (is_accessor_desc d); [congruence |]. exact Hgen.
    + right. right. destruct cur as [v w e c | g s e c]; cbn [seal_prop] in Hmatch.
      * right. apply orb_false_iff in Hmatch as [-> Hmatch].
        split; [reflexivity |].
        apply andb_false_iff in Hmatch as [Hw | Hv].
        -- left. apply negb_false_iff in Hw. now apply bool_decide_eq_true in Hw.
        -- right. now apply field_agrees_false.
      * right. apply andb_false_iff in Hmatch as [Hg | Hs].
        -- left. now apply field_agrees_false.
        -- right. now apply field_agrees_false.
  - intros [Hc | [Hen | Hre]].
    + rewrite Hc. reflexivity.
    + rewrite Hen. cbn [field_agrees].
      rewrite (bool_decide_eq_false_2 (negb (p_enumerable cur) = p_enumerable cur))
        by (destruct (p_enumerable cur); discriminate).
      now rewrite andb_false_r.
    + destruct cur as [v w e c | g s e c]; cbn [seal_prop p_is_data negb].
      * destruct Hre as [Hacc | (-> & [Hw | (v' & Hv & Hne)])].
        -- rewrite Hacc. cbn [orb negb]. now rewrite !andb_false_r.
        -- rewrite Hw. cbn. now rewrite !andb_false_r.
        -- rewrite Hv. cbn [field_agrees orb].
           rewrite (bool_decide_eq_false_2 (v' = v)) by exact Hne.
           now rewrite !andb_false_r.
      * destruct Hre as [Hdat | [(g' & Hg & Hne) | (s' & Hs & Hne)]].
        -- rewrite Hdat in *. rewrite andb_true_r in Hwf. rewrite Hwf.
           cbn. now rewrite !andb_false_r.
        -- rewrite Hg. cbn [field_agrees].
           rewrite (bool_decide_eq_false_2 (g' = g)) by exact Hne.
           cbn. now rewrite !andb_false_r.
        -- rewrite Hs. cbn [field_agrees].
           rewrite (bool_decide_eq_false_2 (s' = s)) by exact Hne.
           now rewrite !andb_false_r.
Qed.

(** What a sealed object refuses and what it still allows. *)
Lemma sealed_object_facts st (h : heap) x o :
  h !! x = Some (CObj (seal_object o)) ->
  (forall k d, ~ wellformed_descriptor d ->
     defineProperty (VObj x) k d (with_heap st h)
     = (Throw (TypeError host_msg_bad_descriptor), with_heap st h))
  /\ (forall k d, wellformed_descriptor d -> own (o_props o) k = None ->
        defineProperty (VObj x) k d (with_heap st h)
        = (Throw (TypeError host_msg_cannot_define), with_heap st h))
  /\ (forall k, is_Some (own (o_props o) k) ->
        delete_property (VObj x) k (with_heap st h) = (Ok false, with_heap st h))
  /\ (forall k d cur, own (o_props o) k = Some cur ->
        wellformed_descriptor d ->
        (reconfigures cur d ->
         defineProperty (VObj x) k d (with_heap st h)
         = (Throw (TypeError host_msg_cannot_define), with_heap st h))
        /\ (~ reconfigures cur d ->
            exists o',
              defineProperty (VObj x) k d (with_heap st h)
              = (Ok (VObj x), with_heap st (<[x := CObj o']> h))
              /\ own (o_props o') k = Some (apply_desc (seal_prop cur) d)
              /\ keeps_configuration cur (apply_desc (seal_prop cur) d)))
  /\ (forall k v e c v', own (o_props o) k = Some (PData v true e c) ->
        exists o',
          defineProperty (VObj x) k (value_only v') (with_heap st h)
          = (Ok (VObj x), with_heap st (<[x := CObj o']> h))
          /\ own (o_props o') k = Some (PData v' true e false)).
Proof.
  intros Hx. split; [| split; [| split; [| split]]].
  - intros k d Hwf. unfold defineProperty. unfold wellformed_descriptor in Hwf.
    now destruct (is_accessor_desc d && is_data_desc d).
  - intros k d Hwf Hk. unfold defineProperty. rewrite Hwf.
    unfold bind. simpl. rewrite Hx.
    unfold validate_and_apply. simpl. rewrite own_map_seal, Hk. reflexivity.
  - intros k [cur Hk]. unfold delete_property, bind. simpl. rewrite Hx. simpl.
    rewrite own_map_seal, Hk. simpl. now rewrite seal_prop_not_configurable.
  - intros k d cur Hk Hwf. split.
    + intros Hre. apply (admissible_sealed cur d Hwf) in Hre.
      unfold defineProperty. rewrite Hwf. unfold bind. simpl. rewrite Hx.
      unfold validate_and_apply. simpl. rewrite own_map_seal, Hk. simpl.
      now rewrite Hre.
    + intros Hre.
      assert (Hadm : admissible (seal_prop cur) d = true).
      { destruct (admissible (seal_prop cur) d) eqn:E; [reflexivity |].
        now apply (admissible_sealed cur d Hwf) in E. }
      unfold defineProperty. rewrite Hwf. unfold bind. simpl. rewrite Hx.
      unfold validate_and_apply. simpl. rewrite own_map_seal, Hk. simpl.
      rewrite Hadm. eexists. split; [reflexivity |]. simpl.
      split; [apply own_set_same |].
      unfold keeps_configuration, apply_desc.
      unfold wellformed_descriptor in Hwf.
      destruct cur as [v w e c | g s e c]; cbn [seal_prop p_enumerable
        p_configurable].
      * destruct (is_accessor_desc d) eqn:Hacc.
        { exfalso. apply Hre. right. right. now left. }
        assert (Hen : default e (d_enumerable d) = e).
        { destruct (d_enumerable d) as [e' |] eqn:He; [| reflexivity]. cbn.
          destruct (decide (e' = e)) as [-> | Hne]; [reflexivity |].
          exfalso. apply Hre. right. left. cbn. f_equal.
          destruct e', e; cbn; congruence. }
        assert (Hcf : default false (d_configurable d) = false).
        { destruct (d_configurable d) as [[|] |] eqn:Hc; try reflexivity.
          exfalso. apply Hre. now left. }
        rewrite Hen, Hcf. split; [reflexivity |]. split; [reflexivity |].
        split.
        -- destruct w; [reflexivity |].
           destruct (d_writable d) as [[|] |] eqn:Hw; cbn; try discriminate.
           exfalso. apply Hre. right. right. right. split; [reflexivity |].
           now left.
        -- intros ->.
           destruct (d_value d) as [v' |] eqn:Hv; [| reflexivity]. cbn.
           destruct (decide (v' = v)) as [-> | Hne]; [reflexivity |].
           exfalso. apply Hre. right. right. right. split; [reflexivity |].
           right. eauto.
      * destruct (is_data_desc d) eqn:Hdat.
        { exfalso. apply Hre. right. right. now left. }
        assert (Hen : default e (d_enumerable d) = e).
        { destruct (d_enumerable d) as [e' |] eqn:He; [| reflexivity]. cbn.
          destruct (decide (e' = e)) as [-> | Hne]; [reflexivity |].
          exfalso. apply Hre. right. left. cbn. f_equal.
          destruct e', e; cbn; congruence. }
        assert (Hcf : default false (d_configurable d) = false).
        { destruct (d_configurable d) as [[|] |] eqn:Hc; try reflexivity.
          exfalso. apply Hre. now left. }
        rewrite Hen, Hcf.
        assert (Hg : default g (d_get d) = g).
        { destruct (d_get d) as [g' |] eqn:Hg; [| reflexivity]. cbn.
          destruct (decide (g' = g)) as [-> | Hne]; [reflexivity |].
          exfalso. apply Hre. right. right. right. left. eauto. }
        assert (Hs : default s (d_set d) = s).
        { destruct (d_set d) as [s' |] eqn:Hs; [| reflexivity]. cbn.
          destruct (decide (s' = s)) as [-> | Hne]; [reflexivity |].
          exfalso. apply Hre. right. right. right. right. eauto. }
        rewrite Hg, Hs. repeat split.
  - intros k v e c v' Hk. unfold defineProperty, bind. simpl. rewrite Hx.
    unfold validate_and_apply. simpl. rewrite own_map_seal, Hk. simpl.
    eexists. split; [reflexivity |]. simpl. apply own_set_same.
Qed.

Section Sealed.

Variable host_call :
  nat -> heap -> value -> list value -> outcome value * heap.
Variable R : realm.

Lemma sealed_eq fuel st c p oc op w e cf :
  st_heap st !! c = Some (CObj oc) ->
  o_call oc <> NotCallable ->
  own (o_props oc) (KStr "prototype") = Some (PData (VObj p) w e cf) ->
  st_heap st !! p = Some (CObj op) ->
  exists h',
    sealed host_call R fuel (VObj c) st = (Ok (VObj c), with_heap st h')
    /\ length h' = length (st_heap st)
    /\ h' !! c = Some (CObj (seal_object oc))
    /\ h' !! p = Some (CObj (seal_object op))
    /\ forall x, x <> c -> x <> p -> h' !! x = st_heap st !! x.
Proof.
  intros Hc Hcall Hproto Hp. unfold sealed.
  assert (Hcl : constructor_like (st_heap st) (VObj c) = true).
  { unfold constructor_like, own_prototype_slot. simpl. rewrite Hc. simpl.
    rewrite Hproto. destruct (o_call oc); try congruence; reflexivity. }
  assert (Hv := verifyIsConstructor_eq (VObj c) st). rewrite Hcl in Hv.
  rewrite (bind_Ok _ _ _ _ _ Hv).
  rewrite (bind_Ok _ _ _ _ _ (seal_eq st _ _ Hc)).
  set (h1 := <[c := CObj (seal_object oc)]> (st_heap st)).
  assert (Hltc : (c < length (st_heap st))%nat) by (eapply lookup_lt_Some; eauto).
  assert (Hc1 : h1 !! c = Some (CObj (seal_object oc))).
  { subst h1. now rewrite list_lookup_insert_eq. }
  assert (Hread : plain_read R h1 (VObj c) (KStr "prototype") = Some (VObj p)).
  { unfold plain_read, find_prop. simpl. rewrite Hc1. simpl.
    rewrite own_map_seal, Hproto. reflexivity. }
  rewrite (bind_Ok _ _ _ _ _ (Get_plain host_call R fuel st h1 _ _ _ Hread)).
  destruct (decide (p = c)) as [-> | Hne].
  - assert (op = oc) as -> by congruence.
    rewrite (bind_Ok _ _ _ _ _ (seal_eq (with_heap st h1) _ _ Hc1)).
    rewrite seal_object_idem. subst h1. simpl. rewrite list_insert_insert_eq.
    eexists. split; [reflexivity |]. split; [apply length_insert |].
    split; [now rewrite list_lookup_insert_eq |].
    split; [now rewrite list_lookup_insert_eq |].
    intros x Hx _. now rewrite list_lookup_insert_ne.
  - assert (Hp1 : h1 !! p = Some (CObj op)).
    { subst h1. now rewrite list_lookup_insert_ne. }
    rewrite (bind_Ok _ _ _ _ _ (seal_eq (with_heap st h1) _ _ Hp1)).
    eexists. split; [reflexivity |]. simpl.
    assert (Hltp : (p < length h1)%nat) by (eapply lookup_lt_Some; eauto).
    split; [subst h1; now rewrite !length_insert |].
    split; [now rewrite list_lookup_insert_ne |].
    split; [now rewrite list_lookup_insert_eq |].
    intros x Hxc Hxp. rewrite list_lookup_insert_ne by congruence.
    subst h1. now rewrite list_lookup_insert_ne by congruence.
Qed.

(** C9, amended. For a constructor C whose prototype property holds an
    object P, sealed returns C. Afterwards C and P are not extensible and keep
    their keys; every property is as before except that it is not
    configurable, so its value and its writable flag are kept. On both
    objects: a descriptor with both accessor and data fields is refused,
    defining a new key throws and deleting an existing key fails.
    Redefining an existing property throws exactly when the descriptor
    reconfigures it: asks for configurable, for another enumerable, for
    another kind, getter or setter, or, on a data property that is not
    writable, for writable or another value. Every other well-formed
    descriptor is applied, and then the property differs at most in its
    value, which only a writable property can change, and in writable, which
    can only be turned off. The value of a writable data property can still
    be replaced. *)
Theorem sealed_seals_constructor_and_prototype fuel st c p oc op w e cf :
  st_heap st !! c = Some (CObj oc) ->
  o_call oc <> NotCallable ->
  own (o_props oc) (KStr "prototype") = Some (PData (VObj p) w e cf) ->
  st_heap st !! p = Some (CObj op) ->
  exists st',
    sealed host_call R fuel (VObj c) st = (Ok (VObj c), st')
    /\ forall x o,
         (x = c \/ x = p) ->
         st_heap st !! x = Some (CObj o) ->
         exists o',
           st_heap st' !! x = Some (CObj o')
           /\ o_extensible o' = false
           /\ map fst (o_props o') = map fst (o_props o)
           /\ (forall k, own (o_props o') k = seal_prop <$> own (o_props o) k)
           /\ (forall k d, ~ wellformed_descriptor d ->
                 defineProperty (VObj x) k d st'
                 = (Throw (TypeError host_msg_bad_descriptor), st'))
           /\ (forall k d, wellformed_descriptor d ->
                 own (o_props o) k = None ->
                 defineProperty (VObj x) k d st'
                 = (Throw (TypeError host_msg_cannot_define), st'))
           /\ (forall k, is_Some (own (o_props o) k) ->
                 delete_property (VObj x) k st' = (Ok false, st'))
           /\ (forall k d cur,
                 own (o_props o) k = Some cur ->
                 wellformed_descriptor d ->
                 (reconfigures cur d ->
                  defineProperty (VObj x) k d st'
                  = (Throw (TypeError host_msg_cannot_define), st'))
                 /\ (~ reconfigures cur d ->
                     exists o'' st'',
                       defineProperty (VObj x) k d st' = (Ok (VObj x), st'')
                       /\ st_heap st'' !! x = Some (CObj o'')
                       /\ own (o_props o'') k
                          = Some (apply_desc (seal_prop cur) d)
                       /\ keeps_configuration cur
                            (apply_desc (seal_prop cur) d)))
           /\ (forall k v e c v',
                 own (o_props o) k = Some (PData v true e c) ->
                 exists o'' st'',
                   defineProperty (VObj x) k (value_only v') st'
                   = (Ok (VObj x), st'')
                   /\ st_heap st'' !! x = Some (CObj o'')
                   /\ own (o_props o'') k = Some (PData v' true e false)).
Proof.
  intros Hc Hcall Hproto Hp.
  destruct (sealed_eq fuel st c p oc op w e cf Hc Hcall Hproto Hp)
    as (h' & Heq & Hlen & Hc' & Hp' & _).
  exists (with_heap st h'). split; [exact Heq |].
  intros x o Hx Ho.
  assert (Hx' : h' !! x = Some (CObj (seal_object o))).
  { destruct Hx as [-> | ->]; [rewrite Hc in Ho | rewrite Hp in Ho];
      injection Ho as <-; assumption. }
  destruct (sealed_object_facts st h' x o Hx')
    as (Hbad & Hadd & Hdel & Hrec & Hw).
  exists (seal_object o). split; [exact Hx' |]. split; [reflexivity |].
  split; [apply seal_keys |]. split; [intros k; apply own_map_seal |].
  assert (Hltx : (x < length h')%nat) by (eapply lookup_lt_Some; eauto).
  split; [exact Hbad |]. split; [exact Hadd |]. split; [exact Hdel |]. split.
  { intros k d cur Hk Hwf. destruct (Hrec k d cur Hk Hwf) as [Hthrow Hok].
    split; [exact Hthrow |]. intros Hre.
    destruct (Hok Hre) as (o'' & Hd & Ho'' & Hkeep).
    exists o'', (with_heap st (<[x := CObj o'']> h')).
    split; [exact Hd |]. split; [| split; assumption].
    simpl. now rewrite list_lookup_insert_eq. }
  intros k v e0 c0 v' Hk. destruct (Hw k v e0 c0 v' Hk) as (o'' & Hd & Ho'').
  exists o'', (with_heap st (<[x := CObj o'']> h')).
  split; [exact Hd |]. split; [| exact Ho''].
  simpl. rewrite list_lookup_insert_eq; [reflexivity |].
  eapply lookup_lt_Some; eauto.
Qed.

End Sealed.

Lemma sealed_seals_constructor_and_prototype_witness :
  exists st',
    sealed host_call0 realm0 2 (VObj 7) (state_of class_C) = (Ok (VObj 7), st')
    /\ st_heap st' !! 8%nat
       = Some (CObj {| o_props :=
                         [(KStr "constructor", PData (VObj 7) true false false);
                          (KStr "m", PData (VObj 9) true false false);
                          (KStr "x", PAccessor (VObj 10) VUndef false false)];
                       o_proto := VObj 0;
                       o_extensible := false;
                       o_call := NotCallable |})
    /\ defineProperty (VObj 7) (KStr "new_property") (value_only (VNum 1)) st'
       = (Throw (TypeError host_msg_cannot_define), st')
    /\ delete_property (VObj 7) (KStr "s") st' = (Ok false, st')
    /\ defineProperty (VObj 8) (KStr "x")
         {| d_value := None; d_writable := None; d_get := Some (VObj 9);
            d_set := None; d_enumerable := None; d_configurable := None |} st'
       = (Throw (TypeError host_msg_cannot_define), st')
    /\ defineProperty (VObj 8) (KStr "x")
         {| d_value := Some (VNum 1); d_writable := None;
            d_get := Some (VObj 10); d_set := None; d_enumerable := None;
            d_configurable := None |} st'
       = (Throw (TypeError host_msg_bad_descriptor), st')
    /\ exists st'',
         defineProperty (VObj 7) (KStr "s")
           {| d_value := Some (VNum 2); d_writable := Some false;
              d_get := None; d_set := None; d_enumerable := None;
              d_configurable := None |} st'
         = (Ok (VObj 7), st'').
Proof.
  destruct (sealed_seals_constructor_and_prototype host_call0 realm0 2
              (state_of class_C) 7%nat 8%nat
              {| o_props := function_props "C" ++
                   [(KStr "prototype", PData (VObj 8) false false false);
                    (KStr "s", PData (VNum 1) true true true)];
                 o_proto := VObj 1; o_extensible := true; o_call := HostFn 10 |}
              {| o_props := class_C_prototype_props; o_proto := VObj 0;
                 o_extensible := true; o_call := NotCallable |}
              false false false eq_refl ltac:(discriminate) eq_refl eq_refl)
    as (st' & Heq & Hall).
  exists st'. split; [exact Heq |].
  destruct (Hall 8%nat _ (or_intror eq_refl) eq_refl)
    as (o8 & H8 & Hext8 & Hkeys8 & _ & Hbad8 & _ & _ & Hrec8 & _).
  destruct (Hall 7%nat _ (or_introl eq_refl) eq_refl)
    as (o7 & H7 & _ & _ & _ & _ & Hadd & Hdel & Hrec7 & _).
  split; [| split; [| split; [| split; [| split]]]].
  - rewrite H8. vm_compute in Heq. injection Heq as <-. vm_compute in H8.
    now injection H8 as <-.
  - apply Hadd; reflexivity.
  - apply Hdel. eexists. reflexivity.
  - apply (proj1 (Hrec8 (KStr "x")
                        {| d_value := None; d_writable := None;
                           d_get := Some (VObj 9); d_set := None;
                           d_enumerable := None; d_configurable := None |}
                        (PAccessor (VObj 10) VUndef false true)
                        eq_refl eq_refl)).
    right. right. right. left. exists (VObj 9).
    split; [reflexivity | discriminate].
  - apply Hbad8. discriminate.
  - destruct (proj2 (Hrec7 (KStr "s")
                           {| d_value := Some (VNum 2); d_writable := Some false;
                              d_get := None; d_set := None;
                              d_enumerable := None; d_configurable := None |}
                           (PData (VNum 1) true true true)
                           eq_refl eq_refl)) as (o'' & st'' & Hd & _).
    + intros [H | [H | [H | [H _]]]]; discriminate H.
    + exists st''. exact Hd.
Defined.

(** ** Association lists of properties *)

Lemma own_own_set ps k d k' :
  own (own_set ps k d) k' = if decide (k = k') then Some d else own ps k'.
Proof.
  induction ps as [| [k0 p0] ps IH]; simpl.
  - destruct (decide (k = k')); reflexivity.
  - destruct (decide (k0 = k)) as [-> | Hne]; simpl.
    + destruct (decide (k = k')); reflexivity.
    + destruct (decide (k0 = k')) as [-> | Hne'].
      * now rewrite decide_False by congruence.
      * exact IH.
Qed.

Lemma own_Some_elem ps k d : own ps k = Some d -> (k, d) ∈ ps.
Proof.
  induction ps as [| [k0 p0] ps IH]; simpl; [discriminate |].
  destruct (decide (k0 = k)) as [-> | Hne].
  - intros [= ->]. left.
  - intros H. right. now apply IH.
Qed.

Lemma own_elem_NoDup ps k d :
  NoDup (map fst ps) -> (k, d) ∈ ps -> own ps k = Some d.
Proof.
  induction ps as [| [k0 p0] ps IH]; simpl; intros Hnd Hin.
  - now apply elem_of_nil in Hin.
  - apply NoDup_cons in Hnd as [Hnotin Hnd].
    apply elem_of_cons in Hin as [[= -> ->] | Hin].
    + now rewrite decide_True.
    + rewrite decide_False; [now apply IH |].
      intros ->. apply Hnotin. apply list_elem_of_fmap. now exists (k, d).
Qed.

Lemma own_Some_key ps k d : own ps k = Some d -> k ∈ map fst ps.
Proof.
  intros H. apply own_Some_elem in H.
  apply list_elem_of_fmap. exists (k, d). now split.
Qed.

Lemma own_None_key ps k : own ps k = None -> k ∉ map fst ps.
Proof.
  induction ps as [| [k0 p0] ps IH]; simpl; [intros _; apply not_elem_of_nil |].
  destruct (decide (k0 = k)) as [-> | Hne]; [discriminate |].
  intros H. apply not_elem_of_cons. split; [congruence | now apply IH].
Qed.

Lemma own_set_keys_present ps k d :
  is_Some (own ps k) -> map fst (own_set ps k d) = map fst ps.
Proof.
  induction ps as [| [k0 p0] ps IH]; simpl; [intros [x Hx]; discriminate |].
  destruct (decide (k0 = k)) as [-> | Hne]; [reflexivity |].
  intros H. simpl. f_equal. now apply IH.
Qed.

Lemma own_set_keys_absent ps k d :
  own ps k = None -> map fst (own_set ps k d) = map fst ps ++ [k].
Proof.
  induction ps as [| [k0 p0] ps IH]; simpl; [reflexivity |].
  destruct (decide (k0 = k)) as [-> | Hne]; [discriminate |].
  intros H. simpl. f_equal. now apply IH.
Qed.

Lemma own_set_NoDup ps k d :
  NoDup (map fst ps) -> NoDup (map fst (own_set ps k d)).
Proof.
  intros Hnd. destruct (own ps k) eqn:E.
  - now rewrite own_set_keys_present by eauto.
  - rewrite own_set_keys_absent by exact E.
    apply NoDup_app. split; [exact Hnd |]. split.
    + intros x Hx Hin. apply list_elem_of_singleton in Hin as ->.
      now apply own_None_key in E.
    + apply NoDup_singleton.
Qed.

Lemma descriptors_set_NoDup ds k d :
  NoDup (map fst ds) -> NoDup (map fst (descriptors_set ds k d)).
Proof.
  unfold descriptors_set. destruct (decide (k = KStr "__proto__")); [done |].
  apply own_set_NoDup.
Qed.

Lemma own_descriptors_set ds k d k' :
  own (descriptors_set ds k d) k'
  = if decide (k = KStr "__proto__") then own ds k'
    else if decide (k = k') then Some d else own ds k'.
Proof.
  unfold descriptors_set. destruct (decide (k = KStr "__proto__")); [done |].
  apply own_own_set.
Qed.

Lemma names_cover ps k :
  k ∈ own_names ps ++ own_symbols ps <-> k ∈ map fst ps.
Proof.
  unfold own_names, own_symbols. rewrite elem_of_app, !list_elem_of_filter.
  split.
  - intros [[_ H] | [_ H]]; exact H.
  - intros H. destruct (is_str_key k) eqn:E; [left | right]; now split.
Qed.

(** The properties of an object after [defineProperties] has applied [ds]. *)
Lemma apply_complete cur p : apply_desc cur (to_descriptor p) = p.
Proof. destruct cur, p; reflexivity. Qed.

Lemma admissible_configurable cur d : p_configurable cur = true -> admissible cur d = true.
Proof. intros H. unfold admissible. now rewrite H. Qed.

Lemma to_descriptor_wellformed p :
  is_accessor_desc (to_descriptor p) && is_data_desc (to_descriptor p) = false.
Proof. now destruct p. Qed.

Lemma defineProperty_eq st l o k d o' :
  is_accessor_desc d && is_data_desc d = false ->
  st_heap st !! l = Some (CObj o) ->
  validate_and_apply o k d = Some o' ->
  defineProperty (VObj l) k d st
  = (Ok (VObj l), with_heap st (<[l := CObj o']> (st_heap st))).
Proof.
  intros Hwf Hl Hv. unfold defineProperty. rewrite Hwf. unfold bind. simpl.
  now rewrite Hl, Hv.
Qed.

Lemma define_each_eq ds :
  forall st l o,
    st_heap st !! l = Some (CObj o) ->
    NoDup (map fst ds) ->
    (forall k d', (k, d') ∈ ds ->
       exists cur, own (o_props o) k = Some cur /\ p_configurable cur = true) ->
    define_each (VObj l) ds st
    = (Ok tt, with_heap st (<[l := CObj (redefine o ds)]> (st_heap st))).
Proof.
  induction ds as [| [k d] ds IH]; intros st l o Hl Hnd Hall.
  - simpl. unfold ret. f_equal.
    replace (redefine o []) with o by now destruct o.
    rewrite list_insert_id by exact Hl. now rewrite with_heap_same.
  - simpl define_each.
    destruct (Hall k d ltac:(left)) as (cur & Hcur & Hconf).
    set (o1 := {| o_props := own_set (o_props o) k d; o_proto := o_proto o;
                  o_extensible := o_extensible o; o_call := o_call o |}).
    assert (Hv : validate_and_apply o k (to_descriptor d) = Some o1).
    { unfold validate_and_apply. rewrite Hcur.
      rewrite admissible_configurable by exact Hconf.
      now rewrite apply_complete. }
    rewrite (bind_Ok _ _ _ _ _ (defineProperty_eq st l o k _ o1
                                 (to_descriptor_wellformed d) Hl Hv)).
    simpl in Hnd. apply NoDup_cons in Hnd as [Hnotin Hnd].
    assert (Hl1 : st_heap (with_heap st (<[l := CObj o1]> (st_heap st))) !! l
                  = Some (CObj o1)).
    { simpl. rewrite list_lookup_insert_eq; [reflexivity |].
      eapply lookup_lt_Some; eauto. }
    rewrite (IH _ l o1 Hl1 Hnd).
    + simpl. rewrite list_insert_insert_eq. reflexivity.
    + intros k' d' Hin.
      destruct (Hall k' d' ltac:(now right)) as (cur' & Hcur' & Hconf').
      exists cur'. split; [| exact Hconf']. subst o1. simpl.
      rewrite own_own_set. rewrite decide_False; [exact Hcur' |].
      intros ->. apply Hnotin. apply list_elem_of_fmap. now exists (k', d').
Qed.

Lemma own_fold_own_set ds :
  forall ps k,
    NoDup (map fst ds) ->
    own (fold_left (fun ps kd => own_set ps (fst kd) (snd kd)) ds ps) k
    = match own ds k with
      | Some d => Some d
      | None => own ps k
      end.
Proof.
  induction ds as [| [k0 d0] ds IH]; intros ps k Hnd; [reflexivity |].
  simpl in *. apply NoDup_cons in Hnd as [Hnotin Hnd].
  rewrite IH by exact Hnd. rewrite own_own_set.
  destruct (decide (k0 = k)) as [-> | Hne].
  - destruct (own ds k) eqn:E; [| reflexivity].
    apply own_Some_key in E. contradiction.
  - reflexivity.
Qed.

Lemma keys_fold_own_set ds :
  forall ps,
    (forall k d, (k, d) ∈ ds -> is_Some (own ps k)) ->
    map fst (fold_left (fun ps kd => own_set ps (fst kd) (snd kd)) ds ps)
    = map fst ps.
Proof.
  induction ds as [| [k0 d0] ds IH]; intros ps Hall; [reflexivity |].
  simpl. rewrite IH.
  - apply own_set_keys_present. apply (Hall k0 d0). left.
  - intros k d Hin. rewrite own_own_set.
    destruct (decide (k0 = k)); [eauto |]. apply (Hall k d). now right.
Qed.

(** ** Lookups are stable when the objects they visit are kept *)

Lemma lookup_chain_mono n :
  forall (h h' : heap) v k r n',
    lookup_chain n h v k = Ok r ->
    (n <= n')%nat ->
    objects_kept h h' ->
    lookup_chain n' h' v k = Ok r.
Proof.
  induction n as [| n IH]; intros h h' v k r n' H Hn Hkept; [discriminate |].
  destruct n' as [| n']; [lia |]. simpl in *.
  destruct v as [| | | | | | x]; try discriminate; [exact H |].
  destruct (h !! x) as [[o | |] |] eqn:Hx; try discriminate.
  rewrite (Hkept x o Hx).
  destruct (own (o_props o) k); [exact H |].
  eapply IH; eauto. lia.
Qed.

Lemma plain_read_mono R (h h' : heap) v k x :
  plain_read R h v k = Some x ->
  objects_kept h h' ->
  (length h <= length h')%nat ->
  plain_read R h' v k = Some x.
Proof.
  unfold plain_read, find_prop. intros H Hkept Hlen.
  assert (Hm : forall w r, lookup_chain (S (length h)) h w k = Ok r ->
                           lookup_chain (S (length h')) h' w k = Ok r).
  { intros w r Hw. eapply lookup_chain_mono; eauto. lia. }
  destruct v as [| | b | z | s | n | l]; try discriminate.
  - destruct (lookup_chain (S (length h)) h (Boolean_prototype R) k) eqn:E;
      try discriminate. now rewrite (Hm _ _ E).
  - destruct (lookup_chain (S (length h)) h (Number_prototype R) k) eqn:E;
      try discriminate. now rewrite (Hm _ _ E).
  - destruct (own (string_props s) k); [exact H |].
    destruct (lookup_chain (S (length h)) h (String_prototype R) k) eqn:E;
      try discriminate. now rewrite (Hm _ _ E).
  - destruct (lookup_chain (S (length h)) h (Symbol_prototype R) k) eqn:E;
      try discriminate. now rewrite (Hm _ _ E).
  - destruct (lookup_chain (S (length h)) h (VObj l) k) eqn:E;
      try discriminate. now rewrite (Hm _ _ E).
Qed.

Lemma objects_kept_app (h t : heap) : objects_kept h (h ++ t).
Proof. intros x o Hx. now apply lookup_app_l_Some. Qed.

Lemma is_guard_kept (h h' : heap) lo x iface name original :
  objects_kept h h' ->
  is_guard h lo x iface name original -> is_guard h' lo x iface name original.
Proof.
  intros Hkept (g & og & -> & Hlo & Hg & Hcall & Hproto).
  exists g, og. repeat split; try assumption. now apply Hkept.
Qed.

(** ** validateInterface *)

Lemma validateInterface_eq R st (h : heap) iface name original :
  match original with VObj _ | VNull => True | _ => False end ->
  validateInterface R iface name original (with_heap st h)
  = (Ok (VObj (length h)),
     with_heap st (h ++ [guard_cell R iface name original (length h);
                         guard_prototype_cell R (length h)])).
Proof.
  intros Hok.
  unfold validateInterface, bind, get_heap, alloc, put_heap, store, ret, throw.
  assert (Hins : forall c c1 c2 : cell,
             <[length h := c]> ((h ++ [c1]) ++ [c2]) = h ++ [c; c2]).
  { intros c c1 c2. rewrite <- app_assoc. simpl.
    rewrite insert_app_r_alt by lia. now rewrite Nat.sub_diag. }
  destruct original; try contradiction; simpl; unfold with_heap; simpl;
    rewrite Hins; reflexivity.
Qed.

Lemma validateInterface_Ok_inv R st (h : heap) iface name original v st' :
  validateInterface R iface name original (with_heap st h) = (Ok v, st') ->
  match original with VObj _ | VNull => True | _ => False end.
Proof.
  unfold validateInterface, bind, get_heap, alloc, put_heap, store, ret, throw.
  destruct original; simpl; intros H; try discriminate; exact I.
Qed.

Lemma is_guard_fresh R (h : heap) lo iface name original :
  (lo <= length h)%nat ->
  is_guard (h ++ [guard_cell R iface name original (length h);
                  guard_prototype_cell R (length h)])
           lo (VObj (length h)) iface name original.
Proof.
  intros Hlo. unfold is_guard, guard_cell. eexists (length h), _.
  split; [reflexivity |]. split; [exact Hlo |].
  split.
  - rewrite lookup_app_r by lia. rewrite Nat.sub_diag. reflexivity.
  - split; reflexivity.
Qed.

(** ** restrictProperties *)

Ltac inv_bind H :=
  let a := fresh "a" in
  let st := fresh "st" in
  let H1 := fresh "Hstep" in
  apply bind_Ok_inv in H as (a & st & H1 & H).

Section Restricting.

Variable host_call :
  nat -> heap -> value -> list value -> outcome value * heap.
Variable R : realm.

Lemma wrap_accessor_spec fuel st (h : heap) l k f prefix iface lo f' st2 :
  (if to_boolean f then
     let* iface := Get host_call R fuel (VObj l) (KStr "constructor") in
     let* name := lift_outcome (string_concat prefix (value_of_key k)) in
     validateInterface R iface (VStr name) f
   else ret f) (with_heap st h) = (Ok f', st2) ->
  plain_read R h (VObj l) (KStr "constructor") = Some iface ->
  (lo <= length h)%nat ->
  exists t,
    st2 = with_heap st (h ++ t)
    /\ wrapped_accessor (h ++ t) lo iface prefix k f f'.
Proof.
  intros H Hread Hlo. unfold wrapped_accessor.
  destruct (to_boolean f) eqn:Hf.
  - rewrite (bind_Ok _ _ _ _ _ (Get_plain host_call R fuel st h _ _ _ Hread)) in H.
    unfold lift_outcome in H. unfold bind at 1 in H.
    destruct (string_concat prefix (value_of_key k)) as [name | |] eqn:Hname;
      try discriminate.
    pose proof (validateInterface_Ok_inv _ _ _ _ _ _ _ _ H) as Hok.
    rewrite (validateInterface_eq R st h _ _ _ Hok) in H.
    injection H as <- <-. eexists. split; [reflexivity |].
    exists name. split; [reflexivity |]. now apply is_guard_fresh.
  - injection H as <- <-. exists []. now rewrite app_nil_r.
Qed.

Lemma restrict_descriptor_spec fuel st (h1 : heap) l isC k d d' st2 iface lo :
  restrict_descriptor host_call R fuel (VObj l) isC k d (with_heap st h1)
  = (Ok d', st2) ->
  (isC = false -> plain_read R h1 (VObj l) (KStr "constructor") = Some iface) ->
  (lo <= length h1)%nat ->
  exists t,
    st2 = with_heap st (h1 ++ t)
    /\ locked h1 (h1 ++ t) lo isC iface k d d'.
Proof.
  intros H Hread Hlo. destruct d as [v w e c | g s e c]; unfold locked.
  - unfold restrict_descriptor in H.
    rewrite (bind_Ok _ _ _ _ _ (get_heap_eq _)) in H.
    rewrite typeof_function in H.
    change (st_heap (with_heap st h1)) with h1 in H.
    change (negb isC && is_callable h1 v
            && negb (bool_decide (k = KStr "constructor")))
      with (wraps_data isC h1 k v) in H.
    destruct (wraps_data isC h1 k v) eqn:Hw.
    + assert (HisC : isC = false) by (destruct isC; [discriminate | reflexivity]).
      specialize (Hread HisC).
      rewrite (bind_Ok _ _ _ _ _ (Get_plain host_call R fuel st h1 _ _ _ Hread)) in H.
      inv_bind H.
      pose proof (validateInterface_Ok_inv _ _ _ _ _ _ _ _ Hstep) as Hok.
      rewrite (validateInterface_eq R st h1 _ _ _ Hok) in Hstep.
      injection Hstep as <- <-. injection H as <- <-.
      eexists. split; [reflexivity |].
      eexists. split; [reflexivity |]. now apply is_guard_fresh.
    + injection H as <- <-. exists []. now rewrite app_nil_r.
  - unfold restrict_descriptor in H. destruct isC; simpl negb in H; cbv iota in H.
    + injection H as <- <-. exists []. now rewrite app_nil_r.
    + specialize (Hread eq_refl). inv_bind H.
      destruct (wrap_accessor_spec fuel st h1 l k g "get " iface lo _ _
                  Hstep Hread Hlo) as (t1 & -> & Hg).
      inv_bind H.
      assert (Hread1 : plain_read R (h1 ++ t1) (VObj l) (KStr "constructor")
                       = Some iface).
      { eapply plain_read_mono; eauto using objects_kept_app.
        rewrite length_app. lia. }
      destruct (wrap_accessor_spec fuel st (h1 ++ t1) l k s "set " iface lo _ _
                  Hstep0 Hread1 ltac:(rewrite length_app; lia))
        as (t2 & -> & Hs).
      injection H as <- <-. exists (t1 ++ t2). rewrite app_assoc.
      split; [reflexivity |]. exists a, a0. split; [reflexivity |].
      split; [| exact Hs].
      unfold wrapped_accessor in *. destruct (to_boolean g); [| exact Hg].
      destruct Hg as (name & Hname & Hguard). exists name. split; [exact Hname |].
      eapply is_guard_kept; [apply objects_kept_app | exact Hguard].
Qed.

Lemma iter_heap_length (h0 : heap) sl fr d G :
  length (iter_heap h0 sl fr d G) = (length h0 + 2 + length G)%nat.
Proof. unfold iter_heap. rewrite !length_app. simpl. lia. Qed.

Lemma iter_heap_a (h0 : heap) sl fr d G :
  iter_heap h0 sl fr d G !! length h0 = Some (CArray sl fr).
Proof.
  unfold iter_heap. rewrite lookup_app_r by lia. now rewrite Nat.sub_diag.
Qed.

Lemma iter_heap_r (h0 : heap) sl fr d G :
  iter_heap h0 sl fr d G !! S (length h0) = Some (CResult d (length h0)).
Proof.
  unfold iter_heap. rewrite lookup_app_r by lia.
  replace (S (length h0) - length h0)%nat with 1%nat by lia. reflexivity.
Qed.

Lemma iter_heap_old (h0 : heap) sl fr d G x c :
  h0 !! x = Some c -> iter_heap h0 sl fr d G !! x = Some c.
Proof. intros H. unfold iter_heap. now apply lookup_app_l_Some. Qed.

Lemma iter_heap_set_a (h0 : heap) sl fr d G sl' fr' :
  <[length h0 := CArray sl' fr']> (iter_heap h0 sl fr d G)
  = iter_heap h0 sl' fr' d G.
Proof.
  unfold iter_heap. rewrite insert_app_r_alt by lia.
  now rewrite Nat.sub_diag.
Qed.

Lemma iter_heap_set_r (h0 : heap) sl fr d G d' :
  <[S (length h0) := CResult d' (length h0)]> (iter_heap h0 sl fr d G)
  = iter_heap h0 sl fr d' G.
Proof.
  unfold iter_heap. rewrite insert_app_r_alt by lia.
  replace (S (length h0) - length h0)%nat with 1%nat by lia. reflexivity.
Qed.

Lemma iter_heap_app (h0 : heap) sl fr d G t :
  iter_heap h0 sl fr d G ++ t = iter_heap h0 sl fr d (G ++ t).
Proof. unfold iter_heap. now rewrite <- !app_assoc. Qed.

Lemma iter_heap_set_old (h0 : heap) sl fr d G x c :
  (x < length h0)%nat ->
  <[x := c]> (iter_heap h0 sl fr d G) = iter_heap (<[x := c]> h0) sl fr d G.
Proof.
  intros Hx. unfold iter_heap. rewrite insert_app_l by exact Hx.
  now rewrite length_insert.
Qed.

Lemma iter_heap_cells (h0 : heap) sl fr d G it :
  it_result it = S (length h0) ->
  iter_cells (iter_heap h0 sl fr d G) it (length h0) sl d fr.
Proof.
  intros Hr. split; [rewrite Hr; apply iter_heap_r | apply iter_heap_a].
Qed.

Lemma is_guard_iter_heap (h0 h0' : heap) sl fr d sl' fr' d' G t x iface name original :
  length h0' = length h0 ->
  is_guard (iter_heap h0 sl fr d G) (length h0 + 2) x iface name original ->
  is_guard (iter_heap h0' sl' fr' d' (G ++ t)) (length h0 + 2) x iface name original.
Proof.
  intros Hlen (g & og & -> & Hlo & Hg & Hcall & Hproto).
  exists g, og. repeat split; try assumption.
  unfold iter_heap in *. rewrite lookup_app_r in Hg by lia.
  rewrite lookup_app_r by lia. rewrite Hlen.
  destruct (g - length h0)%nat as [| [| n]] eqn:E; try lia.
  simpl in *. now apply lookup_app_l_Some.
Qed.

Lemma locked_guards (h1 h' h'' : heap) lo isC iface k d d' :
  (forall x i n o, is_guard h' lo x i n o -> is_guard h'' lo x i n o) ->
  locked h1 h' lo isC iface k d d' -> locked h1 h'' lo isC iface k d d'.
Proof.
  intros Hg. unfold locked, wrapped_accessor.
  destruct d as [v w e c | g s e c].
  - destruct (wraps_data isC h1 k v); [| exact id].
    intros (v' & -> & Hv). eauto.
  - destruct isC; [exact id |].
    intros (g' & s' & -> & Hg' & Hs'). exists g', s'. split; [reflexivity |].
    split.
    + destruct (to_boolean g); [| exact Hg'].
      destruct Hg' as (name & Hn & Hgd). eauto.
    + destruct (to_boolean s); [| exact Hs'].
      destruct Hs' as (name & Hn & Hgd). eauto.
Qed.

Lemma descriptors_ok_grow (h0 : heap) o isC exc iface G t ds :
  descriptors_ok h0 o isC exc iface G ds ->
  descriptors_ok h0 o isC exc iface (G ++ t) ds.
Proof.
  intros Hok k d' Hk. destruct (Hok k d' Hk) as (d & t1 & Hd & Hskip & Hl).
  exists d, t1. split; [exact Hd |]. split; [exact Hskip |].
  eapply locked_guards; [| exact Hl].
  intros x i n og. now apply is_guard_iter_heap.
Qed.

Lemma own_props_iter_heap (h0 : heap) sl fr d G l o :
  h0 !! l = Some (CObj o) ->
  own_props (iter_heap h0 sl fr d G) (VObj l) = Ok (o_props o).
Proof.
  intros Hl. unfold own_props. now rewrite (iter_heap_old _ _ _ _ _ _ _ Hl).
Qed.

(** The loop of restrictProperties, when it completes: the iterator is
    exhausted, the guards made are appended to the heap, and the descriptors
    object holds the locked form of every remaining property that is not
    skipped. *)
Lemma restrict_loop_spec fuel st (h0 : heap) l o isC exc iface :
  h0 !! l = Some (CObj o) ->
  (isC = false -> plain_read R h0 (VObj l) (KStr "constructor") = Some iface) ->
  forall rest rounds it sl G ds ds_out st_out,
    it_o it = VObj l ->
    it_result it = S (length h0) ->
    drop (it_index it) (it_names it) = rest ->
    restrict_loop host_call R rounds fuel (VObj l) isC exc it ds
                  (with_heap st (iter_heap h0 sl false false G))
    = (Ok ds_out, st_out) ->
    descriptors_ok h0 o isC exc iface G ds ->
    NoDup (map fst ds) ->
    exists G',
      st_out = with_heap st (iter_heap h0 [] true true (G ++ G'))
      /\ NoDup (map fst ds_out)
      /\ descriptors_ok h0 o isC exc iface (G ++ G') ds_out
      /\ (forall k, is_Some (own ds k) -> is_Some (own ds_out k))
      /\ (forall k d, k ∈ rest -> own (o_props o) k = Some d ->
                      skipped exc k d = false -> is_Some (own ds_out k)).
Proof.
  intros Hl Hread.
  induction rest as [| k rest IH];
    intros rounds it sl G ds ds_out st_out Ho Hres Hdrop Hrun Hok Hnd;
    (destruct rounds as [| rounds]; [discriminate |]); simpl restrict_loop in Hrun.
  - apply drop_nil_inv in Hdrop.
    pose proof (iter_heap_cells h0 sl false false G it Hres) as Hc.
    assert (Hfr : false = true -> sl = []) by discriminate.
    rewrite (bind_Ok _ _ _ _ _ (next_exhausted st _ it _ sl false false Hc Hfr Hdrop))
      in Hrun.
    cbn [snd fst] in Hrun. rewrite Hres in Hrun.
    rewrite iter_heap_set_r, iter_heap_set_a in Hrun.
    rewrite (bind_Ok _ _ _ _ _ (result_done_eq st _ _ _ _ (iter_heap_r _ _ _ _ _)))
      in Hrun.
    injection Hrun as <- <-. exists []. rewrite app_nil_r.
    split; [reflexivity |]. split; [exact Hnd |]. split; [exact Hok |].
    split; [auto |]. intros k d Hin. now apply elem_of_nil in Hin.
  - apply drop_cons_inv in Hdrop as [Hk Hdrop].
    pose proof (iter_heap_cells h0 sl false false G it Hres) as Hc.
    assert (Hps : own_props (iter_heap h0 sl false false G) (it_o it)
                  = Ok (o_props o)).
    { rewrite Ho. now apply own_props_iter_heap. }
    rewrite (bind_Ok _ _ _ _ _ (next_step st _ it _ sl false k _ Hc Hk Hps)) in Hrun.
    cbn [snd fst] in Hrun. rewrite iter_heap_set_a in Hrun. rewrite Hres in Hrun.
    set (sl1 := [SKey k; SDesc (own (o_props o) k)]) in Hrun.
    rewrite (bind_Ok _ _ _ _ _ (result_done_eq st _ _ _ _ (iter_heap_r _ _ _ _ _)))
      in Hrun.
    cbv iota in Hrun.
    rewrite (bind_Ok _ _ _ _ _ (result_value_eq st _ _ _ _ (iter_heap_r _ _ _ _ _)))
      in Hrun.
    rewrite (bind_Ok _ _ _ _ _ (array_get_eq st _ _ _ _ 0 (iter_heap_a _ _ _ _ _)))
      in Hrun.
    rewrite (bind_Ok _ _ _ _ _ (result_value_eq st _ _ _ _ (iter_heap_r _ _ _ _ _)))
      in Hrun.
    rewrite (bind_Ok _ _ _ _ _ (array_get_eq st _ _ _ _ 1 (iter_heap_a _ _ _ _ _)))
      in Hrun.
    change (default SEmpty (sl1 !! 0%nat)) with (SKey k) in Hrun.
    change (default SEmpty (sl1 !! 1%nat)) with (SDesc (own (o_props o) k)) in Hrun.
    cbv iota in Hrun. subst sl1.
    assert (Hadv : drop (it_index (advance it)) (it_names (advance it)) = rest)
      by exact Hdrop.
    assert (Hskipcase :
      forall d, own (o_props o) k = Some d -> skipped exc k d = true ->
      restrict_loop host_call R rounds fuel (VObj l) isC exc (advance it) ds
        (with_heap st (iter_heap h0 [SKey k; SDesc (own (o_props o) k)]
                                 false false G))
      = (Ok ds_out, st_out) ->
      exists G',
        st_out = with_heap st (iter_heap h0 [] true true (G ++ G'))
        /\ NoDup (map fst ds_out)
        /\ descriptors_ok h0 o isC exc iface (G ++ G') ds_out
        /\ (forall k0, is_Some (own ds k0) -> is_Some (own ds_out k0))
        /\ (forall k0 d0, k0 ∈ k :: rest -> own (o_props o) k0 = Some d0 ->
                          skipped exc k0 d0 = false -> is_Some (own ds_out k0))).
    { intros d Hd Hskip Hrun'.
      destruct (IH rounds (advance it) _ G ds ds_out st_out Ho Hres Hadv Hrun'
                   Hok Hnd) as (G' & Hst & Hnd' & Hok' & Hkeep & Hcov).
      exists G'. repeat split; try assumption.
      intros k0 d0 Hin Hd0 Hs0. apply elem_of_cons in Hin as [-> | Hin].
      - congruence.
      - eauto. }
    destruct (0 <=? indexOf_call exc k)%Z eqn:Hex.
    + destruct (own (o_props o) k) as [d |] eqn:Hd.
      * apply (Hskipcase d eq_refl); [| exact Hrun].
        unfold skipped. now rewrite Hex.
      * destruct (IH rounds (advance it) _ G ds ds_out st_out Ho Hres Hadv Hrun
                   Hok Hnd) as (G' & Hst & Hnd' & Hok' & Hkeep & Hcov).
        exists G'. repeat split; try assumption.
        intros k0 d0 Hin Hd0 Hs0. apply elem_of_cons in Hin as [-> | Hin];
          [congruence | eauto].
    + destruct (own (o_props o) k) as [d |] eqn:Hd; [| discriminate].
      destruct (p_configurable d) eqn:Hconf; cbn [negb] in Hrun.
      2:{ apply (Hskipcase d eq_refl); [| exact Hrun].
          unfold skipped. rewrite Hconf. simpl. now rewrite orb_true_r. }
      inv_bind Hrun.
      assert (Hread1 : isC = false ->
                       plain_read R (iter_heap h0 [SKey k; SDesc (Some d)] false false G)
                         (VObj l) (KStr "constructor") = Some iface).
      { intros HisC. eapply plain_read_mono; eauto.
        - unfold iter_heap. apply objects_kept_app.
        - rewrite iter_heap_length. lia. }
      destruct (restrict_descriptor_spec fuel st _ l isC k d a st0 iface
                  (length h0 + 2) Hstep Hread1
                  ltac:(rewrite iter_heap_length; lia))
        as (t & -> & Hlocked).
      rewrite iter_heap_app in Hrun.
      assert (Hok1 : descriptors_ok h0 o isC exc iface (G ++ t)
                       (descriptors_set ds k a)).
      { intros k0 d0' Hk0. rewrite own_descriptors_set in Hk0.
        destruct (decide (k = KStr "__proto__")) as [Hp | Hp].
        - now apply (descriptors_ok_grow _ _ _ _ _ _ t _ Hok).
        - destruct (decide (k = k0)) as [<- | Hne].
          + injection Hk0 as <-.
            exists d, ([CArray [SKey k; SDesc (Some d)] false;
                        CResult false (length h0)] ++ G).
            split; [exact Hd |]. split.
            * unfold skipped. rewrite Hex, Hconf. simpl.
              now apply bool_decide_eq_false_2.
            * eapply locked_guards; [| exact Hlocked].
              intros x i n og Hg. rewrite iter_heap_app in Hg.
              rewrite <- (app_nil_r (G ++ t)).
              eapply is_guard_iter_heap; [reflexivity | exact Hg].
          + now apply (descriptors_ok_grow _ _ _ _ _ _ t _ Hok). }
      destruct (IH rounds (advance it) _ (G ++ t) _ ds_out st_out Ho Hres Hadv
                   Hrun Hok1 (descriptors_set_NoDup _ _ _ Hnd))
        as (G' & Hst & Hnd' & Hok' & Hkeep & Hcov).
      exists (t ++ G'). rewrite app_assoc.
      split; [exact Hst |]. split; [exact Hnd' |]. split; [exact Hok' |].
      split.
      * intros k0 Hk0. apply Hkeep. rewrite own_descriptors_set.
        destruct (decide (k = KStr "__proto__")); [exact Hk0 |].
        destruct (decide (k = k0)); [eauto | exact Hk0].
      * intros k0 d0 Hin Hd0 Hs0. apply elem_of_cons in Hin as [-> | Hin];
          [| eauto].
        apply Hkeep. rewrite own_descriptors_set.
        assert (k <> KStr "__proto__").
        { intros ->. unfold skipped in Hs0.
          rewrite bool_decide_eq_true_2 in Hs0 by reflexivity.
          now rewrite orb_true_r in Hs0. }
        rewrite decide_False by assumption. rewrite decide_True by reflexivity.
        eauto.
Qed.

(** restrictProperties, when it completes on an object of the heap: the
    object keeps its keys, its prototype and its other slots; a skipped
    property is untouched and every other one is locked. Nothing else of the
    old heap changes; the cells of the iterator and the guards are added. *)
Lemma restrictProperties_spec fuel st (h0 : heap) l o isC exc iface v st' :
  h0 !! l = Some (CObj o) ->
  (isC = false -> plain_read R h0 (VObj l) (KStr "constructor") = Some iface) ->
  restrictProperties host_call R fuel (VObj l) isC exc (with_heap st h0)
  = (Ok v, st') ->
  exists o' G,
    v = VObj l
    /\ st' = with_heap st (iter_heap (<[l := CObj o']> h0) [] true true G)
    /\ o_proto o' = o_proto o
    /\ o_extensible o' = o_extensible o
    /\ o_call o' = o_call o
    /\ map fst (o_props o') = map fst (o_props o)
    /\ forall k d,
         own (o_props o) k = Some d ->
         if skipped exc k d then own (o_props o') k = Some d
         else exists d' t1,
             own (o_props o') k = Some d'
             /\ locked (h0 ++ t1)
                       (iter_heap (<[l := CObj o']> h0) [] true true G)
                       (length h0 + 2) isC iface k d d'.
Proof.
  intros Hl Hread Hrun. unfold restrictProperties in Hrun.
  destruct (propertiesOf_eq R st h0 (VObj l) (o_props o))
    as (it & t & Hprops & Hnames & Hidx & _ & _ & _ & Hsame).
  { simpl. now rewrite Hl. }
  destruct (Hsame l eq_refl) as (Ho & -> & Hres).
  rewrite (bind_Ok _ _ _ _ _ Hprops) in Hrun. inv_bind Hrun.
  change (h0 ++ [CArray [] false; CResult false (length h0)])
    with (iter_heap h0 [] false false []) in Hstep.
  destruct (restrict_loop_spec fuel st h0 l o isC exc iface Hl Hread
              (it_names it) _ it [] [] [] a st0 Ho Hres
              ltac:(now rewrite Hidx) Hstep)
    as (G & -> & Hnd & Hok & _ & Hcov).
  { intros k d' Hk. discriminate. }
  { apply NoDup_nil_2. }
  simpl app in *.
  unfold defineProperties in Hrun. inv_bind Hrun. injection Hrun as <- <-.
  assert (Hl' : st_heap (with_heap st (iter_heap h0 [] true true G)) !! l
                = Some (CObj o)).
  { simpl. now apply iter_heap_old. }
  assert (Hall : forall k d', (k, d') ∈ a ->
            exists cur, own (o_props o) k = Some cur /\ p_configurable cur = true).
  { intros k d' Hin.
    assert (Hk : own a k = Some d') by now apply own_elem_NoDup.
    destruct (Hok k d' Hk) as (d & t1 & Hd & Hskip & _).
    exists d. split; [exact Hd |]. unfold skipped in Hskip.
    destruct (p_configurable d); [reflexivity |].
    simpl in Hskip. now rewrite orb_true_r in Hskip. }
  rewrite (define_each_eq a _ l o Hl' Hnd Hall) in Hstep0.
  injection Hstep0 as _ <-.
  assert (Hlt : (l < length h0)%nat) by (eapply lookup_lt_Some; eauto).
  simpl st_heap. rewrite iter_heap_set_old by exact Hlt.
  exists (redefine o a), G. split; [reflexivity |]. split; [reflexivity |].
  split; [reflexivity |]. split; [reflexivity |]. split; [reflexivity |].
  split.
  - simpl. apply keys_fold_own_set. intros k d Hin.
    destruct (Hall k d Hin) as (cur & Hcur & _). eauto.
  - intros k d Hd. simpl. rewrite own_fold_own_set by exact Hnd.
    destruct (skipped exc k d) eqn:Hskip.
    + destruct (own a k) as [d' |] eqn:Hk; [| exact Hd].
      destruct (Hok k d' Hk) as (d0 & t1 & Hd0 & Hskip0 & _). congruence.
    + assert (Hin : k ∈ it_names it).
      { rewrite Hnames. apply names_cover. eapply own_Some_key; eauto. }
      destruct (Hcov k d Hin Hd Hskip) as [d' Hk]. rewrite Hk.
      destruct (Hok k d' Hk) as (d0 & t1 & Hd0 & _ & Hlocked).
      assert (d0 = d) as -> by congruence.
      exists d', t1. split; [reflexivity |].
      eapply locked_guards; [| exact Hlocked].
      intros x i n og Hg. rewrite <- (app_nil_r G).
      eapply is_guard_iter_heap; [| exact Hg]. now rewrite length_insert.
Qed.

Lemma locked_static (h1 h' : heap) lo iface k d d' :
  locked h1 h' lo true iface k d d' -> d' = lock_static d.
Proof. unfold locked, wraps_data. destruct d; simpl; exact id. Qed.

Lemma hasOwn_eq st l o k :
  st_heap st !! l = Some (CObj o) ->
  hasOwn (VObj l) k st = (Ok (bool_decide (is_Some (own (o_props o) k))), st).
Proof.
  intros Hl. unfold hasOwn, hasOwnProperty, bind, get_heap, lift_outcome.
  simpl. now rewrite Hl.
Qed.

Lemma lookup_chain_update m :
  forall (h : heap) p op op1 v k,
    h !! p = Some (CObj op) ->
    own (o_props op1) k = own (o_props op) k ->
    o_proto op1 = o_proto op ->
    lookup_chain m (<[p := CObj op1]> h) v k = lookup_chain m h v k.
Proof.
  induction m as [| m IH]; intros h p op op1 v k Hp Hown Hproto; [reflexivity |].
  cbn [lookup_chain]. destruct v as [| | | | | | x]; try reflexivity.
  destruct (decide (x = p)) as [-> | Hne].
  - rewrite list_lookup_insert_eq by (eapply lookup_lt_Some; eauto).
    rewrite Hp, Hown, Hproto.
    destruct (own (o_props op) k) eqn:E; [reflexivity |].
    rewrite <- E in Hown. exact (IH h p op op1 _ k Hp Hown Hproto).
  - rewrite list_lookup_insert_ne by congruence.
    destruct (h !! x) as [[o | |] |]; try reflexivity.
    destruct (own (o_props o) k); [reflexivity |].
    exact (IH h p op op1 _ k Hp Hown Hproto).
Qed.

Lemma plain_read_update (h : heap) p op op1 v k :
  h !! p = Some (CObj op) ->
  own (o_props op1) k = own (o_props op) k ->
  o_proto op1 = o_proto op ->
  plain_read R (<[p := CObj op1]> h) v k = plain_read R h v k.
Proof.
  intros Hp Hown Hproto. unfold plain_read, find_prop.
  rewrite length_insert.
  destruct v; try reflexivity;
    try (now rewrite (lookup_chain_update _ h p op op1 _ k Hp Hown Hproto)).
Qed.

(** restrict on a constructor [c] whose prototype property holds the object
    [p], when no user code runs and the call completes. *)
Lemma restrict_spec fuel st (h : heap) c oc p op w e cf exceptFor E iface n
      res st' :
  h !! c = Some (CObj oc) ->
  o_call oc <> NotCallable ->
  own (o_props oc) (KStr "prototype") = Some (PData (VObj p) w e cf) ->
  h !! p = Some (CObj op) ->
  p <> c ->
  VObj c ∉ st_restrictMap st ->
  options_of exceptFor = Ok E ->
  plain_read R h (VObj p) (KStr "constructor") = Some iface ->
  (own (o_props op) tag_key = None -> tag_source R h c E = Some n) ->
  restrict host_call R fuel (AVal (VObj c)) exceptFor (with_heap st h)
  = (Ok res, st') ->
  exists op' oc' hF,
    res = Returned (VObj c)
    /\ st' = with_heap st hF
    /\ hF !! p = Some (CObj op')
    /\ hF !! c = Some (CObj oc')
    /\ (forall x, (x < length h)%nat -> x <> p -> x <> c -> hF !! x = h !! x)
    /\ map fst (o_props op') = map fst (o_props (with_tag op n))
    /\ map fst (o_props oc') = map fst (o_props oc)
    /\ (forall k d,
          own (o_props (with_tag op n)) k = Some d ->
          if skipped (opt_exclude E) k d then own (o_props op') k = Some d
          else exists d' t1,
              own (o_props op') k = Some d'
              /\ locked (<[p := CObj (with_tag op n)]> h ++ t1) hF
                        (length h + 2) false iface k d d')
    /\ (forall k d,
          own (o_props oc) k = Some d ->
          own (o_props oc') k
          = Some (if skipped (opt_excludeStatic E) k d then d else lock_static d))
    /\ (o_proto op' = o_proto op /\ o_extensible op' = o_extensible op
        /\ o_call op' = o_call op)
    /\ (o_proto oc' = o_proto oc /\ o_extensible oc' = o_extensible oc
        /\ o_call oc' = o_call oc).
Proof.
  intros Hc Hcall Hproto Hp Hne Hreg HE Hread Htag Hrun.
  assert (Hltc : (c < length h)%nat) by (eapply lookup_lt_Some; eauto).
  assert (Hltp : (p < length h)%nat) by (eapply lookup_lt_Some; eauto).
  unfold restrict in Hrun.
  rewrite (bind_Ok _ _ _ _ _ (get_heap_eq _)) in Hrun.
  assert (Hcallable : is_callable h (VObj c) = true).
  { simpl. rewrite Hc. simpl. destruct (o_call oc); congruence. }
  assert (Hty : typeof_arg h (AVal (VObj c)) = "function").
  { simpl. change (is_callable_cell (h !! c)) with (is_callable h (VObj c)).
    now rewrite Hcallable. }
  change (st_heap (with_heap st h)) with h in Hrun. rewrite Hty in Hrun.
  rewrite bool_decide_eq_false_2 in Hrun by discriminate.
  assert (Hknown : restrictMap_has (VObj c) (with_heap st h)
                   = (Ok false, with_heap st h)).
  { unfold restrictMap_has. simpl. now rewrite bool_decide_eq_false_2. }
  rewrite (bind_Ok _ _ _ _ _ Hknown) in Hrun.
  assert (Hverify : verifyIsConstructor (VObj c) VUndef (with_heap st h)
                    = (Ok (VObj c), with_heap st h)).
  { rewrite verifyIsConstructor_eq.
    change (st_heap (with_heap st h)) with h. unfold constructor_like.
    rewrite Hcallable. unfold own_prototype_slot. rewrite Hc, Hproto.
    reflexivity. }
  rewrite (bind_Ok _ _ _ _ _ Hverify) in Hrun.
  assert (Hgetp : plain_read R h (VObj c) (KStr "prototype") = Some (VObj p)).
  { unfold plain_read, find_prop. simpl. now rewrite Hc, Hproto. }
  rewrite (bind_Ok _ _ _ _ _ (Get_plain host_call R fuel st h _ _ _ Hgetp)) in Hrun.
  rewrite (bind_Ok _ _ _ _ _ (hasOwn_eq (with_heap st h) p op _ Hp)) in Hrun.
  fold tag_key in Hrun.
  assert (Hafter : exists st1,
    (let* opts := read_options exceptFor in
     let* _ := restrictProperties host_call R fuel (VObj p) false (opt_exclude opts) in
     let* opts := read_options exceptFor in
     let* v := restrictProperties host_call R fuel (VObj c) true
                 (opt_excludeStatic opts) in
     ret (Returned v)) st1 = (Ok res, st')
    /\ st1 = with_heap st (<[p := CObj (with_tag op n)]> h)).
  { unfold with_tag.
    destruct (own (o_props op) tag_key) as [d |] eqn:Hown.
    - rewrite bool_decide_eq_true_2 in Hrun by eauto. cbn [negb] in Hrun.
      rewrite bind_ret in Hrun.
      eexists. split; [exact Hrun |].
      now rewrite list_insert_id by exact Hp.
    - rewrite bool_decide_eq_false_2 in Hrun
        by (intros [x Hx]; discriminate).
      cbn [negb] in Hrun. specialize (Htag eq_refl). unfold tag_source in Htag.
      inv_bind Hrun. eexists. split; [exact Hrun |].
      unfold read_options in Hstep. rewrite HE in Hstep.
      rewrite bind_lift_Ok in Hstep.
      assert (Hval : (match opt_name E with
                      | Some n0 => ret n0
                      | None => Get host_call R fuel (VObj c) (KStr "name")
                      end) (with_heap st h) = (Ok n, with_heap st h)).
      { destruct (opt_name E).
        - now injection Htag as ->.
        - now apply Get_plain. }
      rewrite (bind_Ok _ _ _ _ _ Hval) in Hstep.
      unfold defineProperty in Hstep.
      change (is_accessor_desc _ && is_data_desc _) with false in Hstep.
      cbv iota in Hstep.
      rewrite (bind_Ok _ _ _ _ _ (get_heap_eq _)) in Hstep.
      change (st_heap (with_heap st h)) with h in Hstep. rewrite Hp in Hstep.
      unfold validate_and_apply in Hstep. fold tag_key in Hstep.
      rewrite Hown in Hstep.
      destruct (o_extensible op) eqn:Hext; [| discriminate].
      rewrite (bind_Ok _ _ _ _ _ (store_eq _ _ _)) in Hstep.
      injection Hstep as _ <-. reflexivity. }
  destruct Hafter as (st1 & Hrest & ->). clear Hrun.
  set (op1 := with_tag op n) in *.
  set (h1 := <[p := CObj op1]> h) in *.
  unfold read_options in Hrest. rewrite HE in Hrest.
  rewrite bind_lift_Ok in Hrest. inv_bind Hrest.
  rewrite bind_lift_Ok in Hrest. inv_bind Hrest.
  injection Hrest as <- <-.
  assert (Hp1 : h1 !! p = Some (CObj op1)).
  { subst h1. now rewrite list_lookup_insert_eq. }
  assert (Hc1 : h1 !! c = Some (CObj oc)).
  { subst h1. now rewrite list_lookup_insert_ne. }
  assert (Hlen1 : length h1 = length h) by (subst h1; apply length_insert).
  assert (Hkept1 : forall x o, x <> p -> h !! x = Some (CObj o) ->
                               h1 !! x = Some (CObj o)).
  { intros x o Hx Hxo. subst h1. now rewrite list_lookup_insert_ne. }
  assert (Hread1 : plain_read R h1 (VObj p) (KStr "constructor") = Some iface).
  { subst h1. rewrite (plain_read_update h p op op1 _ _ Hp); [exact Hread | |].
    - subst op1. unfold with_tag.
      destruct (own (o_props op) tag_key); [reflexivity |]. simpl.
      rewrite own_own_set. now rewrite decide_False.
    - subst op1. unfold with_tag. now destruct (own (o_props op) tag_key). }
  destruct (restrictProperties_spec fuel st h1 p op1 false (opt_exclude E)
              iface a st0 Hp1 (fun _ => Hread1) Hstep)
    as (op' & G1 & -> & -> & Hpr1 & Hex1 & Hca1 & Hkeys1 & Hprops1).
  assert (Hslots : o_proto op1 = o_proto op /\ o_extensible op1 = o_extensible op
                   /\ o_call op1 = o_call op).
  { subst op1. unfold with_tag. now destruct (own (o_props op) tag_key). }
  destruct Hslots as (Hpr0 & Hex0 & Hca0).
  assert (Hins : <[p := CObj op']> h1 = <[p := CObj op']> h).
  { subst h1. apply list_insert_insert_eq. }
  rewrite Hins in *. rewrite Hlen1 in *.
  set (hP := <[p := CObj op']> h) in *.
  set (H1 := iter_heap hP [] true true G1) in *.
  assert (HlenP : length hP = length h) by (subst hP; apply length_insert).
  assert (HcH1 : H1 !! c = Some (CObj oc)).
  { subst H1. apply iter_heap_old. subst hP. now rewrite list_lookup_insert_ne. }
  assert (HpH1 : H1 !! p = Some (CObj op')).
  { subst H1. apply iter_heap_old. subst hP. now rewrite list_lookup_insert_eq. }
  assert (HltH1 : (length h <= length H1)%nat).
  { subst H1. rewrite iter_heap_length. lia. }
  destruct (restrictProperties_spec fuel st H1 c oc true (opt_excludeStatic E)
              VUndef a0 _ HcH1 ltac:(discriminate) Hstep0)
    as (oc' & G2 & -> & -> & Hpr2 & Hex2 & Hca2 & Hkeys2 & Hprops2).
  set (hF := iter_heap (<[c := CObj oc']> H1) [] true true G2) in *.
  assert (Hold : forall x cl, x <> c -> H1 !! x = Some cl -> hF !! x = Some cl).
  { intros x cl Hx Hcl. subst hF. apply iter_heap_old.
    now rewrite list_lookup_insert_ne. }
  exists op', oc', hF. split; [reflexivity |]. split; [reflexivity |].
  split; [now apply Hold |].
  split.
  { subst hF. apply iter_heap_old. rewrite list_lookup_insert_eq; [reflexivity | lia]. }
  split.
  { intros x Hx Hxp Hxc. destruct (h !! x) as [cl |] eqn:Hcl.
    - apply Hold; [exact Hxc |]. subst H1. apply iter_heap_old. subst hP.
      now rewrite list_lookup_insert_ne.
    - apply lookup_ge_None in Hcl. lia. }
  split; [exact Hkeys1 |]. split; [exact Hkeys2 |]. split; [| split; [| split]].
  - intros k d Hd. specialize (Hprops1 k d Hd).
    destruct (skipped (opt_exclude E) k d); [exact Hprops1 |].
    destruct Hprops1 as (d' & t1 & Hd' & Hlocked).
    exists d', t1. split; [exact Hd' |].
    eapply locked_guards; [| exact Hlocked].
    intros x i nm og (g & cellg & -> & Hlo & Hg & Hcall' & Hproto').
    exists g, cellg. repeat split; try assumption.
    apply Hold; [lia | exact Hg].
  - intros k d Hd. specialize (Hprops2 k d Hd).
    destruct (skipped (opt_excludeStatic E) k d); [exact Hprops2 |].
    destruct Hprops2 as (d' & t1 & Hd' & Hlocked).
    rewrite Hd'. f_equal. eapply locked_static; eauto.
  - repeat split; congruence.
  - repeat split; assumption.
Qed.


Lemma locked_attributes (h1 h' : heap) lo isC iface k d d' :
  locked h1 h' lo isC iface k d d' ->
  p_configurable d' = false
  /\ p_enumerable d' = false
  /\ p_is_data d' = p_is_data d
  /\ (forall v w e c, d' = PData v w e c -> w = false).
Proof.
  unfold locked. destruct d as [v w e c | g s e c].
  - destruct (wraps_data isC h1 k v).
    + intros (v' & -> & _). repeat split. now intros ? ? ? ? [= _ <- _ _].
    + intros ->. repeat split. now intros ? ? ? ? [= _ <- _ _].
  - destruct isC.
    + intros ->. repeat split. discriminate.
    + intros (g' & s' & -> & _). repeat split. discriminate.
Qed.

Lemma own_with_tag op n k d :
  own (o_props op) k = Some d -> own (o_props (with_tag op n)) k = Some d.
Proof.
  intros Hd. unfold with_tag.
  destruct (own (o_props op) tag_key) eqn:Htag; [exact Hd |]. simpl.
  rewrite own_own_set. rewrite decide_False; [exact Hd | congruence].
Qed.

(** What restrict does to the own properties of the prototype and of the
    constructor, for a constructor C whose prototype property holds an object
    P other than C, when the call completes and reads the slots it needs
    without running user code. Every own property of P that is configurable,
    not in exclude and not named __proto__ ends non-configurable and
    non-enumerable, of the same kind, and non-writable when it is a data
    property; the same holds for the own properties of C with excludeStatic.
    Every other own property keeps its descriptor. *)
Theorem restrict_locks_own_properties fuel st c oc p op w e cf exceptFor E
        iface n res st' :
  st_heap st !! c = Some (CObj oc) ->
  o_call oc <> NotCallable ->
  own (o_props oc) (KStr "prototype") = Some (PData (VObj p) w e cf) ->
  st_heap st !! p = Some (CObj op) ->
  p <> c ->
  VObj c ∉ st_restrictMap st ->
  options_of exceptFor = Ok E ->
  plain_read R (st_heap st) (VObj p) (KStr "constructor") = Some iface ->
  (own (o_props op) tag_key = None -> tag_source R (st_heap st) c E = Some n) ->
  restrict host_call R fuel (AVal (VObj c)) exceptFor st = (Ok res, st') ->
  (forall k d,
      property_of (st_heap st) p k = Some d ->
      if skipped (opt_exclude E) k d
      then property_of (st_heap st') p k = Some d
      else exists d',
          property_of (st_heap st') p k = Some d'
          /\ p_configurable d' = false /\ p_enumerable d' = false
          /\ p_is_data d' = p_is_data d
          /\ (forall v w0 e0 c0, d' = PData v w0 e0 c0 -> w0 = false))
  /\ (forall k d,
        property_of (st_heap st) c k = Some d ->
        if skipped (opt_excludeStatic E) k d
        then property_of (st_heap st') c k = Some d
        else exists d',
            property_of (st_heap st') c k = Some d'
            /\ p_configurable d' = false /\ p_enumerable d' = false
            /\ p_is_data d' = p_is_data d
            /\ (forall v w0 e0 c0, d' = PData v w0 e0 c0 -> w0 = false)).
Proof.
  intros Hc Hcall Hproto Hp Hne Hreg HE Hread Htag Hrun.
  rewrite <- (with_heap_same st) in Hrun.
  destruct (restrict_spec fuel st (st_heap st) c oc p op w e cf exceptFor E
              iface n res st' Hc Hcall Hproto Hp Hne Hreg HE Hread Htag Hrun)
    as (op' & oc' & hF & -> & -> & HpF & HcF & _ & _ & _ & Hprops & Hstatic & _).
  unfold property_of. simpl st_heap. rewrite Hp, Hc, HpF, HcF. split.
  - intros k d Hd. specialize (Hprops k d (own_with_tag op n k d Hd)).
    destruct (skipped (opt_exclude E) k d); [exact Hprops |].
    destruct Hprops as (d' & t1 & Hd' & Hlocked).
    exists d'. split; [exact Hd' |]. eapply locked_attributes; eauto.
  - intros k d Hd. rewrite (Hstatic k d Hd).
    destruct (skipped (opt_excludeStatic E) k d); [reflexivity |].
    exists (lock_static d). split; [reflexivity |].
    destruct d; simpl; repeat split; try discriminate;
      now intros ? ? ? ? [= _ <- _ _].
Qed.

(** Under the same conditions restrict wraps no static property and no data
    property named constructor: the value, the getter and the setter of every
    own property of C are the ones it had, and so is the value of a data
    property constructor of P. *)
Theorem restrict_keeps_static_functions fuel st c oc p op w e cf exceptFor E
        iface n res st' :
  st_heap st !! c = Some (CObj oc) ->
  o_call oc <> NotCallable ->
  own (o_props oc) (KStr "prototype") = Some (PData (VObj p) w e cf) ->
  st_heap st !! p = Some (CObj op) ->
  p <> c ->
  VObj c ∉ st_restrictMap st ->
  options_of exceptFor = Ok E ->
  plain_read R (st_heap st) (VObj p) (KStr "constructor") = Some iface ->
  (own (o_props op) tag_key = None -> tag_source R (st_heap st) c E = Some n) ->
  restrict host_call R fuel (AVal (VObj c)) exceptFor st = (Ok res, st') ->
  (forall k d,
      property_of (st_heap st) c k = Some d ->
      property_of (st_heap st') c k = Some d
      \/ property_of (st_heap st') c k = Some (lock_static d))
  /\ (forall v w0 e0 c0,
        property_of (st_heap st) p (KStr "constructor") = Some (PData v w0 e0 c0) ->
        exists w1 e1 c1,
          property_of (st_heap st') p (KStr "constructor")
          = Some (PData v w1 e1 c1)).
Proof.
  intros Hc Hcall Hproto Hp Hne Hreg HE Hread Htag Hrun.
  rewrite <- (with_heap_same st) in Hrun.
  destruct (restrict_spec fuel st (st_heap st) c oc p op w e cf exceptFor E
              iface n res st' Hc Hcall Hproto Hp Hne Hreg HE Hread Htag Hrun)
    as (op' & oc' & hF & -> & -> & HpF & HcF & _ & _ & _ & Hprops & Hstatic & _).
  unfold property_of. simpl st_heap. rewrite Hp, Hc, HpF, HcF. split.
  - intros k d Hd. rewrite (Hstatic k d Hd).
    destruct (skipped (opt_excludeStatic E) k d); [now left | now right].
  - intros v w0 e0 c0 Hd.
    specialize (Hprops _ _ (own_with_tag op n _ _ Hd)).
    destruct (skipped (opt_exclude E) (KStr "constructor") (PData v w0 e0 c0));
      [eauto |].
    destruct Hprops as (d' & t1 & Hd' & Hlocked).
    unfold locked, wraps_data in Hlocked.
    rewrite bool_decide_eq_true_2 in Hlocked by reflexivity.
    rewrite andb_false_r in Hlocked. subst d'. eauto.
Qed.

Lemma is_callable_stable (h t : heap) p op op1 v :
  is_callable h v = true ->
  h !! p = Some (CObj op) ->
  o_call op1 = o_call op ->
  is_callable (<[p := CObj op1]> h ++ t) v = true.
Proof.
  intros Hv Hp Hcall. destruct v as [| | | | | | x]; try discriminate.
  simpl in *. destruct (decide (x = p)) as [-> | Hne].
  - rewrite (lookup_app_l_Some _ _ _ (CObj op1)).
    + simpl. rewrite Hcall. now rewrite Hp in Hv.
    + rewrite list_lookup_insert_eq; [reflexivity | eapply lookup_lt_Some; eauto].
  - destruct (h !! x) as [cl |] eqn:Hx; [| discriminate].
    rewrite (lookup_app_l_Some _ _ _ cl); [exact Hv |].
    now rewrite list_lookup_insert_ne.
Qed.

Lemma is_guard_call_kind (h : heap) lo x iface name original :
  is_guard h lo x iface name original ->
  call_kind h x = Some (Guard iface name original).
Proof.
  intros (g & og & -> & _ & Hg & Hcall & _). simpl. now rewrite Hg, Hcall.
Qed.

(** Under the same conditions, a method of P, that is a configurable data
    property that holds a function, whose key is not in the exclude list and
    is neither constructor nor __proto__, is replaced by a guard made from
    the value of P.constructor, the key and the original function. *)
Theorem restrict_guards_methods fuel st c oc p op w e cf exceptFor E
        iface n res st' k v w0 e0 :
  st_heap st !! c = Some (CObj oc) ->
  o_call oc <> NotCallable ->
  own (o_props oc) (KStr "prototype") = Some (PData (VObj p) w e cf) ->
  st_heap st !! p = Some (CObj op) ->
  p <> c ->
  VObj c ∉ st_restrictMap st ->
  options_of exceptFor = Ok E ->
  plain_read R (st_heap st) (VObj p) (KStr "constructor") = Some iface ->
  (own (o_props op) tag_key = None -> tag_source R (st_heap st) c E = Some n) ->
  restrict host_call R fuel (AVal (VObj c)) exceptFor st = (Ok res, st') ->
  property_of (st_heap st) p k = Some (PData v w0 e0 true) ->
  is_callable (st_heap st) v = true ->
  (indexOf_call (opt_exclude E) k < 0)%Z ->
  k <> KStr "constructor" ->
  k <> KStr "__proto__" ->
  exists g,
    property_of (st_heap st') p k = Some (PData g false false false)
    /\ call_kind (st_heap st') g = Some (Guard iface (value_of_key k) v).
Proof.
  intros Hc Hcall Hproto Hp Hne Hreg HE Hread Htag Hrun Hk Hfun Hex Hkc Hkp.
  assert (Hskip : skipped (opt_exclude E) k (PData v w0 e0 true) = false).
  { unfold skipped. apply Z.leb_gt in Hex. rewrite Hex. cbn [p_configurable negb orb].
    now apply bool_decide_eq_false_2. }
  rewrite <- (with_heap_same st) in Hrun.
  destruct (restrict_spec fuel st (st_heap st) c oc p op w e cf exceptFor E
              iface n res st' Hc Hcall Hproto Hp Hne Hreg HE Hread Htag Hrun)
    as (op' & oc' & hF & -> & -> & HpF & HcF & _ & _ & _ & Hprops & _).
  unfold property_of in *. simpl st_heap. rewrite Hp in Hk. rewrite HpF.
  specialize (Hprops _ _ (own_with_tag op n _ _ Hk)). rewrite Hskip in Hprops.
  destruct Hprops as (d' & t1 & Hd' & Hlocked).
  unfold locked, wraps_data in Hlocked.
  rewrite (is_callable_stable _ t1 p op (with_tag op n) v Hfun Hp) in Hlocked.
  2:{ unfold with_tag. now destruct (own (o_props op) tag_key). }
  rewrite bool_decide_eq_false_2 in Hlocked by exact Hkc. simpl in Hlocked.
  destruct Hlocked as (g & -> & Hguard).
  exists g. split; [exact Hd' |]. eapply is_guard_call_kind; eauto.
Qed.

Lemma function_kind_of_call_kind (h : heap) v k :
  call_kind h v = Some k -> function_kind h v = k.
Proof.
  destruct v as [| | | | | | l]; try discriminate. simpl.
  destruct (h !! l) as [[o | |] |]; try discriminate. now intros [= ->].
Qed.

(** What a guard does when called on an object: it tests
    [this instanceof iface]. On an instance it reads the property apply of
    the original function: when that is the host's Function.prototype.apply,
    the call is the call of the original function on the same receiver and
    arguments, and when it is a value that cannot be called, the call throws
    the host's TypeError. On a receiver that is not an instance a guard named
    by a string throws the TypeError that names the property and the
    interface. *)
Theorem guard_checks_receiver fuel st g iface name original x args :
  call_kind (st_heap st) g = Some (Guard iface name original) ->
  (forall st1 a,
      instanceof host_call R fuel (VObj x) iface st = (Ok true, st1) ->
      plain_read R (st_heap st1) original (KStr "apply") = Some a ->
      call_kind (st_heap st1) a = Some BuiltinApply ->
      call host_call R (S fuel) g (VObj x) args st
      = call host_call R fuel original (VObj x) args st1)
  /\ (forall st1 a,
        instanceof host_call R fuel (VObj x) iface st = (Ok true, st1) ->
        plain_read R (st_heap st1) original (KStr "apply") = Some a ->
        is_callable (st_heap st1) a = false ->
        call host_call R (S fuel) g (VObj x) args st
        = (Throw (TypeError host_msg_not_callable), st1))
  /\ (forall st1 s nm sn,
        instanceof host_call R fuel (VObj x) iface st = (Ok false, st1) ->
        name = VStr s ->
        plain_read R (st_heap st1) iface (KStr "name") = Some nm ->
        to_string nm = Ok sn ->
        call host_call R (S fuel) g (VObj x) args st
        = (Throw (TypeError
             (((("'" +:+ s)
                +:+ "' called on an object that does not implement interface ")
               +:+ sn) +:+ ".")), st1)).
Proof.
  intros Hkind. generalize (VObj x). intros this.
  assert (Hcall : call host_call R (S fuel) g this args st
                  = guard_body R (call host_call R fuel)
                               iface name original this args st).
  { destruct g as [| | | | | | l]; try discriminate. simpl in Hkind.
    cbn [call]. unfold call_body.
    rewrite (bind_Ok _ _ _ _ _ (get_heap_eq st)).
    destruct (st_heap st !! l) as [[o | |] |]; try discriminate.
    injection Hkind as ->. reflexivity. }
  rewrite Hcall. unfold guard_body. split; [| split].
  - intros st1 a Hinst Happly Hkinda. fold (instanceof host_call R fuel).
    rewrite (bind_Ok _ _ _ _ _ Hinst). fold (Get host_call R fuel).
    rewrite (bind_Ok _ _ _ _ _ (Get_plain_st host_call R fuel st1 _ _ _ Happly)).
    rewrite (bind_Ok _ _ _ _ _ (get_heap_eq st1)).
    now rewrite (function_kind_of_call_kind _ _ _ Hkinda).
  - intros st1 a Hinst Happly Hnot. fold (instanceof host_call R fuel).
    rewrite (bind_Ok _ _ _ _ _ Hinst). fold (Get host_call R fuel).
    rewrite (bind_Ok _ _ _ _ _ (Get_plain_st host_call R fuel st1 _ _ _ Happly)).
    rewrite (bind_Ok _ _ _ _ _ (get_heap_eq st1)).
    assert (Hk : function_kind (st_heap st1) a = NotCallable).
    { destruct a as [| | | | | | l]; try reflexivity. simpl in *.
      destruct (st_heap st1 !! l) as [[o | |] |]; try reflexivity.
      simpl in Hnot. destruct (o_call o); try discriminate; reflexivity. }
    now rewrite Hk.
  - intros st1 s nm sn Hinst -> Hname Hsn. fold (instanceof host_call R fuel).
    rewrite (bind_Ok _ _ _ _ _ Hinst).
    change (string_concat "'" (VStr s)) with (Ok (A := string) ("'" +:+ s)).
    rewrite bind_lift_Ok. fold (Get host_call R fuel).
    rewrite (bind_Ok _ _ _ _ _ (Get_plain_st host_call R fuel st1 _ _ _ Hname)).
    unfold string_concat. rewrite Hsn. rewrite bind_lift_Ok. reflexivity.
Qed.


End Restricting.



(** ** Nothing in the library writes restrictMap *)

Create HintDb registry.

Lemma kr_ret {A} (a : A) : keeps_registry (ret a).
Proof. intros st. reflexivity. Qed.

Lemma kr_throw {A} e : keeps_registry (@throw A e).
Proof. intros st. reflexivity. Qed.

Lemma kr_stuck {A} : keeps_registry (@stuck A).
Proof. intros st. reflexivity. Qed.

Lemma kr_lift {A} (o : outcome A) : keeps_registry (lift_outcome o).
Proof. intros st. reflexivity. Qed.

Lemma kr_get_heap : keeps_registry get_heap.
Proof. intros st. reflexivity. Qed.

Lemma kr_put_heap h : keeps_registry (put_heap h).
Proof. intros st. reflexivity. Qed.

Lemma kr_restrictMap_has v : keeps_registry (restrictMap_has v).
Proof. intros st. reflexivity. Qed.

Lemma kr_bind {A B} (m : M A) (k : A -> M B) :
  keeps_registry m -> (forall a, keeps_registry (k a)) ->
  keeps_registry (bind m k).
Proof.
  intros Hm Hk st. unfold bind. specialize (Hm st).
  destruct (m st) as [[a | e |] st1]; simpl in *; try exact Hm.
  now rewrite Hk.
Qed.

Lemma kr_run_host host_call id this args :
  keeps_registry (run_host host_call id this args).
Proof.
  intros st. unfold run_host.
  now destruct (host_call id (st_heap st) this args).
Qed.

#[local] Hint Resolve kr_ret kr_throw kr_stuck kr_lift kr_get_heap kr_put_heap
  kr_restrictMap_has kr_run_host : registry.

Ltac kr_step :=
  first
    [ solve [auto with registry nocore]
    | apply kr_bind; [| intros ?]
    | match goal with
      | |- keeps_registry (match ?x with _ => _ end) => destruct x
      end ].

Ltac kr := repeat kr_step.

Lemma kr_alloc c : keeps_registry (alloc c).
Proof. unfold alloc. kr. Qed.

Lemma kr_store l c : keeps_registry (store l c).
Proof. unfold store. kr. Qed.

#[local] Hint Resolve kr_alloc kr_store : registry.

Lemma kr_defineProperty O k d : keeps_registry (defineProperty O k d).
Proof. unfold defineProperty. kr. Qed.

#[local] Hint Resolve kr_defineProperty : registry.

Lemma kr_define_each O ds : keeps_registry (define_each O ds).
Proof. induction ds as [| [k p] ds IH]; simpl; kr. Qed.

#[local] Hint Resolve kr_define_each : registry.

Lemma kr_defineProperties O ds : keeps_registry (defineProperties O ds).
Proof. unfold defineProperties. kr. Qed.

Lemma kr_hasOwn v k : keeps_registry (hasOwn v k).
Proof. unfold hasOwn, hasOwnProperty. kr. Qed.

#[local] Hint Resolve kr_defineProperties kr_hasOwn : registry.

Lemma kr_isConstructor v : keeps_registry (isConstructor v).
Proof. unfold isConstructor. kr. Qed.

#[local] Hint Resolve kr_isConstructor : registry.

Lemma kr_verifyIsConstructor v n : keeps_registry (verifyIsConstructor v n).
Proof. unfold verifyIsConstructor. kr. Qed.

Lemma kr_next it : keeps_registry (next it).
Proof.
  unfold next, result_set_done, result_value, array_set_length, isFrozen,
    freeze, array_set, getOwnPropertyDescriptor.
  kr.
Qed.

Lemma kr_propertiesOf R o : keeps_registry (propertiesOf R o).
Proof.
  unfold propertiesOf, Object_call, getOwnPropertyNames, getOwnPropertySymbols.
  kr.
Qed.

Lemma kr_validateInterface R iface name original :
  keeps_registry (validateInterface R iface name original).
Proof. unfold validateInterface. kr. Qed.

#[local] Hint Resolve kr_verifyIsConstructor kr_next kr_propertiesOf
  kr_validateInterface : registry.

Section Registry.

Variable host_call :
  nat -> heap -> value -> list value -> outcome value * heap.
Variable R : realm.

Lemma kr_Get_with rec o k :
  (forall f this args, keeps_registry (rec f this args)) ->
  keeps_registry (Get_with R rec o k).
Proof. intros Hrec. unfold Get_with. kr. Qed.

Lemma kr_OrdinaryHasInstance_with rec C V :
  (forall f this args, keeps_registry (rec f this args)) ->
  keeps_registry (OrdinaryHasInstance_with R rec C V).
Proof.
  intros Hrec. pose proof (kr_Get_with rec) as HG.
  unfold OrdinaryHasInstance_with. kr.
Qed.

Lemma kr_instanceof_with rec V target :
  (forall f this args, keeps_registry (rec f this args)) ->
  keeps_registry (instanceof_with R rec V target).
Proof.
  intros Hrec. pose proof (kr_Get_with rec) as HG.
  pose proof (kr_OrdinaryHasInstance_with rec) as HO.
  unfold instanceof_with. kr.
Qed.

Lemma kr_call fuel : forall f this args,
  keeps_registry (call host_call R fuel f this args).
Proof.
  induction fuel as [| fuel IH]; intros f this args; simpl; [apply kr_stuck |].
  pose proof (kr_Get_with (call host_call R fuel)) as HG.
  pose proof (kr_OrdinaryHasInstance_with (call host_call R fuel)) as HO.
  pose proof (kr_instanceof_with (call host_call R fuel)) as HI.
  unfold call_body, guard_body. kr.
Qed.

Lemma kr_Get fuel o k : keeps_registry (Get host_call R fuel o k).
Proof. apply kr_Get_with. apply kr_call. Qed.

Lemma kr_restrict_descriptor fuel object isC k d :
  keeps_registry (restrict_descriptor host_call R fuel object isC k d).
Proof.
  pose proof (kr_Get fuel) as HG. unfold restrict_descriptor. kr.
Qed.

Lemma kr_restrict_loop rounds :
  forall fuel object isC exc it ds,
    keeps_registry (restrict_loop host_call R rounds fuel object isC exc it ds).
Proof.
  induction rounds as [| rounds IH]; intros fuel object isC exc it ds; simpl;
    [apply kr_stuck |].
  pose proof (kr_restrict_descriptor fuel) as HD.
  unfold result_done, result_value, array_get. kr.
Qed.

Lemma kr_restrictProperties fuel object isC exc :
  keeps_registry (restrictProperties host_call R fuel object isC exc).
Proof.
  pose proof (kr_restrict_loop) as HL. unfold restrictProperties. kr.
Qed.

(** restrict leaves restrictMap as it found it, whatever its arguments and
    however the call ends: no class is ever recorded. *)
Theorem restrict_never_records fuel iface exceptFor st :
  st_restrictMap (snd (restrict host_call R fuel iface exceptFor st))
  = st_restrictMap st.
Proof.
  revert st. change (keeps_registry (restrict host_call R fuel iface exceptFor)).
  pose proof (kr_Get fuel) as HG.
  pose proof (kr_restrictProperties fuel) as HP.
  unfold restrict, read_options. kr.
Qed.

End Registry.

(** ** Where the code departs from the claims *)

(** C1. restrict never records the class: after restrict(C, { exclude: ['m'] })
    the registry is still empty, and a second restrict(C) is not a no-op: it
    processes the prototype again, wraps the method m that the first call had
    left alone, and makes it non-writable and non-configurable. *)
Theorem restrict_twice_processes_again :
  exists st1 st2,
    restrict host_call0 realm0 1 (AVal (VObj 7)) exclude_m (state_of class_C)
    = (Ok (Returned (VObj 7)), st1)
    /\ st_restrictMap st1 = []
    /\ property_of (st_heap st1) 8 (KStr "m")
       = Some (PData (VObj 9) true false true)
    /\ restrict host_call0 realm0 1 (AVal (VObj 7)) (AVal VUndef) st1
       = (Ok (Returned (VObj 7)), st2)
    /\ property_of (st_heap st2) 8 (KStr "m")
       = Some (PData (VObj 19) false false false)
    /\ call_kind (st_heap st2) (VObj 19)
       = Some (Guard (VObj 7) (VStr "m") (VObj 9))
    /\ st_restrictMap st2 = [].
Proof.
  eexists _, _. split; [vm_compute; reflexivity |].
  repeat split; vm_compute; reflexivity.
Qed.

(** C2. An own property named __proto__ is configurable and not excluded, yet
    restrict leaves it configurable and writable: the assignment
    descriptors[prop] = descriptor does not store it. *)
Theorem restrict_misses_proto_key :
  exists st',
    restrict host_call0 realm0 1 (AVal (VObj 7)) (AVal VUndef) (state_of class_P)
    = (Ok (Returned (VObj 7)), st')
    /\ property_of class_P 8 (KStr "__proto__")
       = Some (PData (VObj 9) true false true)
    /\ property_of (st_heap st') 8 (KStr "__proto__")
       = Some (PData (VObj 9) true false true)
    /\ property_of (st_heap st') 8 (KStr "constructor")
       = Some (PData (VObj 7) false false false).
Proof.
  eexists. split; [vm_compute; reflexivity |].
  repeat split; vm_compute; reflexivity.
Qed.

(** C3. The guard of a method with a symbol key forwards to the original on an
    instance, but on a receiver that is not an instance its TypeError comes
    from converting the symbol to a string: it names neither the property nor
    the interface. The guard of the method m of the same class throws the
    intended message. *)
Theorem guard_of_symbol_method_does_not_name_it :
  exists st' gm gs,
    restrict host_call0 realm0 1 (AVal (VObj 7)) (AVal VUndef) (state_of class_S)
    = (Ok (Returned (VObj 7)), st')
    /\ property_of (st_heap st') 8 (KStr "m") = Some (PData gm false false false)
    /\ property_of (st_heap st') 8 (KSym Symbol_iterator)
       = Some (PData gs false false false)
    /\ call_kind (st_heap st') gm = Some (Guard (VObj 7) (VStr "m") (VObj 9))
    /\ call_kind (st_heap st') gs
       = Some (Guard (VObj 7) (VSym Symbol_iterator) (VObj 10))
    /\ call host_call0 realm0 3 gm (VObj 11) [] st' = (Ok (VNum 11), st')
    /\ call host_call0 realm0 3 gs (VObj 11) [] st' = (Ok (VNum 12), st')
    /\ call host_call0 realm0 3 gm (VObj 12) [] st'
       = (Throw (TypeError
            "'m' called on an object that does not implement interface S."), st')
    /\ call host_call0 realm0 3 gs (VObj 12) [] st'
       = (Throw (TypeError host_msg_symbol_to_string), st').
Proof.
  eexists _, _, _. split; [vm_compute; reflexivity |].
  repeat split; vm_compute; reflexivity.
Qed.

(** C4. null is not a constructor, and sealed(null) throws the TypeError of
    verifyIsConstructor. restrict(null) does not: the test
    typeof iface === 'object' takes null for an options object, so the call
    returns a function and changes nothing. That function is of no use: on
    the class C it throws the host's TypeError for reading a property of
    null. *)
Theorem restrict_null_is_not_rejected :
  constructor_like class_C VNull = false
  /\ sealed host_call0 realm0 1 VNull (state_of class_C)
     = (Throw (TypeError "iface must be a constructor."), state_of class_C)
  /\ restrict host_call0 realm0 1 (AVal VNull) (AVal VUndef) (state_of class_C)
     = (Ok (Decorator (AVal VNull)), state_of class_C)
  /\ constructor_like class_C (VObj 7) = true
  /\ decorator_call host_call0 realm0 1 (AVal VNull) (VObj 7) (state_of class_C)
     = (Throw (TypeError host_msg_nullish), state_of class_C).
Proof. repeat split; vm_compute; reflexivity. Qed.

(** C5. When the constructor property of the prototype is an accessor,
    restrict wraps its getter: the test that exempts constructor is made on
    data properties only. *)
Theorem restrict_wraps_constructor_accessor :
  exists st' g,
    restrict host_call1 realm0 2 (AVal (VObj 7)) (AVal VUndef) (state_of class_F)
    = (Ok (Returned (VObj 7)), st')
    /\ property_of class_F 8 (KStr "constructor")
       = Some (PAccessor (VObj 9) VUndef false true)
    /\ property_of (st_heap st') 8 (KStr "constructor")
       = Some (PAccessor g VUndef false false)
    /\ g <> VObj 9
    /\ call_kind (st_heap st') g
       = Some (Guard (VObj 7) (VStr "get constructor") (VObj 9)).
Proof.
  eexists _, _. split; [vm_compute; reflexivity |].
  repeat split; try (vm_compute; reflexivity). discriminate.
Qed.

(** C9 as stated fails: after sealed(C) a property can still be reconfigured
    in one way. The static property s of the class C is writable; after
    sealed(C), Object.defineProperty(C, 's', { writable: false }) succeeds
    and s is no longer writable. *)
Lemma sealed_allows_making_read_only :
  exists st' st'',
    sealed host_call0 realm0 1 (VObj 7) (state_of class_C) = (Ok (VObj 7), st')
    /\ property_of (st_heap st') 7 (KStr "s")
       = Some (PData (VNum 1) true true false)
    /\ defineProperty (VObj 7) (KStr "s")
         {| d_value := None; d_writable := Some false; d_get := None;
            d_set := None; d_enumerable := None; d_configurable := None |} st'
       = (Ok (VObj 7), st'')
    /\ property_of (st_heap st'') 7 (KStr "s")
       = Some (PData (VNum 1) false true false).
Proof.
  eexists _, _. split; [vm_compute; reflexivity |].
  repeat split; vm_compute; reflexivity.
Qed.

(** * Further properties of the code *)

(** ** restrict on a class: witnesses of the general statements *)

Lemma restrict_locks_own_properties_witness :
  exists st',
    restrict host_call0 realm0 1 (AVal (VObj 7)) exclude_m (state_of class_C)
    = (Ok (Returned (VObj 7)), st')
    /\ property_of (st_heap st') 8 (KStr "m")
       = Some (PData (VObj 9) true false true)
    /\ (exists d',
          property_of (st_heap st') 8 (KStr "constructor") = Some d'
          /\ p_configurable d' = false /\ p_enumerable d' = false)
    /\ (exists d',
          property_of (st_heap st') 7 (KStr "s") = Some d'
          /\ p_configurable d' = false /\ p_enumerable d' = false
          /\ p_is_data d' = true).
Proof.
  set (run := restrict host_call0 realm0 1 (AVal (VObj 7)) exclude_m
                       (state_of class_C)).
  assert (Hrun : run = (Ok (Returned (VObj 7)), snd run))
    by (vm_compute; reflexivity).
  pose proof (restrict_locks_own_properties host_call0 realm0 1
                (state_of class_C) 7%nat class_C_constructor
                8%nat class_C_prototype
                false false false exclude_m
                {| opt_name := None; opt_exclude := Some [VStr "m"];
                   opt_excludeStatic := None |}
                (VObj 7) (VStr "C") (Returned (VObj 7)) (snd run)
                eq_refl ltac:(discriminate) eq_refl eq_refl ltac:(discriminate)
                ltac:(apply not_elem_of_nil) eq_refl eq_refl
                ltac:(reflexivity) Hrun) as [Hproto Hstatic].
  exists (snd run). split; [exact Hrun |]. split; [| split].
  - exact (Hproto (KStr "m") _ eq_refl).
  - destruct (Hproto (KStr "constructor") _ eq_refl) as (d' & Hd' & Hc & He & _).
    eauto.
  - destruct (Hstatic (KStr "s") _ eq_refl) as (d' & Hd' & Hc & He & Hk & _).
    exists d'. auto.
Defined.

Lemma restrict_keeps_static_functions_witness :
  exists st',
    restrict host_call0 realm0 1 (AVal (VObj 7)) exclude_m (state_of class_C)
    = (Ok (Returned (VObj 7)), st')
    /\ (property_of (st_heap st') 7 (KStr "s")
        = Some (PData (VNum 1) true true true)
        \/ property_of (st_heap st') 7 (KStr "s")
           = Some (PData (VNum 1) false false false))
    /\ exists w1 e1 c1,
         property_of (st_heap st') 8 (KStr "constructor")
         = Some (PData (VObj 7) w1 e1 c1).
Proof.
  set (run := restrict host_call0 realm0 1 (AVal (VObj 7)) exclude_m
                       (state_of class_C)).
  assert (Hrun : run = (Ok (Returned (VObj 7)), snd run))
    by (vm_compute; reflexivity).
  pose proof (restrict_keeps_static_functions host_call0 realm0 1
                (state_of class_C) 7%nat class_C_constructor
                8%nat class_C_prototype
                false false false exclude_m
                {| opt_name := None; opt_exclude := Some [VStr "m"];
                   opt_excludeStatic := None |}
                (VObj 7) (VStr "C") (Returned (VObj 7)) (snd run)
                eq_refl ltac:(discriminate) eq_refl eq_refl ltac:(discriminate)
                ltac:(apply not_elem_of_nil) eq_refl eq_refl
                ltac:(reflexivity) Hrun) as [Hstatic Hctor].
  exists (snd run). split; [exact Hrun |]. split.
  - exact (Hstatic (KStr "s") _ eq_refl).
  - exact (Hctor _ _ _ _ eq_refl).
Defined.

Lemma restrict_guards_methods_witness :
  exists st' g,
    restrict host_call0 realm0 1 (AVal (VObj 7)) (AVal VUndef) (state_of class_C)
    = (Ok (Returned (VObj 7)), st')
    /\ property_of (st_heap st') 8 (KStr "m") = Some (PData g false false false)
    /\ call_kind (st_heap st') g = Some (Guard (VObj 7) (VStr "m") (VObj 9)).
Proof.
  set (run := restrict host_call0 realm0 1 (AVal (VObj 7)) (AVal VUndef)
                       (state_of class_C)).
  assert (Hrun : run = (Ok (Returned (VObj 7)), snd run))
    by (vm_compute; reflexivity).
  destruct (restrict_guards_methods host_call0 realm0 1
              (state_of class_C) 7%nat class_C_constructor
              8%nat class_C_prototype
              false false false (AVal VUndef) no_options
              (VObj 7) (VStr "C") (Returned (VObj 7)) (snd run)
              (KStr "m") (VObj 9) true false
              eq_refl ltac:(discriminate) eq_refl eq_refl ltac:(discriminate)
              ltac:(apply not_elem_of_nil) eq_refl eq_refl
              ltac:(reflexivity) Hrun eq_refl eq_refl eq_refl
              ltac:(discriminate) ltac:(discriminate)) as (g & Hg & Hkind).
  exists (snd run), g. split; [exact Hrun |]. split; [exact Hg | exact Hkind].
Defined.

Lemma guard_checks_receiver_witness :
  call host_call0 realm0 3 (VObj 15) (VObj 11) [VNum 1] restricted_S
  = call host_call0 realm0 2 (VObj 9) (VObj 11) [VNum 1] restricted_S
  /\ call host_call0 realm0 3 (VObj 15) (VObj 11) [VNum 1]
          restricted_S_without_apply
     = (Throw (TypeError host_msg_not_callable), restricted_S_without_apply)
  /\ call host_call0 realm0 3 (VObj 15) (VObj 12) [VNum 1] restricted_S
     = (Throw (TypeError
          "'m' called on an object that does not implement interface S."),
        restricted_S).
Proof.
  assert (Hkind : call_kind (st_heap restricted_S) (VObj 15)
                  = Some (Guard (VObj 7) (VStr "m") (VObj 9)))
    by (vm_compute; reflexivity).
  assert (Hkind' : call_kind (st_heap restricted_S_without_apply) (VObj 15)
                   = Some (Guard (VObj 7) (VStr "m") (VObj 9)))
    by (vm_compute; reflexivity).
  split; [| split].
  - apply (proj1 (guard_checks_receiver host_call0 realm0 2 restricted_S
                    (VObj 15) (VObj 7) (VStr "m") (VObj 9) 11%nat [VNum 1]
                    Hkind) restricted_S (VObj 2));
      vm_compute; reflexivity.
  - apply (proj1 (proj2 (guard_checks_receiver host_call0 realm0 2
                           restricted_S_without_apply
                           (VObj 15) (VObj 7) (VStr "m") (VObj 9) 11%nat
                           [VNum 1] Hkind'))
                 restricted_S_without_apply VUndef);
      vm_compute; reflexivity.
  - apply (proj2 (proj2 (guard_checks_receiver host_call0 realm0 2 restricted_S
                           (VObj 15) (VObj 7) (VStr "m") (VObj 9) 12%nat
                           [VNum 1] Hkind))
                 restricted_S "m" (VStr "S") "S");
      try reflexivity; vm_compute; reflexivity.
Defined.

(** ** validateInterface and the guards it makes *)

Section Guards.

Variable host_call : nat -> heap -> value -> list value -> outcome value * heap.
Variable R : realm.

Lemma validateInterface_eq_st st iface name original :
  match original with VObj _ | VNull => True | _ => False end ->
  validateInterface R iface name original st
  = (Ok (VObj (length (st_heap st))),
     with_heap st (st_heap st ++
                   [guard_cell R iface name original (length (st_heap st));
                    guard_prototype_cell R (length (st_heap st))])).
Proof.
  intros H. destruct st as [h reg].
  exact (validateInterface_eq R {| st_heap := h; st_restrictMap := reg |} h
           iface name original H).
Qed.

(** validateInterface(iface, prop, original), for an [original] that is an
    object or null, returns a function that did not exist before, leaves
    every existing object and restrictMap as they are, and gives the new
    function the prototype [original]. The new function comes from a function
    expression, so it has an own prototype property and isConstructor accepts
    it, whatever [original] is. *)
Theorem validateInterface_makes_guard st iface name original :
  match original with VObj _ | VNull => True | _ => False end ->
  exists t,
    let g := VObj (length (st_heap st)) in
    let st' := with_heap st (st_heap st ++ t) in
    validateInterface R iface name original st = (Ok g, st')
    /\ call_kind (st_heap st') g = Some (Guard iface name original)
    /\ proto_of (st_heap st') g = Some original
    /\ isConstructor g st' = (Ok true, st').
Proof.
  intros H. eexists. cbv zeta. split; [now apply validateInterface_eq_st |].
  cbn [st_heap with_heap]. split; [| split].
  - unfold call_kind. now rewrite list_lookup_middle.
  - unfold proto_of. now rewrite list_lookup_middle.
  - rewrite isConstructor_eq. cbn [st_heap with_heap].
    unfold is_callable, own_prototype_slot.
    rewrite list_lookup_middle by reflexivity. reflexivity.
Qed.

(** A guard stands in for the function it wraps when a property is read from
    it: apart from the keys that a function expression owns (length, name and
    prototype, and on some hosts arguments and caller), every property of the
    original function is found through the guard's prototype chain. *)
Theorem guard_inherits_properties fuel st iface name o k x :
  plain_read R (st_heap st) (VObj o) k = Some x ->
  k <> KStr "length" -> k <> KStr "name" -> k <> KStr "prototype" ->
  k <> KStr "arguments" -> k <> KStr "caller" ->
  exists g st',
    validateInterface R iface name (VObj o) st = (Ok g, st')
    /\ Get host_call R fuel g k st' = (Ok x, st').
Proof.
  intros Hread Hl Hn Hp _ _. eexists _, _.
  split; [now apply validateInterface_eq_st |].
  apply Get_plain_st. cbn [st_heap with_heap].
  unfold plain_read, find_prop in *.
  rewrite length_app. cbn [length]. cbn [lookup_chain].
  rewrite list_lookup_middle by reflexivity. unfold guard_cell.
  cbn [o_props o_proto own]. rewrite !decide_False by congruence.
  destruct (lookup_chain (S (length (st_heap st))) (st_heap st) (VObj o) k)
    as [r | |] eqn:E; try discriminate.
  rewrite (lookup_chain_mono _ _ _ _ _ r _ E); [exact Hread | lia |].
  apply objects_kept_app.
Qed.

(** A guard made for the constructor [c] forwards to the original when the
    receiver is an object whose prototype is [c.prototype], and throws its
    TypeError when the receiver is an object without a prototype. [c] finds
    the built-in Function.prototype[Symbol.hasInstance], the original function
    finds the built-in Function.prototype.apply, and the prototype and name
    properties of [c] are read without running user code. *)
Theorem guard_accepts_instances fuel st g c oc b ob a p name original args :
  call_kind (st_heap st) g = Some (Guard (VObj c) name original) ->
  st_heap st !! c = Some (CObj oc) ->
  o_call oc <> NotCallable ->
  plain_read R (st_heap st) (VObj c) (KSym Symbol_hasInstance) = Some (VObj b) ->
  st_heap st !! b = Some (CObj ob) ->
  o_call ob = BuiltinHasInstance ->
  plain_read R (st_heap st) (VObj c) (KStr "prototype") = Some (VObj p) ->
  plain_read R (st_heap st) original (KStr "apply") = Some a ->
  call_kind (st_heap st) a = Some BuiltinApply ->
  (forall x ox,
      st_heap st !! x = Some (CObj ox) ->
      o_proto ox = VObj p ->
      call host_call R (S (S fuel)) g (VObj x) args st
      = call host_call R (S fuel) original (VObj x) args st)
  /\ (forall x ox s nm sn,
        st_heap st !! x = Some (CObj ox) ->
        o_proto ox = VNull ->
        name = VStr s ->
        plain_read R (st_heap st) (VObj c) (KStr "name") = Some nm ->
        to_string nm = Ok sn ->
        call host_call R (S (S fuel)) g (VObj x) args st
        = (Throw (TypeError
             (((("'" +:+ s)
                +:+ "' called on an object that does not implement interface ")
               +:+ sn) +:+ ".")), st)).
Proof.
  intros Hkind Hc Hcall Hhas Hb Hob Hproto Happly Hkinda.
  assert (Hguard : forall this,
             call host_call R (S (S fuel)) g this args st
             = guard_body R (call host_call R (S fuel))
                 (VObj c) name original this args st).
  { intros this. destruct g as [| | | | | | l]; try discriminate.
    simpl in Hkind. cbn [call]. unfold call_body at 1.
    rewrite (bind_Ok _ _ _ _ _ (get_heap_eq st)).
    destruct (st_heap st !! l) as [[o | |] |]; try discriminate.
    injection Hkind as ->. reflexivity. }
  assert (Hcallable : is_callable (st_heap st) (VObj c) = true).
  { simpl. rewrite Hc. simpl. destruct (o_call oc); congruence. }
  assert (Hinst : forall this r st1,
             OrdinaryHasInstance_with R (call host_call R fuel) (VObj c) this st
             = (Ok r, st1) ->
             instanceof host_call R (S fuel) this (VObj c) st = (Ok r, st1)).
  { intros this r st1 Hord. unfold instanceof, instanceof_with.
    fold (Get host_call R (S fuel)).
    rewrite (bind_Ok _ _ _ _ _
               (Get_plain_st host_call R (S fuel) st _ _ _ Hhas)).
    rewrite (bind_Ok _ _ _ _ _ (get_heap_eq st)).
    assert (Hbc : is_callable (st_heap st) (VObj b) = true).
    { simpl. rewrite Hb. simpl. now rewrite Hob. }
    rewrite Hbc.
    assert (Hh : call host_call R (S fuel) (VObj b) (VObj c) [this] st
                 = (Ok (VBool r), st1)).
    { cbn [call]. unfold call_body.
      rewrite (bind_Ok _ _ _ _ _ (get_heap_eq st)). rewrite Hb, Hob.
      change (default VUndef ([this] !! 0%nat)) with this.
      now rewrite (bind_Ok _ _ _ _ _ Hord). }
    now rewrite (bind_Ok _ _ _ _ _ Hh). }
  split.
  - intros x ox Hx Hox. rewrite Hguard. unfold guard_body.
    fold (instanceof host_call R (S fuel)).
    assert (Hord : OrdinaryHasInstance_with R (call host_call R fuel)
                     (VObj c) (VObj x) st = (Ok true, st)).
    { unfold OrdinaryHasInstance_with.
      rewrite (bind_Ok _ _ _ _ _ (get_heap_eq st)). rewrite Hcallable.
      cbn [negb]. fold (Get host_call R fuel).
      rewrite (bind_Ok _ _ _ _ _ (Get_plain_st host_call R fuel st _ _ _ Hproto)).
      rewrite (bind_Ok _ _ _ _ _ (get_heap_eq st)).
      cbn [proto_reaches]. rewrite Hx, Hox. unfold same_value.
      rewrite bool_decide_eq_true_2 by reflexivity. reflexivity. }
    assert (Hi : instanceof host_call R (S fuel) (VObj x) (VObj c) st
                 = (Ok true, st)).
    { now apply Hinst. }
    rewrite (bind_Ok _ _ _ _ _ Hi). fold (Get host_call R (S fuel)).
    rewrite (bind_Ok _ _ _ _ _
               (Get_plain_st host_call R (S fuel) st _ _ _ Happly)).
    rewrite (bind_Ok _ _ _ _ _ (get_heap_eq st)).
    now rewrite (function_kind_of_call_kind _ _ _ Hkinda).
  - intros x ox s nm sn Hx Hox -> Hname Hsn. rewrite Hguard. unfold guard_body.
    fold (instanceof host_call R (S fuel)).
    assert (Hord : OrdinaryHasInstance_with R (call host_call R fuel)
                     (VObj c) (VObj x) st = (Ok false, st)).
    { unfold OrdinaryHasInstance_with.
      rewrite (bind_Ok _ _ _ _ _ (get_heap_eq st)). rewrite Hcallable.
      cbn [negb]. fold (Get host_call R fuel).
      rewrite (bind_Ok _ _ _ _ _ (Get_plain_st host_call R fuel st _ _ _ Hproto)).
      rewrite (bind_Ok _ _ _ _ _ (get_heap_eq st)).
      cbn [proto_reaches]. rewrite Hx, Hox. reflexivity. }
    assert (Hi : instanceof host_call R (S fuel) (VObj x) (VObj c) st
                 = (Ok false, st)).
    { now apply Hinst. }
    rewrite (bind_Ok _ _ _ _ _ Hi).
    change (string_concat "'" (VStr s)) with (Ok (A := string) ("'" +:+ s)).
    rewrite bind_lift_Ok. fold (Get host_call R (S fuel)).
    rewrite (bind_Ok _ _ _ _ _
               (Get_plain_st host_call R (S fuel) st _ _ _ Hname)).
    unfold string_concat. rewrite Hsn. rewrite bind_lift_Ok. reflexivity.
Qed.

End Guards.

(** ** The keys that restrict leaves out *)

Lemma index_from_spec l :
  forall i x,
    (0 <= i)%Z ->
    ((0 <=? index_from i l x)%Z = true <-> x ∈ l).
Proof.
  induction l as [| y l IH]; intros i x Hi; cbn [index_from].
  - split; [discriminate | intros H; inversion H].
  - unfold strict_equal. destruct (decide (y = x)) as [-> | Hne].
    + rewrite bool_decide_eq_true_2 by reflexivity. split.
      * intros _. apply elem_of_cons. now left.
      * intros _. now apply Z.leb_le.
    + rewrite bool_decide_eq_false_2 by exact Hne.
      rewrite (IH (i + 1)%Z x) by lia. split.
      * intros H. apply elem_of_cons. now right.
      * intros H. apply elem_of_cons in H as [-> | H]; [congruence | exact H].
Qed.

(** The test [indexOf.call(exceptFor, prop) >= 0] of restrictProperties holds
    exactly when an exclude list was given and the key itself, a string or a
    symbol, is one of its elements: the comparison is strict equality, so a
    number in the list matches no key. *)
Theorem indexOf_call_finds_listed_keys exceptFor k :
  ((0 <=? indexOf_call exceptFor k)%Z = true
   <-> exists l, exceptFor = Some l /\ value_of_key k ∈ l)
  /\ (forall l, exceptFor = Some l ->
                Forall (fun v => exists z, v = VNum z) l ->
                indexOf_call exceptFor k = (-1)%Z).
Proof.
  split.
  - destruct exceptFor as [l |]; cbn [indexOf_call].
    + rewrite index_from_spec by lia. split; [eauto |].
      intros (l' & [= <-] & H). exact H.
    + split; [discriminate | intros (l' & [=] & _)].
  - intros l -> Hall. cbn [indexOf_call]. generalize 0%Z.
    induction Hall as [| y l (z & ->) _ IH]; intros i; cbn [index_from];
      [reflexivity |].
    unfold strict_equal. rewrite bool_decide_eq_false_2; [apply IH |].
    destruct k; discriminate.
Qed.

(** ** restrict called with an options object *)

Section Decorator.

Variable host_call : nat -> heap -> value -> list value -> outcome value * heap.
Variable R : realm.

(** When the first argument of restrict is an options object, the second
    argument is ignored and nothing is read or written; applying the returned
    function to a constructor is the call of restrict on that constructor
    with the options. *)
Theorem decorator_call_as_restrict fuel st options iface ignored :
  typeof_arg (st_heap st) options = "object" ->
  constructor_like (st_heap st) iface = true ->
  restrict host_call R fuel options ignored st = (Ok (Decorator options), st)
  /\ decorator_call host_call R fuel options iface st
     = restrict host_call R fuel (AVal iface) options st.
Proof.
  intros Hty Hc. split.
  - unfold restrict. rewrite (bind_Ok _ _ _ _ _ (get_heap_eq st)).
    now rewrite bool_decide_eq_true_2.
  - unfold decorator_call.
    assert (Hv : verifyIsConstructor iface VUndef st = (Ok iface, st)).
    { rewrite verifyIsConstructor_eq. now rewrite Hc. }
    now rewrite (bind_Ok _ _ _ _ _ Hv).
Qed.

End Decorator.

(** ** The iterator of propertiesOf over an object that changes *)

Lemma own_filter_other (ps : list (key * property)) k :
  own (filter (fun kp => fst kp <> k) ps) k = None.
Proof.
  induction ps as [| [k' d] ps IH]; [reflexivity |].
  destruct (decide (k' = k)) as [-> | Hne].
  - rewrite filter_cons_False by (cbn; congruence). exact IH.
  - rewrite filter_cons_True by exact Hne. cbn [own].
    now rewrite decide_False.
Qed.

Section Iterating.

Variable R : realm.

(** propertiesOf takes the keys of an object when it is called and reads each
    descriptor only when the key is reached: it allocates its result object
    and the array without touching an existing object, and when an own
    configurable property [k] is deleted before the iterator is consumed, the
    consumer still gets one pair for every key taken at the start, the pair
    of [k] with the descriptor undefined. *)
Theorem propertiesOf_reads_descriptors_late st l o k d n :
  st_heap st !! l = Some (CObj o) ->
  own (o_props o) k = Some d ->
  p_configurable d = true ->
  (S (length (o_props o)) <= n)%nat ->
  exists it st2 st3,
    let st1 := with_heap st (st_heap st ++
                 [CArray [] false; CResult false (length (st_heap st))]) in
    let keys := own_names (o_props o) ++ own_symbols (o_props o) in
    let left := filter (fun kp => fst kp <> k) (o_props o) in
    propertiesOf R (VObj l) st = (Ok it, st1)
    /\ delete_property (VObj l) k st1 = (Ok true, st2)
    /\ property_of (st_heap st2) l k = None
    /\ drain n it st2 = (Ok (pairs_of left keys), st3)
    /\ (SKey k, SDesc None) ∈ pairs_of left keys.
Proof.
  intros Hl Hk Hconf Hn. destruct st as [h reg]. cbn [st_heap] in *.
  set (st := {| st_heap := h; st_restrictMap := reg |}).
  destruct (propertiesOf_eq R st h (VObj l) (o_props o))
    as (it & t & Hprops & Hnames & Hidx & _ & _ & _ & Hsame).
  { simpl. now rewrite Hl. }
  destruct (Hsame l eq_refl) as (Ho & -> & Hres).
  set (h1 := h ++ [CArray [] false; CResult false (length h)]) in *.
  set (o' := {| o_props := filter (fun kp => fst kp <> k) (o_props o);
                o_proto := o_proto o;
                o_extensible := o_extensible o;
                o_call := o_call o |}).
  assert (Hlt : (l < length h)%nat) by (eapply lookup_lt_Some; eauto).
  assert (Hl1 : h1 !! l = Some (CObj o)).
  { subst h1. now apply lookup_app_l_Some. }
  assert (Hdel : delete_property (VObj l) k (with_heap st h1)
                 = (Ok true, with_heap st (<[l := CObj o']> h1))).
  { unfold delete_property. rewrite (bind_Ok _ _ _ _ _ (get_heap_eq _)).
    change (st_heap (with_heap st h1)) with h1. rewrite Hl1, Hk, Hconf.
    rewrite (bind_Ok _ _ _ _ _ (store_eq _ _ _)). reflexivity. }
  set (h2 := <[l := CObj o']> h1) in *.
  assert (Hl2 : h2 !! l = Some (CObj o')).
  { subst h2. rewrite list_lookup_insert_eq; [reflexivity |].
    eapply lookup_lt_Some; eauto. }
  assert (Hcells : iter_cells h2 it (length h) [] false false).
  { unfold iter_cells. rewrite Hres. subst h2 h1. split.
    - rewrite list_lookup_insert_ne by lia.
      rewrite lookup_app_r by lia.
      replace (S (length h) - length h)%nat with 1%nat by lia. reflexivity.
    - rewrite list_lookup_insert_ne by lia.
      rewrite lookup_app_r by lia.
      replace (length h - length h)%nat with 0%nat by lia. reflexivity. }
  assert (Hlen : length (it_names it) = length (o_props o)).
  { rewrite Hnames. unfold own_names, own_symbols.
    rewrite <- (length_map fst (o_props o)).
    generalize (map fst (o_props o)). intros ks.
    induction ks as [| [s | m] ks IH]; [reflexivity | |].
    - rewrite filter_cons_True by reflexivity.
      rewrite filter_cons_False by (cbn; congruence). cbn. now rewrite IH.
    - rewrite filter_cons_False by (cbn; congruence).
      rewrite filter_cons_True by reflexivity.
      rewrite length_app in *. cbn. lia. }
  destruct (drain_eq st (it_names it) h2 it (length h) []
              (o_props o') n Hcells)
    as (h3 & it3 & Hdrain & _).
  { rewrite Ho. simpl. now rewrite Hl2. }
  { now rewrite Hidx. }
  { lia. }
  exists it, (with_heap st h2), (with_heap st h3). cbv zeta.
  split; [exact Hprops |]. split; [exact Hdel |]. split; [| split].
  - unfold property_of. cbn [st_heap with_heap]. rewrite Hl2.
    apply own_filter_other.
  - rewrite <- Hnames. exact Hdrain.
  - unfold pairs_of. apply (list_elem_of_fmap (B := slot * slot)). exists k. split.
    + now rewrite own_filter_other.
    + apply names_cover. eapply own_Some_key; eauto.
Qed.

End Iterating.

(** ** sealed, again *)

Section SealedAgain.

Variable host_call : nat -> heap -> value -> list value -> outcome value * heap.
Variable R : realm.

(** sealed is idempotent: a second call on the same constructor succeeds and
    changes nothing. *)
Theorem sealed_idempotent fuel st c p oc op w e cf :
  st_heap st !! c = Some (CObj oc) ->
  o_call oc <> NotCallable ->
  own (o_props oc) (KStr "prototype") = Some (PData (VObj p) w e cf) ->
  st_heap st !! p = Some (CObj op) ->
  exists st1,
    sealed host_call R fuel (VObj c) st = (Ok (VObj c), st1)
    /\ sealed host_call R fuel (VObj c) st1 = (Ok (VObj c), st1).
Proof.
  intros Hc Hcall Hproto Hp.
  destruct (sealed_eq host_call R fuel st c p oc op w e cf Hc Hcall Hproto Hp)
    as (h1 & Hrun & Hlen & Hc1 & Hp1 & Hframe).
  exists (with_heap st h1). split; [exact Hrun |].
  destruct (sealed_eq host_call R fuel (with_heap st h1) c p
              (seal_object oc) (seal_object op) w e false Hc1 Hcall)
    as (h2 & Hrun2 & Hlen2 & Hc2 & Hp2 & Hframe2).
  { cbn [seal_object o_props]. now rewrite own_map_seal, Hproto. }
  { exact Hp1. }
  rewrite Hrun2. f_equal. unfold with_heap. cbn [st_heap st_restrictMap].
  f_equal. apply list_eq. intros i.
  rewrite seal_object_idem in Hc2, Hp2.
  destruct (decide (i = c)) as [-> | Hic]; [congruence |].
  destruct (decide (i = p)) as [-> | Hip]; [congruence |].
  now apply Hframe2.
Qed.

(** When the prototype property of the constructor holds a primitive,
    Object.seal returns it as it is: sealed seals the constructor alone and
    does not throw. *)
Theorem sealed_primitive_prototype fuel st c oc v w e cf :
  st_heap st !! c = Some (CObj oc) ->
  o_call oc <> NotCallable ->
  own (o_props oc) (KStr "prototype") = Some (PData v w e cf) ->
  match v with VObj _ => False | _ => True end ->
  sealed host_call R fuel (VObj c) st
  = (Ok (VObj c),
     with_heap st (<[c := CObj (seal_object oc)]> (st_heap st))).
Proof.
  intros Hc Hcall Hproto Hv. unfold sealed.
  assert (Hcl : constructor_like (st_heap st) (VObj c) = true).
  { unfold constructor_like, own_prototype_slot. simpl. rewrite Hc. simpl.
    rewrite Hproto. destruct (o_call oc); try congruence; reflexivity. }
  assert (Hver := verifyIsConstructor_eq (VObj c) st). rewrite Hcl in Hver.
  rewrite (bind_Ok _ _ _ _ _ Hver).
  rewrite (bind_Ok _ _ _ _ _ (seal_eq st _ _ Hc)).
  set (h1 := <[c := CObj (seal_object oc)]> (st_heap st)).
  assert (Hc1 : h1 !! c = Some (CObj (seal_object oc))).
  { subst h1. rewrite list_lookup_insert_eq; [reflexivity |].
    eapply lookup_lt_Some; eauto. }
  assert (Hread : plain_read R h1 (VObj c) (KStr "prototype") = Some v).
  { unfold plain_read, find_prop. simpl. rewrite Hc1. simpl.
    rewrite own_map_seal, Hproto. reflexivity. }
  rewrite (bind_Ok _ _ _ _ _ (Get_plain host_call R fuel st h1 _ _ _ Hread)).
  destruct v; try contradiction; reflexivity.
Qed.

End SealedAgain.

(** ** restrict: what it leaves alone, and when it throws *)

Lemma bind_Throw {A B} (m : M A) (k : A -> M B) st e st1 :
  m st = (Throw e, st1) -> bind m k st = (Throw e, st1).
Proof. intros H. unfold bind. now rewrite H. Qed.

(** The value that a plain lookup ends in, as in [plain_read]. *)
Lemma plain_read_cases R (h : heap) v k :
  plain_read R h v k
  = match find_prop R h v k with
    | Ok None => Some VUndef
    | Ok (Some (PData x _ _ _)) => Some x
    | Ok (Some (PAccessor VUndef _ _ _)) => Some VUndef
    | _ => None
    end.
Proof. reflexivity. Qed.

Lemma own_string_index_props s k :
  forall i, own (string_index_props i s) (KSym k) = None.
Proof.
  induction s as [| a s IH]; intros i; [reflexivity |].
  cbn [string_index_props own]. rewrite decide_False by discriminate.
  apply IH.
Qed.

Lemma own_app_None (l1 l2 : list (key * property)) k :
  own l1 k = None -> own (l1 ++ l2) k = own l2 k.
Proof.
  induction l1 as [| [k' d] l1 IH]; [reflexivity |]. cbn [own app].
  destruct (decide (k' = k)); [discriminate | exact IH].
Qed.

Lemma own_string_props_symbol s k : own (string_props s) (KSym k) = None.
Proof.
  unfold string_props. rewrite own_app_None by apply own_string_index_props.
  cbn [own]. now rewrite decide_False by discriminate.
Qed.

(** Sealing objects changes no value that a plain lookup returns. *)
Lemma lookup_chain_sealed (h h1 : heap) k :
  (forall x, h1 !! x = h !! x
             \/ exists o, h !! x = Some (CObj o)
                          /\ h1 !! x = Some (CObj (seal_object o))) ->
  forall m v,
    match lookup_chain m h v k with
    | Ok r => lookup_chain m h1 v k = Ok (seal_prop <$> r)
              \/ lookup_chain m h1 v k = Ok r
    | Throw e => lookup_chain m h1 v k = Throw e
    | Stuck => lookup_chain m h1 v k = Stuck
    end.
Proof.
  intros Hrel. induction m as [| m IH]; intros v; [reflexivity |].
  cbn [lookup_chain]. destruct v as [| | | | | | x]; try reflexivity.
  - now right.
  - destruct (Hrel x) as [-> | (o & Ho & ->)].
    + destruct (h !! x) as [[o | |] |]; try reflexivity.
      destruct (own (o_props o) k); [now right | apply IH].
    + rewrite Ho. cbn [seal_object o_props o_proto]. rewrite own_map_seal.
      destruct (own (o_props o) k); [now left | apply IH].
Qed.

Lemma plain_read_sealed R (h h1 : heap) v k x :
  length h1 = length h ->
  (forall y, h1 !! y = h !! y
             \/ exists o, h !! y = Some (CObj o)
                          /\ h1 !! y = Some (CObj (seal_object o))) ->
  plain_read R h v k = Some x ->
  plain_read R h1 v k = Some x.
Proof.
  intros Hlen Hrel. rewrite !plain_read_cases. unfold find_prop. rewrite Hlen.
  assert (Hchain : forall u,
    match lookup_chain (S (length h)) h u k with
    | Ok None => Some VUndef
    | Ok (Some (PData x _ _ _)) => Some x
    | Ok (Some (PAccessor VUndef _ _ _)) => Some VUndef
    | _ => None
    end = Some x ->
    match lookup_chain (S (length h)) h1 u k with
    | Ok None => Some VUndef
    | Ok (Some (PData x _ _ _)) => Some x
    | Ok (Some (PAccessor VUndef _ _ _)) => Some VUndef
    | _ => None
    end = Some x).
  { intros u. pose proof (lookup_chain_sealed h h1 k Hrel (S (length h)) u) as H.
    destruct (lookup_chain (S (length h)) h u k) as [r | |]; try discriminate.
    destruct H as [-> | ->]; [| exact id].
    destruct r as [[? ? ? ? | g ? ? ?] |]; exact id. }
  destruct v; try exact id; try apply Hchain.
  destruct (own (string_props s) k); [exact id | apply Hchain].
Qed.

Section RestrictEdges.

Variable host_call : nat -> heap -> value -> list value -> outcome value * heap.
Variable R : realm.

(** restrict up to the test for an own type tag on the value of
    [iface.prototype]. *)
Ltac restrict_prefix Hc Hcall Hproto Hreg :=
  unfold restrict;
  rewrite (bind_Ok _ _ _ _ _ (get_heap_eq _));
  match goal with
  | |- context [typeof_arg ?h (AVal (VObj ?c))] =>
      let Hcb := fresh "Hcallable" in
      assert (Hcb : is_callable h (VObj c) = true)
        by (simpl; rewrite Hc; simpl;
            match goal with |- context [o_call ?o] =>
              destruct (o_call o); congruence end);
      replace (typeof_arg h (AVal (VObj c))) with "function"
        by (simpl; change (is_callable_cell (h !! c))
                     with (is_callable h (VObj c)); now rewrite Hcb);
      rewrite bool_decide_eq_false_2 by discriminate;
      let Hk := fresh "Hknown" in
      assert (Hk : forall s, st_heap s = h ->
                             VObj c ∉ st_restrictMap s ->
                             restrictMap_has (VObj c) s = (Ok false, s))
        by (intros s _ Hs; unfold restrictMap_has;
            now rewrite bool_decide_eq_false_2);
      rewrite (bind_Ok _ _ _ _ _ (Hk _ eq_refl Hreg));
      let Hv := fresh "Hverify" in
      assert (Hv : forall s, st_heap s = h ->
                             verifyIsConstructor (VObj c) VUndef s
                             = (Ok (VObj c), s))
        by (intros s Hs; rewrite verifyIsConstructor_eq, Hs;
            unfold constructor_like; rewrite Hcb;
            unfold own_prototype_slot; rewrite Hc, Hproto; reflexivity);
      rewrite (bind_Ok _ _ _ _ _ (Hv _ eq_refl))
  end.

(** restrict on a prototype that lacks the type tag and refuses new
    properties: the definition of the tag fails. *)
Lemma restrict_sealed_prototype_eq fuel st c oc p op w e cf exceptFor E n :
  st_heap st !! c = Some (CObj oc) ->
  o_call oc <> NotCallable ->
  own (o_props oc) (KStr "prototype") = Some (PData (VObj p) w e cf) ->
  st_heap st !! p = Some (CObj op) ->
  VObj c ∉ st_restrictMap st ->
  options_of exceptFor = Ok E ->
  tag_source R (st_heap st) c E = Some n ->
  own (o_props op) tag_key = None ->
  o_extensible op = false ->
  restrict host_call R fuel (AVal (VObj c)) exceptFor st
  = (Throw (TypeError host_msg_cannot_define), st).
Proof.
  intros Hc Hcall Hproto Hp Hreg HE Htag Hown Hext.
  restrict_prefix Hc Hcall Hproto Hreg.
  assert (Hgetp : plain_read R (st_heap st) (VObj c) (KStr "prototype")
                  = Some (VObj p)).
  { unfold plain_read, find_prop. simpl. now rewrite Hc, Hproto. }
  rewrite (bind_Ok _ _ _ _ _ (Get_plain_st host_call R fuel st _ _ _ Hgetp)).
  rewrite (bind_Ok _ _ _ _ _ (hasOwn_eq st p op _ Hp)).
  fold tag_key. rewrite Hown.
  rewrite bool_decide_eq_false_2 by (intros [x Hx]; discriminate).
  cbn [negb]. apply bind_Throw. unfold read_options. rewrite HE.
  rewrite bind_lift_Ok.
  assert (Hval : (match opt_name E with
                  | Some n0 => ret n0
                  | None => Get host_call R fuel (VObj c) (KStr "name")
                  end) st = (Ok n, st)).
  { unfold tag_source in Htag. destruct (opt_name E).
    - now injection Htag as ->.
    - now apply Get_plain_st. }
  rewrite (bind_Ok _ _ _ _ _ Hval).
  unfold defineProperty.
  change (is_accessor_desc _ && is_data_desc _) with false. cbv iota.
  rewrite (bind_Ok _ _ _ _ _ (get_heap_eq _)).
  rewrite Hp. unfold validate_and_apply. fold tag_key. rewrite Hown, Hext.
  reflexivity.
Qed.

(** restrict needs a prototype object that can take a new property: when the
    prototype has no own type tag and is not extensible (sealed, frozen or
    after Object.preventExtensions), defining the tag is the first write, it
    fails, and restrict throws the host's TypeError with nothing changed. *)
Theorem restrict_needs_extensible_prototype fuel st c oc p op w e cf
        exceptFor E n :
  st_heap st !! c = Some (CObj oc) ->
  o_call oc <> NotCallable ->
  own (o_props oc) (KStr "prototype") = Some (PData (VObj p) w e cf) ->
  st_heap st !! p = Some (CObj op) ->
  VObj c ∉ st_restrictMap st ->
  options_of exceptFor = Ok E ->
  tag_source R (st_heap st) c E = Some n ->
  own (o_props op) tag_key = None ->
  o_extensible op = false ->
  restrict host_call R fuel (AVal (VObj c)) exceptFor st
  = (Throw (TypeError host_msg_cannot_define), st).
Proof. apply restrict_sealed_prototype_eq. Qed.

(** The two functions of the library do not commute: after sealed(C), a
    restrict(C) that has to add the type tag throws, so a class that is to be
    both must be restricted first. *)
Theorem sealed_then_restrict_throws fuel st c oc p op w e cf exceptFor E n :
  st_heap st !! c = Some (CObj oc) ->
  o_call oc <> NotCallable ->
  own (o_props oc) (KStr "prototype") = Some (PData (VObj p) w e cf) ->
  st_heap st !! p = Some (CObj op) ->
  VObj c ∉ st_restrictMap st ->
  options_of exceptFor = Ok E ->
  tag_source R (st_heap st) c E = Some n ->
  own (o_props op) tag_key = None ->
  exists st1,
    sealed host_call R fuel (VObj c) st = (Ok (VObj c), st1)
    /\ restrict host_call R fuel (AVal (VObj c)) exceptFor st1
       = (Throw (TypeError host_msg_cannot_define), st1).
Proof.
  intros Hc Hcall Hproto Hp Hreg HE Htag Hown.
  destruct (sealed_eq host_call R fuel st c p oc op w e cf Hc Hcall Hproto Hp)
    as (h1 & Hrun & Hlen & Hc1 & Hp1 & Hframe).
  exists (with_heap st h1). split; [exact Hrun |].
  apply (restrict_sealed_prototype_eq fuel (with_heap st h1) c (seal_object oc)
           p (seal_object op) w e false exceptFor E n); try assumption.
  - cbn [seal_object o_props]. now rewrite own_map_seal, Hproto.
  - unfold tag_source in *. destruct (opt_name E); [exact Htag |].
    cbn [st_heap with_heap].
    apply (plain_read_sealed R (st_heap st) h1); [exact Hlen | | exact Htag].
    intros y. destruct (decide (y = c)) as [-> | Hyc]; [right; eauto |].
    destruct (decide (y = p)) as [-> | Hyp]; [right; eauto |].
    left. now apply Hframe.
  - cbn [seal_object o_props]. now rewrite own_map_seal, Hown.
  - reflexivity.
Qed.

(** When the prototype property of the constructor holds a primitive,
    restrict throws a TypeError and changes nothing: on null or undefined the
    test for an own type tag throws, on any other primitive the definition of
    the type tag does. *)
Theorem restrict_rejects_primitive_prototype fuel st c oc v w e cf
        exceptFor E n :
  st_heap st !! c = Some (CObj oc) ->
  o_call oc <> NotCallable ->
  own (o_props oc) (KStr "prototype") = Some (PData v w e cf) ->
  VObj c ∉ st_restrictMap st ->
  match v with
  | VObj _ => False
  | VUndef | VNull => True
  | _ => options_of exceptFor = Ok E
         /\ tag_source R (st_heap st) c E = Some n
  end ->
  restrict host_call R fuel (AVal (VObj c)) exceptFor st
  = (Throw (TypeError match v with
                      | VUndef | VNull => host_msg_nullish
                      | _ => host_msg_not_object
                      end), st).
Proof.
  intros Hc Hcall Hproto Hreg Hv.
  restrict_prefix Hc Hcall Hproto Hreg.
  assert (Hgetp : plain_read R (st_heap st) (VObj c) (KStr "prototype") = Some v).
  { unfold plain_read, find_prop. simpl. now rewrite Hc, Hproto. }
  rewrite (bind_Ok _ _ _ _ _ (Get_plain_st host_call R fuel st _ _ _ Hgetp)).
  assert (Hrest : forall (Hv' : options_of exceptFor = Ok E
                                /\ tag_source R (st_heap st) c E = Some n),
             hasOwn v tag_key st = (Ok false, st) ->
             match v with VObj _ => False | _ => True end ->
             (let* tagged := hasOwn v (KSym Symbol_toStringTag) in
              let* _ :=
                if negb tagged then
                  let* opts := read_options exceptFor in
                  let* v0 :=
                    match opt_name opts with
                    | Some n0 => ret n0
                    | None => Get host_call R fuel (VObj c) (KStr "name")
                    end in
                  defineProperty v (KSym Symbol_toStringTag)
                    {| d_value := Some v0; d_writable := None; d_get := None;
                       d_set := None; d_enumerable := None;
                       d_configurable := None |}
                else ret v in
              let* opts := read_options exceptFor in
              let* _ := restrictProperties host_call R fuel v false
                          (opt_exclude opts) in
              let* opts0 := read_options exceptFor in
              let* v0 := restrictProperties host_call R fuel (VObj c) true
                           (opt_excludeStatic opts0) in
              ret (Returned v0)) st
             = (Throw (TypeError host_msg_not_object), st)).
  { intros [HE Htag] Hhas Hprim. fold tag_key.
    rewrite (bind_Ok _ _ _ _ _ Hhas). cbn [negb].
    apply bind_Throw. unfold read_options. rewrite HE. rewrite bind_lift_Ok.
    assert (Hval : (match opt_name E with
                    | Some n0 => ret n0
                    | None => Get host_call R fuel (VObj c) (KStr "name")
                    end) st = (Ok n, st)).
    { unfold tag_source in Htag. destruct (opt_name E).
      - now injection Htag as ->.
      - now apply Get_plain_st. }
    rewrite (bind_Ok _ _ _ _ _ Hval).
    destruct v; try reflexivity. contradiction. }
  destruct v as [| | b | z | s | m | x]; try contradiction;
    try reflexivity; apply Hrest; try exact Hv; try exact I;
    unfold hasOwn, hasOwnProperty;
    rewrite (bind_Ok _ _ _ _ _ (get_heap_eq _)); try reflexivity.
  cbn [own_props map_outcome]. unfold tag_key.
  now rewrite own_string_props_symbol.
Qed.

(** A completed restrict changes no existing object other than the
    constructor and its prototype. Both keep their prototype, their calling
    behaviour and their extensibility (restrict does not seal), and their
    keys in the same order; the only key that is new is the type tag, added
    at the end of the prototype's keys when it had none. *)
Theorem restrict_changes_only_the_class fuel st c oc p op w e cf exceptFor E
        iface n res st' :
  st_heap st !! c = Some (CObj oc) ->
  o_call oc <> NotCallable ->
  own (o_props oc) (KStr "prototype") = Some (PData (VObj p) w e cf) ->
  st_heap st !! p = Some (CObj op) ->
  p <> c ->
  VObj c ∉ st_restrictMap st ->
  options_of exceptFor = Ok E ->
  plain_read R (st_heap st) (VObj p) (KStr "constructor") = Some iface ->
  (own (o_props op) tag_key = None -> tag_source R (st_heap st) c E = Some n) ->
  restrict host_call R fuel (AVal (VObj c)) exceptFor st = (Ok res, st') ->
  res = Returned (VObj c)
  /\ (forall x, (x < length (st_heap st))%nat -> x <> p -> x <> c ->
                st_heap st' !! x = st_heap st !! x)
  /\ exists op' oc',
       st_heap st' !! p = Some (CObj op')
       /\ st_heap st' !! c = Some (CObj oc')
       /\ o_proto op' = o_proto op /\ o_extensible op' = o_extensible op
       /\ o_call op' = o_call op
       /\ o_proto oc' = o_proto oc /\ o_extensible oc' = o_extensible oc
       /\ o_call oc' = o_call oc
       /\ map fst (o_props oc') = map fst (o_props oc)
       /\ map fst (o_props op')
          = map fst (o_props op)
            ++ match own (o_props op) tag_key with
               | Some _ => []
               | None => [tag_key]
               end.
Proof.
  intros Hc Hcall Hproto Hp Hne Hreg HE Hread Htag Hrun.
  rewrite <- (with_heap_same st) in Hrun.
  destruct (restrict_spec host_call R fuel st (st_heap st) c oc p op w e cf
              exceptFor E iface n res st'
              Hc Hcall Hproto Hp Hne Hreg HE Hread Htag Hrun)
    as (op' & oc' & hF & -> & -> & HpF & HcF & Hframe & Hkp & Hkc & _ & _
        & (Hp1 & Hp2 & Hp3) & (Hc1 & Hc2 & Hc3)).
  split; [reflexivity |]. split; [exact Hframe |].
  exists op', oc'. cbn [st_heap with_heap].
  repeat (split; [assumption |]). rewrite Hkp. unfold with_tag.
  destruct (own (o_props op) tag_key) eqn:Hown.
  - now rewrite app_nil_r.
  - cbn [o_props]. now apply own_set_keys_absent.
Qed.

End RestrictEdges.

(** ** restrict: when it completes *)

Section Completing.

Variable host_call : nat -> heap -> value -> list value -> outcome value * heap.
Variable R : realm.

(** Source lines 131-135 and 136-140 on one accessor function. *)
Lemma wrap_accessor_forward fuel st (h : heap) l k f prefix iface :
  plain_read R h (VObj l) (KStr "constructor") = Some iface ->
  function_or_undefined f ->
  exists f' t,
    (if to_boolean f then
       let* iface := Get host_call R fuel (VObj l) (KStr "constructor") in
       let* name := lift_outcome (string_concat prefix (value_of_key k)) in
       validateInterface R iface (VStr name) f
     else ret f) (with_heap st h)
    = (match k with
       | KSym _ => if to_boolean f
                   then Throw (TypeError host_msg_symbol_to_string)
                   else Ok f'
       | KStr _ => Ok f'
       end, with_heap st (h ++ t)).
Proof.
  intros Hread [-> | [x ->]].
  - exists VUndef, []. rewrite app_nil_r. cbn [to_boolean].
    now destruct k.
  - cbn [to_boolean].
    rewrite (bind_Ok _ _ _ _ _ (Get_plain host_call R fuel st h _ _ _ Hread)).
    destruct k as [s | m]; cbn [value_of_key].
    + change (string_concat prefix (VStr s))
        with (Ok (A := string) (prefix +:+ s)).
      rewrite bind_lift_Ok.
      rewrite (validateInterface_eq R st h _ _ (VObj x) I).
      eexists _, _. reflexivity.
    + exists VUndef, []. rewrite app_nil_r. reflexivity.
Qed.

(** Source lines 116-141 on a property that is configurable and not
    excluded: a new descriptor, or the TypeError of the concatenation. *)
Lemma restrict_descriptor_forward fuel st (h1 : heap) l isC exc k d iface :
  (isC = false -> plain_read R h1 (VObj l) (KStr "constructor") = Some iface) ->
  (forall g s e c, d = PAccessor g s e c -> isC = false ->
                   function_or_undefined g /\ function_or_undefined s) ->
  (0 <=? indexOf_call exc k)%Z = false ->
  p_configurable d = true ->
  exists d' t,
    restrict_descriptor host_call R fuel (VObj l) isC k d (with_heap st h1)
    = (if unnameable exc isC k d
       then Throw (TypeError host_msg_symbol_to_string)
       else Ok d', with_heap st (h1 ++ t)).
Proof.
  intros Hread Hwf Hex Hconf. destruct d as [v w e c | g s e c].
  - assert (Hun : unnameable exc isC k (PData v w e c) = false)
      by now destruct k.
    rewrite Hun. unfold restrict_descriptor.
    rewrite (bind_Ok _ _ _ _ _ (get_heap_eq _)). rewrite typeof_function.
    change (st_heap (with_heap st h1)) with h1.
    destruct (negb isC && is_callable h1 v
              && negb (bool_decide (k = KStr "constructor"))) eqn:Hw.
    + assert (HisC : isC = false) by (destruct isC; [discriminate | reflexivity]).
      subst isC. cbn [negb andb] in Hw.
      assert (Hv : exists x, v = VObj x).
      { destruct v; try discriminate. eauto. }
      destruct Hv as [x ->].
      rewrite (bind_Ok _ _ _ _ _
                 (Get_plain host_call R fuel st h1 _ _ _ (Hread eq_refl))).
      rewrite (bind_Ok _ _ _ _ _ (validateInterface_eq R st h1 _ _ (VObj x) I)).
      eexists _, _. reflexivity.
    + exists (PData v false false false), []. now rewrite app_nil_r.
  - unfold restrict_descriptor. destruct isC; cbn [negb]; cbv iota.
    + exists (PAccessor g s false false), []. rewrite app_nil_r.
      now destruct k.
    + destruct (Hwf g s e c eq_refl eq_refl) as [Hg Hs].
      specialize (Hread eq_refl). cbn [p_configurable] in Hconf. subst c.
      destruct (wrap_accessor_forward fuel st h1 l k g "get " iface Hread Hg)
        as (g' & t1 & Hget).
      assert (Hread1 : plain_read R (h1 ++ t1) (VObj l) (KStr "constructor")
                       = Some iface).
      { eapply plain_read_mono; eauto using objects_kept_app.
        rewrite length_app. lia. }
      destruct (wrap_accessor_forward fuel st (h1 ++ t1) l k s "set " iface
                  Hread1 Hs) as (s' & t2 & Hset).
      destruct k as [sk | m].
      * cbn [unnameable].
        rewrite (bind_Ok _ _ _ _ _ Hget). rewrite (bind_Ok _ _ _ _ _ Hset).
        exists (PAccessor g' s' false false), (t1 ++ t2).
        now rewrite app_assoc.
      * cbn [unnameable negb andb]. rewrite Hex. cbn [negb andb].
        destruct (to_boolean g) eqn:Hbg.
        -- cbn [orb]. exists (PAccessor g s false false), t1.
           now apply bind_Throw.
        -- rewrite (bind_Ok _ _ _ _ _ Hget). cbn [orb].
           destruct (to_boolean s) eqn:Hbs.
           ++ exists (PAccessor g s false false), (t1 ++ t2).
              rewrite app_assoc. now apply bind_Throw.
           ++ rewrite (bind_Ok _ _ _ _ _ Hset).
              exists (PAccessor g' s' false false), (t1 ++ t2).
              now rewrite app_assoc.
Qed.

(** The loop of restrictProperties always ends: with the descriptors, or
    with the TypeError of the first property that cannot be named. *)
Lemma restrict_loop_forward fuel st (h0 : heap) l o isC exc iface :
  h0 !! l = Some (CObj o) ->
  (isC = false -> plain_read R h0 (VObj l) (KStr "constructor") = Some iface) ->
  (isC = false -> accessors_wellformed o) ->
  forall rest rounds it sl G ds,
    it_o it = VObj l ->
    it_result it = S (length h0) ->
    drop (it_index it) (it_names it) = rest ->
    (S (length rest) <= rounds)%nat ->
    (forall k, k ∈ rest -> is_Some (own (o_props o) k)) ->
    exists ds_out sl' fr dn G',
      restrict_loop host_call R rounds fuel (VObj l) isC exc it ds
                    (with_heap st (iter_heap h0 sl false false G))
      = (if existsb (fun k => match own (o_props o) k with
                              | Some d => unnameable exc isC k d
                              | None => false
                              end) rest
         then Throw (TypeError host_msg_symbol_to_string)
         else Ok ds_out,
         with_heap st (iter_heap h0 sl' fr dn (G ++ G'))).
Proof.
  intros Hl Hread Hwf.
  induction rest as [| k rest IH];
    intros rounds it sl G ds Ho Hres Hdrop Hrounds Hkeys;
    (destruct rounds as [| rounds]; [cbn in Hrounds; lia |]);
    cbn [restrict_loop].
  - apply drop_nil_inv in Hdrop.
    pose proof (iter_heap_cells h0 sl false false G it Hres) as Hc.
    assert (Hfr : false = true -> sl = []) by discriminate.
    rewrite (bind_Ok _ _ _ _ _
               (next_exhausted st _ it _ sl false false Hc Hfr Hdrop)).
    cbn [snd fst]. rewrite Hres.
    rewrite iter_heap_set_r, iter_heap_set_a.
    rewrite (bind_Ok _ _ _ _ _
               (result_done_eq st _ _ _ _ (iter_heap_r _ _ _ _ _))).
    exists ds, [], true, true, []. now rewrite app_nil_r.
  - apply drop_cons_inv in Hdrop as [Hk Hdrop].
    pose proof (iter_heap_cells h0 sl false false G it Hres) as Hc.
    assert (Hps : own_props (iter_heap h0 sl false false G) (it_o it)
                  = Ok (o_props o)).
    { rewrite Ho. now apply own_props_iter_heap. }
    rewrite (bind_Ok _ _ _ _ _ (next_step st _ it _ sl false k _ Hc Hk Hps)).
    cbn [snd fst]. rewrite iter_heap_set_a. rewrite Hres.
    set (sl1 := [SKey k; SDesc (own (o_props o) k)]).
    rewrite (bind_Ok _ _ _ _ _
               (result_done_eq st _ _ _ _ (iter_heap_r _ _ _ _ _))).
    cbv iota.
    rewrite (bind_Ok _ _ _ _ _
               (result_value_eq st _ _ _ _ (iter_heap_r _ _ _ _ _))).
    rewrite (bind_Ok _ _ _ _ _
               (array_get_eq st _ _ _ _ 0 (iter_heap_a _ _ _ _ _))).
    rewrite (bind_Ok _ _ _ _ _
               (result_value_eq st _ _ _ _ (iter_heap_r _ _ _ _ _))).
    rewrite (bind_Ok _ _ _ _ _
               (array_get_eq st _ _ _ _ 1 (iter_heap_a _ _ _ _ _))).
    change (default SEmpty (sl1 !! 0%nat)) with (SKey k).
    change (default SEmpty (sl1 !! 1%nat)) with (SDesc (own (o_props o) k)).
    cbv iota.
    assert (Hadv : drop (it_index (advance it)) (it_names (advance it)) = rest)
      by exact Hdrop.
    assert (Hrest : forall k0, k0 ∈ rest -> is_Some (own (o_props o) k0)).
    { intros k0 Hin. apply Hkeys. apply elem_of_cons. now right. }
    assert (Hrounds' : (S (length rest) <= rounds)%nat) by (cbn in Hrounds; lia).
    destruct (Hkeys k) as [d Hd]; [apply elem_of_cons; now left |].
    cbn [existsb]. rewrite Hd.
    destruct (0 <=? indexOf_call exc k)%Z eqn:Hex.
    + assert (Hun : unnameable exc isC k d = false).
      { destruct k, d; try reflexivity. cbn [unnameable]. rewrite Hex.
        cbn [negb]. now rewrite !andb_false_r. }
      rewrite Hun. cbn [orb].
      exact (IH rounds (advance it) sl1 G ds Ho Hres Hadv Hrounds' Hrest).
    + destruct (p_configurable d) eqn:Hconf; cbn [negb].
      2:{ assert (Hun : unnameable exc isC k d = false).
          { destruct k, d; try reflexivity. cbn [unnameable].
            cbn [p_configurable] in Hconf. subst.
            now rewrite andb_false_r. }
          rewrite Hun. cbn [orb].
          exact (IH rounds (advance it) sl1 G ds Ho Hres Hadv Hrounds' Hrest). }
      assert (Hread1 : isC = false ->
                       plain_read R (iter_heap h0 sl1 false false G)
                         (VObj l) (KStr "constructor") = Some iface).
      { intros HisC. eapply plain_read_mono; eauto.
        - unfold iter_heap. apply objects_kept_app.
        - rewrite iter_heap_length. lia. }
      destruct (restrict_descriptor_forward fuel st _ l isC exc k d iface
                  Hread1) as (d' & t & Hdesc); [| exact Hex | exact Hconf |].
      { intros g s e c -> HisC. exact (Hwf HisC k g s e c Hd). }
      rewrite iter_heap_app in Hdesc.
      destruct (unnameable exc isC k d).
      * cbn [orb]. exists ds, sl1, false, false, t. now apply bind_Throw.
      * cbn [orb]. rewrite (bind_Ok _ _ _ _ _ Hdesc).
        destruct (IH rounds (advance it) sl1 (G ++ t)
                    (descriptors_set ds k d') Ho Hres Hadv Hrounds' Hrest)
          as (ds_out & sl' & fr & dn & G' & Hrun).
        exists ds_out, sl', fr, dn, (t ++ G'). rewrite app_assoc. exact Hrun.
Qed.

Lemma key_has_property (ps : list (key * property)) k :
  k ∈ map fst ps -> is_Some (own ps k).
Proof.
  intros Hin. destruct (own ps k) eqn:E; [eauto |].
  now apply own_None_key in E.
Qed.

(** restrictProperties on an object of the heap always ends: it throws at a
    property that cannot be named, and returns when there is none. *)
Lemma restrictProperties_forward fuel st (h0 : heap) l o isC exc iface :
  h0 !! l = Some (CObj o) ->
  (isC = false -> plain_read R h0 (VObj l) (KStr "constructor") = Some iface) ->
  (isC = false -> accessors_wellformed o) ->
  ((exists k d, own (o_props o) k = Some d /\ unnameable exc isC k d = true) ->
   exists t,
     restrictProperties host_call R fuel (VObj l) isC exc (with_heap st h0)
     = (Throw (TypeError host_msg_symbol_to_string), with_heap st (h0 ++ t)))
  /\ ((forall k d, own (o_props o) k = Some d -> unnameable exc isC k d = false) ->
      exists v st',
        restrictProperties host_call R fuel (VObj l) isC exc (with_heap st h0)
        = (Ok v, st')).
Proof.
  intros Hl Hread Hwf. unfold restrictProperties.
  destruct (propertiesOf_eq R st h0 (VObj l) (o_props o))
    as (it & t & Hprops & Hnames & Hidx & _ & _ & _ & Hsame).
  { simpl. now rewrite Hl. }
  destruct (Hsame l eq_refl) as (Ho & -> & Hres).
  rewrite (bind_Ok _ _ _ _ _ Hprops).
  change (h0 ++ [CArray [] false; CResult false (length h0)])
    with (iter_heap h0 [] false false []).
  destruct (restrict_loop_forward fuel st h0 l o isC exc iface Hl Hread Hwf
              (it_names it) (S (length (it_names it))) it [] [] [] Ho Hres)
    as (ds_out & sl' & fr & dn & G' & Hloop).
  { now rewrite Hidx. }
  { lia. }
  { intros k Hin. apply key_has_property. apply names_cover.
    now rewrite <- Hnames. }
  cbn [app] in Hloop. split.
  - intros (k & d & Hd & Hun).
    assert (HB : existsb (fun k => match own (o_props o) k with
                                   | Some d => unnameable exc isC k d
                                   | None => false
                                   end) (it_names it) = true).
    { apply existsb_exists. exists k. split; [| now rewrite Hd].
      apply list_elem_of_In. rewrite Hnames. apply names_cover.
      eapply own_Some_key; eauto. }
    rewrite HB in Hloop. eexists. apply bind_Throw. exact Hloop.
  - intros Hall.
    assert (HB : existsb (fun k => match own (o_props o) k with
                                   | Some d => unnameable exc isC k d
                                   | None => false
                                   end) (it_names it) = false).
    { destruct (existsb _ (it_names it)) eqn:E; [| reflexivity].
      apply existsb_exists in E as (k & _ & Hk).
      destruct (own (o_props o) k) as [d |] eqn:Hd; [| discriminate].
      now rewrite (Hall k d Hd) in Hk. }
    rewrite HB in Hloop. rewrite (bind_Ok _ _ _ _ _ Hloop).
    destruct (restrict_loop_spec host_call R fuel st h0 l o isC exc iface Hl
                Hread (it_names it) _ it [] [] [] ds_out _ Ho Hres
                ltac:(now rewrite Hidx) Hloop)
      as (G & Hst & Hnd & Hok & _ & _).
    { intros k d' Hk. discriminate. }
    { apply NoDup_nil_2. }
    rewrite Hst. cbn [app]. unfold defineProperties.
    assert (Hl' : st_heap (with_heap st (iter_heap h0 [] true true G)) !! l
                  = Some (CObj o)).
    { simpl. now apply iter_heap_old. }
    assert (Hcur : forall k d', (k, d') ∈ ds_out ->
              exists cur, own (o_props o) k = Some cur
                          /\ p_configurable cur = true).
    { intros k d' Hin.
      assert (Hk : own ds_out k = Some d') by now apply own_elem_NoDup.
      destruct (Hok k d' Hk) as (d & t1 & Hd & Hskip & _).
      exists d. split; [exact Hd |]. unfold skipped in Hskip.
      destruct (p_configurable d); [reflexivity |].
      simpl in Hskip. now rewrite orb_true_r in Hskip. }
    rewrite (bind_Ok _ _ _ _ _ (define_each_eq ds_out _ l o Hl' Hnd Hcur)).
    eexists _, _. reflexivity.
Qed.

(** restrict on a constructor, up to the two calls of restrictProperties:
    the prototype has its type tag. *)
Lemma restrict_through_tag fuel st c oc p op w e cf exceptFor E n :
  st_heap st !! c = Some (CObj oc) ->
  o_call oc <> NotCallable ->
  own (o_props oc) (KStr "prototype") = Some (PData (VObj p) w e cf) ->
  st_heap st !! p = Some (CObj op) ->
  VObj c ∉ st_restrictMap st ->
  options_of exceptFor = Ok E ->
  (own (o_props op) tag_key = None ->
   tag_source R (st_heap st) c E = Some n /\ o_extensible op = true) ->
  restrict host_call R fuel (AVal (VObj c)) exceptFor st
  = (let* _ := restrictProperties host_call R fuel (VObj p) false
                 (opt_exclude E) in
     let* v := restrictProperties host_call R fuel (VObj c) true
                 (opt_excludeStatic E) in
     ret (Returned v))
      (with_heap st (<[p := CObj (with_tag op n)]> (st_heap st))).
Proof.
  intros Hc Hcall Hproto Hp Hreg HE Htag.
  unfold restrict.
  rewrite (bind_Ok _ _ _ _ _ (get_heap_eq _)).
  assert (Hcallable : is_callable (st_heap st) (VObj c) = true).
  { simpl. rewrite Hc. simpl. destruct (o_call oc); congruence. }
  assert (Hty : typeof_arg (st_heap st) (AVal (VObj c)) = "function").
  { simpl. change (is_callable_cell (st_heap st !! c))
      with (is_callable (st_heap st) (VObj c)). now rewrite Hcallable. }
  rewrite Hty. rewrite bool_decide_eq_false_2 by discriminate.
  assert (Hknown : restrictMap_has (VObj c) st = (Ok false, st)).
  { unfold restrictMap_has. now rewrite bool_decide_eq_false_2. }
  rewrite (bind_Ok _ _ _ _ _ Hknown).
  assert (Hverify : verifyIsConstructor (VObj c) VUndef st = (Ok (VObj c), st)).
  { rewrite verifyIsConstructor_eq. unfold constructor_like.
    rewrite Hcallable. unfold own_prototype_slot. rewrite Hc, Hproto.
    reflexivity. }
  rewrite (bind_Ok _ _ _ _ _ Hverify).
  assert (Hgetp : plain_read R (st_heap st) (VObj c) (KStr "prototype")
                  = Some (VObj p)).
  { unfold plain_read, find_prop. simpl. now rewrite Hc, Hproto. }
  rewrite (bind_Ok _ _ _ _ _ (Get_plain_st host_call R fuel st _ _ _ Hgetp)).
  rewrite (bind_Ok _ _ _ _ _ (hasOwn_eq st p op _ Hp)).
  fold tag_key. unfold with_tag.
  assert (Hopts : forall A (k : options -> M A) s,
             bind (read_options exceptFor) k s = k E s).
  { intros A k s. unfold read_options. rewrite HE. apply bind_lift_Ok. }
  destruct (own (o_props op) tag_key) as [d |] eqn:Hown.
  - rewrite bool_decide_eq_true_2 by eauto. cbn [negb]. rewrite bind_ret.
    unfold read_options. rewrite HE. rewrite list_insert_id by exact Hp.
    rewrite with_heap_same. reflexivity.
  - rewrite bool_decide_eq_false_2 by (intros [x Hx]; discriminate).
    cbn [negb]. destruct (Htag eq_refl) as [Hsrc Hext].
    match goal with
    | |- bind ?m _ _ = _ =>
        assert (Hdef : m st
                       = (Ok (VObj p),
                          with_heap st
                            (<[p := CObj
                                 {| o_props := own_set (o_props op) tag_key
                                                 (PData n false false false);
                                    o_proto := o_proto op;
                                    o_extensible := o_extensible op;
                                    o_call := o_call op |}]> (st_heap st))))
    end.
    { rewrite Hopts.
      assert (Hval : (match opt_name E with
                      | Some n0 => ret n0
                      | None => Get host_call R fuel (VObj c) (KStr "name")
                      end) st = (Ok n, st)).
      { unfold tag_source in Hsrc. destruct (opt_name E).
        - now injection Hsrc as ->.
        - now apply Get_plain_st. }
      rewrite (bind_Ok _ _ _ _ _ Hval).
      unfold defineProperty.
      change (is_accessor_desc _ && is_data_desc _) with false. cbv iota.
      rewrite (bind_Ok _ _ _ _ _ (get_heap_eq _)).
      rewrite Hp. unfold validate_and_apply. fold tag_key.
      rewrite Hown, Hext. rewrite (bind_Ok _ _ _ _ _ (store_eq _ _ _)).
      reflexivity. }
    rewrite (bind_Ok _ _ _ _ _ Hdef). unfold read_options. rewrite HE.
    reflexivity.
Qed.

Lemma own_with_tag_inv op n k d :
  own (o_props (with_tag op n)) k = Some d ->
  own (o_props op) k = Some d
  \/ (k = tag_key /\ d = PData n false false false).
Proof.
  unfold with_tag. destruct (own (o_props op) tag_key) eqn:Hown; [now left |].
  cbn [o_props]. rewrite own_own_set.
  destruct (decide (tag_key = k)) as [<- | Hne]; [| now left].
  intros [= <-]. now right.
Qed.

(** restrict completes on every class whose prototype can take the type tag
    and has no accessor under a symbol key that it would have to wrap: it
    returns the constructor, whatever the fuel. The slots that restrict reads
    (prototype, name, constructor) are read without running user code. *)
Theorem restrict_completes fuel st c oc p op w e cf exceptFor E iface n :
  st_heap st !! c = Some (CObj oc) ->
  o_call oc <> NotCallable ->
  own (o_props oc) (KStr "prototype") = Some (PData (VObj p) w e cf) ->
  st_heap st !! p = Some (CObj op) ->
  p <> c ->
  VObj c ∉ st_restrictMap st ->
  options_of exceptFor = Ok E ->
  plain_read R (st_heap st) (VObj p) (KStr "constructor") = Some iface ->
  (own (o_props op) tag_key = None ->
   tag_source R (st_heap st) c E = Some n /\ o_extensible op = true) ->
  accessors_wellformed op ->
  (forall k d, own (o_props op) k = Some d ->
               unnameable (opt_exclude E) false k d = false) ->
  exists st',
    restrict host_call R fuel (AVal (VObj c)) exceptFor st
    = (Ok (Returned (VObj c)), st').
Proof.
  intros Hc Hcall Hproto Hp Hne Hreg HE Hread Htag Hwf Hnames.
  rewrite (restrict_through_tag fuel st c oc p op w e cf exceptFor E n
             Hc Hcall Hproto Hp Hreg HE Htag).
  set (op1 := with_tag op n). set (h1 := <[p := CObj op1]> (st_heap st)).
  assert (Hltp : (p < length (st_heap st))%nat) by (eapply lookup_lt_Some; eauto).
  assert (Hp1 : h1 !! p = Some (CObj op1)).
  { subst h1. now rewrite list_lookup_insert_eq. }
  assert (Hc1 : h1 !! c = Some (CObj oc)).
  { subst h1. now rewrite list_lookup_insert_ne. }
  assert (Hread1 : plain_read R h1 (VObj p) (KStr "constructor") = Some iface).
  { subst h1. rewrite (plain_read_update R (st_heap st) p op op1 _ _ Hp);
      [exact Hread | |].
    - subst op1. unfold with_tag.
      destruct (own (o_props op) tag_key); [reflexivity |]. simpl.
      rewrite own_own_set. now rewrite decide_False.
    - subst op1. unfold with_tag. now destruct (own (o_props op) tag_key). }
  assert (Hwf1 : accessors_wellformed op1).
  { intros k g s e0 c0 Hk. apply own_with_tag_inv in Hk as [Hk | [_ [=]]].
    exact (Hwf k g s e0 c0 Hk). }
  assert (Hnames1 : forall k d, own (o_props op1) k = Some d ->
                                unnameable (opt_exclude E) false k d = false).
  { intros k d Hk. apply own_with_tag_inv in Hk as [Hk | [-> ->]];
      [exact (Hnames k d Hk) | reflexivity]. }
  destruct (proj2 (restrictProperties_forward fuel st h1 p op1 false
                     (opt_exclude E) iface Hp1 (fun _ => Hread1)
                     (fun _ => Hwf1)) Hnames1)
    as (v1 & st1 & Hrun1).
  rewrite (bind_Ok _ _ _ _ _ Hrun1).
  destruct (restrictProperties_spec host_call R fuel st h1 p op1 false
              (opt_exclude E) iface v1 st1 Hp1 (fun _ => Hread1) Hrun1)
    as (op' & G1 & -> & -> & _).
  set (H1 := iter_heap (<[p := CObj op']> h1) [] true true G1).
  assert (HcH1 : H1 !! c = Some (CObj oc)).
  { subst H1. apply iter_heap_old. now rewrite list_lookup_insert_ne. }
  destruct (proj2 (restrictProperties_forward fuel st H1 c oc true
                     (opt_excludeStatic E) VUndef HcH1
                     ltac:(discriminate) ltac:(discriminate)))
    as (v2 & st2 & Hrun2).
  { intros k d _. now destruct k, d. }
  rewrite (bind_Ok _ _ _ _ _ Hrun2).
  destruct (restrictProperties_spec host_call R fuel st H1 c oc true
              (opt_excludeStatic E) VUndef v2 st2 HcH1 ltac:(discriminate)
              Hrun2)
    as (oc' & G2 & -> & _).
  exists st2. reflexivity.
Qed.

(** restrict cannot process a class with a configurable accessor under a
    symbol key, unless the key is excluded: building the name of the guard
    throws the host's TypeError for the conversion of a symbol to a string.
    By then the type tag has been added to the prototype, and no property of
    the prototype or of the constructor has been locked. *)
Theorem restrict_throws_on_symbol_accessor fuel st c oc p op w e cf exceptFor
        E iface n m g s e0 :
  st_heap st !! c = Some (CObj oc) ->
  o_call oc <> NotCallable ->
  own (o_props oc) (KStr "prototype") = Some (PData (VObj p) w e cf) ->
  st_heap st !! p = Some (CObj op) ->
  p <> c ->
  VObj c ∉ st_restrictMap st ->
  options_of exceptFor = Ok E ->
  plain_read R (st_heap st) (VObj p) (KStr "constructor") = Some iface ->
  (own (o_props op) tag_key = None ->
   tag_source R (st_heap st) c E = Some n /\ o_extensible op = true) ->
  accessors_wellformed op ->
  own (o_props op) (KSym m) = Some (PAccessor g s e0 true) ->
  g <> VUndef \/ s <> VUndef ->
  (indexOf_call (opt_exclude E) (KSym m) < 0)%Z ->
  exists st',
    restrict host_call R fuel (AVal (VObj c)) exceptFor st
    = (Throw (TypeError host_msg_symbol_to_string), st')
    /\ st_heap st' !! p = Some (CObj (with_tag op n))
    /\ st_heap st' !! c = Some (CObj oc).
Proof.
  intros Hc Hcall Hproto Hp Hne Hreg HE Hread Htag Hwf Hacc Hfun Hex.
  rewrite (restrict_through_tag fuel st c oc p op w e cf exceptFor E n
             Hc Hcall Hproto Hp Hreg HE Htag).
  set (op1 := with_tag op n). set (h1 := <[p := CObj op1]> (st_heap st)).
  assert (Hltp : (p < length (st_heap st))%nat) by (eapply lookup_lt_Some; eauto).
  assert (Hp1 : h1 !! p = Some (CObj op1)).
  { subst h1. now rewrite list_lookup_insert_eq. }
  assert (Hc1 : h1 !! c = Some (CObj oc)).
  { subst h1. now rewrite list_lookup_insert_ne. }
  assert (Hread1 : plain_read R h1 (VObj p) (KStr "constructor") = Some iface).
  { subst h1. rewrite (plain_read_update R (st_heap st) p op op1 _ _ Hp);
      [exact Hread | |].
    - subst op1. unfold with_tag.
      destruct (own (o_props op) tag_key); [reflexivity |]. simpl.
      rewrite own_own_set. now rewrite decide_False.
    - subst op1. unfold with_tag. now destruct (own (o_props op) tag_key). }
  assert (Hwf1 : accessors_wellformed op1).
  { intros k g0 s0 e1 c0 Hk. apply own_with_tag_inv in Hk as [Hk | [_ [=]]].
    exact (Hwf k g0 s0 e1 c0 Hk). }
  destruct (proj1 (restrictProperties_forward fuel st h1 p op1 false
                     (opt_exclude E) iface Hp1 (fun _ => Hread1)
                     (fun _ => Hwf1)))
    as (t & Hrun1).
  { exists (KSym m), (PAccessor g s e0 true). split.
    - subst op1. now apply own_with_tag.
    - cbn [unnameable negb andb].
      assert (Hx : (0 <=? indexOf_call (opt_exclude E) (KSym m))%Z = false)
        by (apply Z.leb_gt; exact Hex).
      rewrite Hx. cbn [negb andb].
      destruct (Hwf _ _ _ _ _ Hacc) as [[-> | [x ->]] [-> | [y ->]]];
        try reflexivity.
      destruct Hfun; congruence. }
  eexists. split; [apply bind_Throw; exact Hrun1 |].
  cbn [st_heap with_heap]. split; now apply lookup_app_l_Some.
Qed.

(** The options of restrict may be left out but may not be null: with null
    as its second argument restrict throws the host's TypeError for reading a
    property of null, before it writes anything. *)
Theorem restrict_null_options_throws fuel st c oc p op w e cf :
  st_heap st !! c = Some (CObj oc) ->
  o_call oc <> NotCallable ->
  own (o_props oc) (KStr "prototype") = Some (PData (VObj p) w e cf) ->
  st_heap st !! p = Some (CObj op) ->
  VObj c ∉ st_restrictMap st ->
  restrict host_call R fuel (AVal (VObj c)) (AVal VNull) st
  = (Throw (TypeError host_msg_nullish), st).
Proof.
  intros Hc Hcall Hproto Hp Hreg. unfold restrict.
  rewrite (bind_Ok _ _ _ _ _ (get_heap_eq _)).
  assert (Hcallable : is_callable (st_heap st) (VObj c) = true).
  { simpl. rewrite Hc. simpl. destruct (o_call oc); congruence. }
  assert (Hty : typeof_arg (st_heap st) (AVal (VObj c)) = "function").
  { simpl. change (is_callable_cell (st_heap st !! c))
      with (is_callable (st_heap st) (VObj c)). now rewrite Hcallable. }
  rewrite Hty. rewrite bool_decide_eq_false_2 by discriminate.
  assert (Hknown : restrictMap_has (VObj c) st = (Ok false, st)).
  { unfold restrictMap_has. now rewrite bool_decide_eq_false_2. }
  rewrite (bind_Ok _ _ _ _ _ Hknown).
  assert (Hverify : verifyIsConstructor (VObj c) VUndef st = (Ok (VObj c), st)).
  { rewrite verifyIsConstructor_eq. unfold constructor_like.
    rewrite Hcallable. unfold own_prototype_slot. rewrite Hc, Hproto.
    reflexivity. }
  rewrite (bind_Ok _ _ _ _ _ Hverify).
  assert (Hgetp : plain_read R (st_heap st) (VObj c) (KStr "prototype")
                  = Some (VObj p)).
  { unfold plain_read, find_prop. simpl. now rewrite Hc, Hproto. }
  rewrite (bind_Ok _ _ _ _ _ (Get_plain_st host_call R fuel st _ _ _ Hgetp)).
  rewrite (bind_Ok _ _ _ _ _ (hasOwn_eq st p op _ Hp)).
  destruct (bool_decide (is_Some (own (o_props op) (KSym Symbol_toStringTag))));
    reflexivity.
Qed.

(** In the other order the two functions compose: after a completed
    restrict(C), sealed(C) succeeds, and then neither the constructor nor the
    prototype is extensible or has a configurable property. *)
Theorem restrict_then_sealed fuel fuel' st c oc p op w e cf exceptFor E iface
        n res st' :
  st_heap st !! c = Some (CObj oc) ->
  o_call oc <> NotCallable ->
  own (o_props oc) (KStr "prototype") = Some (PData (VObj p) w e cf) ->
  st_heap st !! p = Some (CObj op) ->
  p <> c ->
  VObj c ∉ st_restrictMap st ->
  options_of exceptFor = Ok E ->
  plain_read R (st_heap st) (VObj p) (KStr "constructor") = Some iface ->
  (own (o_props op) tag_key = None -> tag_source R (st_heap st) c E = Some n) ->
  restrict host_call R fuel (AVal (VObj c)) exceptFor st = (Ok res, st') ->
  exists st'',
    sealed host_call R fuel' (VObj c) st' = (Ok (VObj c), st'')
    /\ forall x, x = c \/ x = p ->
         exists o'',
           st_heap st'' !! x = Some (CObj o'')
           /\ o_extensible o'' = false
           /\ forall k d, own (o_props o'') k = Some d ->
                          p_configurable d = false.
Proof.
  intros Hc Hcall Hproto Hp Hne Hreg HE Hread Htag Hrun.
  rewrite <- (with_heap_same st) in Hrun.
  destruct (restrict_spec host_call R fuel st (st_heap st) c oc p op w e cf
              exceptFor E iface n res st'
              Hc Hcall Hproto Hp Hne Hreg HE Hread Htag Hrun)
    as (op' & oc' & hF & -> & -> & HpF & HcF & _ & _ & _ & _ & Hstatic
        & _ & (_ & _ & Hcall')).
  assert (Hproto' : exists w' e' cf',
             own (o_props oc') (KStr "prototype")
             = Some (PData (VObj p) w' e' cf')).
  { rewrite (Hstatic _ _ Hproto).
    destruct (skipped (opt_excludeStatic E) (KStr "prototype")
                      (PData (VObj p) w e cf)); cbn [lock_static]; eauto. }
  destruct Hproto' as (w' & e' & cf' & Hproto').
  destruct (sealed_eq host_call R fuel' (with_heap st hF) c p oc' op' w' e' cf'
              HcF ltac:(congruence) Hproto' HpF)
    as (h2 & Hseal & _ & Hc2 & Hp2 & _).
  eexists. split; [exact Hseal |]. cbn [st_heap with_heap].
  assert (Hsealed : forall o k d,
             own (o_props (seal_object o)) k = Some d ->
             p_configurable d = false).
  { intros o k d. cbn [seal_object o_props]. rewrite own_map_seal.
    destruct (own (o_props o) k) as [[? ? ? ? | ? ? ? ?] |]; intros [= <-];
      reflexivity. }
  intros x [-> | ->]; eexists; (split; [eassumption |]);
    (split; [reflexivity | apply Hsealed]).
Qed.

End Completing.

(** ** The further properties on the example classes *)

Lemma accessors_wellformed_check o :
  forallb (fun kd => accessor_functions_ok (snd kd)) (o_props o) = true ->
  accessors_wellformed o.
Proof.
  intros Hall k g s e c Hk. apply own_Some_elem in Hk.
  rewrite forallb_forall in Hall.
  specialize (Hall _ (proj1 (list_elem_of_In _ _) Hk)). cbn in Hall.
  apply andb_prop in Hall as [Hg Hs]. unfold function_or_undefined. split.
  - destruct g; try discriminate; eauto.
  - destruct s; try discriminate; eauto.
Qed.

Lemma nameable_check exc isC (ps : list (key * property)) :
  forallb (fun kd => negb (unnameable exc isC (fst kd) (snd kd))) ps = true ->
  forall k d, own ps k = Some d -> unnameable exc isC k d = false.
Proof.
  intros Hall k d Hk. apply own_Some_elem in Hk.
  rewrite forallb_forall in Hall.
  specialize (Hall _ (proj1 (list_elem_of_In _ _) Hk)). cbn in Hall.
  now apply negb_true_iff in Hall.
Qed.

Lemma validateInterface_makes_guard_witness :
  exists t,
    let g := VObj (length (st_heap (state_of class_C))) in
    let st' := with_heap (state_of class_C) (st_heap (state_of class_C) ++ t) in
    validateInterface realm0 (VObj 7) (VStr "m") (VObj 9) (state_of class_C)
    = (Ok g, st')
    /\ call_kind (st_heap st') g = Some (Guard (VObj 7) (VStr "m") (VObj 9))
    /\ proto_of (st_heap st') g = Some (VObj 9)
    /\ isConstructor g st' = (Ok true, st').
Proof.
  exact (validateInterface_makes_guard realm0 (state_of class_C)
           (VObj 7) (VStr "m") (VObj 9) I).
Defined.

Lemma guard_inherits_properties_witness :
  exists g st',
    validateInterface realm0 (VObj 7) (VStr "m") (VObj 9) (state_of class_C)
    = (Ok g, st')
    /\ Get host_call0 realm0 0 g (KStr "apply") st' = (Ok (VObj 2), st').
Proof.
  apply (guard_inherits_properties host_call0 realm0 0 (state_of class_C)
           (VObj 7) (VStr "m") 9%nat (KStr "apply") (VObj 2));
    [vm_compute; reflexivity | discriminate.. ].
Defined.

Lemma guard_accepts_instances_witness :
  call host_call0 realm0 2 (VObj 16) (VObj 11) [VNum 1] restricted_S_host
  = call host_call0 realm0 1 (VObj 9) (VObj 11) [VNum 1] restricted_S_host
  /\ call host_call0 realm0 2 (VObj 16) (VObj 0) [VNum 1] restricted_S_host
     = (Throw (TypeError
          "'m' called on an object that does not implement interface S."),
        restricted_S_host).
Proof.
  assert (H7 : { oc | st_heap restricted_S_host !! 7%nat = Some (CObj oc)
                      /\ o_call oc = HostFn 10 }).
  { eexists. split; vm_compute; reflexivity. }
  destruct H7 as (oc & H7 & Hcall).
  pose proof (guard_accepts_instances host_call0 realm0 0 restricted_S_host
                (VObj 16) 7%nat oc 13%nat
                {| o_props := []; o_proto := VObj 1; o_extensible := true;
                   o_call := BuiltinHasInstance |}
                (VObj 2) 8%nat (VStr "m") (VObj 9) [VNum 1]
                ltac:(vm_compute; reflexivity) H7
                ltac:(rewrite Hcall; discriminate)
                ltac:(vm_compute; reflexivity) ltac:(vm_compute; reflexivity)
                eq_refl ltac:(vm_compute; reflexivity)
                ltac:(vm_compute; reflexivity) ltac:(vm_compute; reflexivity))
    as [Hin Hout].
  split.
  - apply (Hin 11%nat {| o_props := []; o_proto := VObj 8;
                         o_extensible := true; o_call := NotCallable |});
      vm_compute; reflexivity.
  - apply (Hout 0%nat {| o_props := []; o_proto := VNull;
                         o_extensible := true; o_call := NotCallable |}
                "m" (VStr "S") "S"); vm_compute; reflexivity.
Defined.

Lemma indexOf_call_finds_listed_keys_witness :
  (0 <=? indexOf_call (Some [VStr "x"; VStr "m"]) (KStr "m"))%Z = true
  /\ indexOf_call (Some [VNum 0]) (KStr "0") = (-1)%Z.
Proof.
  split.
  - apply (proj1 (indexOf_call_finds_listed_keys
                    (Some [VStr "x"; VStr "m"]) (KStr "m"))).
    exists [VStr "x"; VStr "m"]. split; [reflexivity |].
    apply elem_of_cons. right. apply elem_of_cons. now left.
  - apply (proj2 (indexOf_call_finds_listed_keys (Some [VNum 0]) (KStr "0"))
                 [VNum 0] eq_refl).
    constructor; [now exists 0%Z | constructor].
Defined.

Lemma decorator_call_as_restrict_witness :
  restrict host_call0 realm0 1 exclude_m (AVal (VNum 5)) (state_of class_C)
  = (Ok (Decorator exclude_m), state_of class_C)
  /\ decorator_call host_call0 realm0 1 exclude_m (VObj 7) (state_of class_C)
     = restrict host_call0 realm0 1 (AVal (VObj 7)) exclude_m (state_of class_C).
Proof.
  exact (decorator_call_as_restrict host_call0 realm0 1 (state_of class_C)
           exclude_m (VObj 7) (AVal (VNum 5)) eq_refl eq_refl).
Defined.

Lemma propertiesOf_reads_descriptors_late_witness :
  exists it st1 st2 st3,
    propertiesOf realm0 (VObj 8) (state_of class_C) = (Ok it, st1)
    /\ delete_property (VObj 8) (KStr "m") st1 = (Ok true, st2)
    /\ drain 4 it st2
       = (Ok [(SKey (KStr "constructor"),
               SDesc (Some (PData (VObj 7) true false true)));
              (SKey (KStr "m"), SDesc None);
              (SKey (KStr "x"),
               SDesc (Some (PAccessor (VObj 10) VUndef false true)))], st3).
Proof.
  destruct (propertiesOf_reads_descriptors_late realm0 (state_of class_C)
              8%nat class_C_prototype (KStr "m")
              (PData (VObj 9) true false true) 4%nat
              eq_refl eq_refl eq_refl ltac:(cbn; lia))
    as (it & st2 & st3 & H1 & H2 & _ & H3 & _).
  exists it. eexists. exists st2, st3.
  split; [exact H1 |]. split; [exact H2 | exact H3].
Defined.

Lemma sealed_idempotent_witness :
  exists st1,
    sealed host_call0 realm0 1 (VObj 7) (state_of class_C) = (Ok (VObj 7), st1)
    /\ sealed host_call0 realm0 1 (VObj 7) st1 = (Ok (VObj 7), st1).
Proof.
  exact (sealed_idempotent host_call0 realm0 1 (state_of class_C) 7%nat 8%nat
           class_C_constructor class_C_prototype false false false
           eq_refl ltac:(discriminate) eq_refl eq_refl).
Defined.

Lemma sealed_primitive_prototype_witness :
  sealed host_call0 realm0 1 (VObj 7) (state_of function_N)
  = (Ok (VObj 7),
     with_heap (state_of function_N)
       (<[7%nat := CObj (seal_object function_N_object)]>
          (st_heap (state_of function_N)))).
Proof.
  exact (sealed_primitive_prototype host_call0 realm0 1 (state_of function_N)
           7%nat function_N_object VNull true false false
           eq_refl ltac:(discriminate) eq_refl I).
Defined.

Lemma restrict_needs_extensible_prototype_witness :
  restrict host_call0 realm0 1 (AVal (VObj 7)) (AVal VUndef)
           (state_of class_C_fixed)
  = (Throw (TypeError host_msg_cannot_define), state_of class_C_fixed).
Proof.
  exact (restrict_needs_extensible_prototype host_call0 realm0 1
           (state_of class_C_fixed) 7%nat class_C_constructor 8%nat
           class_C_prototype_fixed false false false (AVal VUndef) no_options
           (VStr "C")
           eq_refl ltac:(discriminate) eq_refl eq_refl
           ltac:(apply not_elem_of_nil) eq_refl eq_refl eq_refl eq_refl).
Defined.

Lemma sealed_then_restrict_throws_witness :
  exists st1,
    sealed host_call0 realm0 1 (VObj 7) (state_of class_C) = (Ok (VObj 7), st1)
    /\ restrict host_call0 realm0 1 (AVal (VObj 7)) (AVal VUndef) st1
       = (Throw (TypeError host_msg_cannot_define), st1).
Proof.
  exact (sealed_then_restrict_throws host_call0 realm0 1 (state_of class_C)
           7%nat class_C_constructor 8%nat class_C_prototype
           false false false (AVal VUndef) no_options (VStr "C")
           eq_refl ltac:(discriminate) eq_refl eq_refl
           ltac:(apply not_elem_of_nil) eq_refl eq_refl eq_refl).
Defined.

Lemma restrict_rejects_primitive_prototype_witness :
  restrict host_call0 realm0 1 (AVal (VObj 7)) (AVal VUndef)
           (state_of function_N)
  = (Throw (TypeError host_msg_nullish), state_of function_N).
Proof.
  exact (restrict_rejects_primitive_prototype host_call0 realm0 1
           (state_of function_N) 7%nat function_N_object VNull true false false
           (AVal VUndef) no_options VUndef
           eq_refl ltac:(discriminate) eq_refl ltac:(apply not_elem_of_nil) I).
Defined.

Lemma restrict_changes_only_the_class_witness :
  exists st',
    restrict host_call0 realm0 1 (AVal (VObj 7)) (AVal VUndef) (state_of class_C)
    = (Ok (Returned (VObj 7)), st')
    /\ st_heap st' !! 9%nat = class_C !! 9%nat
    /\ exists op' oc',
         st_heap st' !! 8%nat = Some (CObj op')
         /\ st_heap st' !! 7%nat = Some (CObj oc')
         /\ o_extensible op' = true /\ o_extensible oc' = true
         /\ map fst (o_props op')
            = [KStr "constructor"; KStr "m"; KStr "x"; tag_key].
Proof.
  set (run := restrict host_call0 realm0 1 (AVal (VObj 7)) (AVal VUndef)
                       (state_of class_C)).
  assert (Hrun : run = (Ok (Returned (VObj 7)), snd run))
    by (vm_compute; reflexivity).
  destruct (restrict_changes_only_the_class host_call0 realm0 1
              (state_of class_C) 7%nat class_C_constructor
              8%nat class_C_prototype
              false false false (AVal VUndef) no_options
              (VObj 7) (VStr "C") (Returned (VObj 7)) (snd run)
              eq_refl ltac:(discriminate) eq_refl eq_refl ltac:(discriminate)
              ltac:(apply not_elem_of_nil) eq_refl eq_refl
              ltac:(reflexivity) Hrun)
    as (_ & Hframe & op' & oc' & Hp & Hc & _ & Hep & _ & _ & Hec & _ & _ & Hk).
  exists (snd run). split; [exact Hrun |]. split.
  - apply Hframe; [cbn; lia | discriminate | discriminate].
  - exists op', oc'. repeat split; assumption.
Defined.

Lemma restrict_completes_witness :
  exists st',
    restrict host_call0 realm0 0 (AVal (VObj 7)) exclude_m (state_of class_C)
    = (Ok (Returned (VObj 7)), st').
Proof.
  apply (restrict_completes host_call0 realm0 0 (state_of class_C)
           7%nat class_C_constructor 8%nat class_C_prototype
           false false false exclude_m
           {| opt_name := None; opt_exclude := Some [VStr "m"];
              opt_excludeStatic := None |}
           (VObj 7) (VStr "C")
           eq_refl ltac:(discriminate) eq_refl eq_refl ltac:(discriminate)
           ltac:(apply not_elem_of_nil) eq_refl eq_refl).
  - intros _. split; reflexivity.
  - apply accessors_wellformed_check. reflexivity.
  - apply nameable_check. reflexivity.
Defined.

Lemma restrict_throws_on_symbol_accessor_witness :
  exists st',
    restrict host_call0 realm0 1 (AVal (VObj 7)) (AVal VUndef) (state_of class_G)
    = (Throw (TypeError host_msg_symbol_to_string), st')
    /\ st_heap st' !! 8%nat = class_G !! 8%nat
    /\ st_heap st' !! 7%nat = class_G !! 7%nat.
Proof.
  apply (restrict_throws_on_symbol_accessor host_call0 realm0 1
           (state_of class_G) 7%nat
           {| o_props := initial_props ClassConstructor "G" 8;
              o_proto := VObj 1; o_extensible := true; o_call := HostFn 10 |}
           8%nat
           {| o_props := [(KStr "constructor", PData (VObj 7) true false true);
                          (tag_key, PAccessor (VObj 9) VUndef false true)];
              o_proto := VObj 0; o_extensible := true;
              o_call := NotCallable |}
           false false false (AVal VUndef) no_options (VObj 7) VUndef
           Symbol_toStringTag (VObj 9) VUndef false
           eq_refl ltac:(discriminate) eq_refl eq_refl ltac:(discriminate)
           ltac:(apply not_elem_of_nil) eq_refl eq_refl).
  - intros H. discriminate H.
  - apply accessors_wellformed_check. reflexivity.
  - reflexivity.
  - left. discriminate.
  - reflexivity.
Defined.

Lemma restrict_null_options_throws_witness :
  restrict host_call0 realm0 1 (AVal (VObj 7)) (AVal VNull) (state_of class_C)
  = (Throw (TypeError host_msg_nullish), state_of class_C).
Proof.
  exact (restrict_null_options_throws host_call0 realm0 1 (state_of class_C)
           7%nat class_C_constructor 8%nat class_C_prototype
           false false false
           eq_refl ltac:(discriminate) eq_refl eq_refl
           ltac:(apply not_elem_of_nil)).
Defined.

Lemma restrict_then_sealed_witness :
  exists st' st'',
    restrict host_call0 realm0 1 (AVal (VObj 7)) (AVal VUndef) (state_of class_C)
    = (Ok (Returned (VObj 7)), st')
    /\ sealed host_call0 realm0 1 (VObj 7) st' = (Ok (VObj 7), st'')
    /\ forall x, x = 7%nat \/ x = 8%nat ->
         exists o'',
           st_heap st'' !! x = Some (CObj o'')
           /\ o_extensible o'' = false
           /\ forall k d, own (o_props o'') k = Some d ->
                          p_configurable d = false.
Proof.
  set (run := restrict host_call0 realm0 1 (AVal (VObj 7)) (AVal VUndef)
                       (state_of class_C)).
  assert (Hrun : run = (Ok (Returned (VObj 7)), snd run))
    by (vm_compute; reflexivity).
  destruct (restrict_then_sealed host_call0 realm0 1 1
              (state_of class_C) 7%nat class_C_constructor
              8%nat class_C_prototype
              false false false (AVal VUndef) no_options
              (VObj 7) (VStr "C") (Returned (VObj 7)) (snd run)
              eq_refl ltac:(discriminate) eq_refl eq_refl ltac:(discriminate)
              ltac:(apply not_elem_of_nil) eq_refl eq_refl
              ltac:(reflexivity) Hrun)
    as (st'' & Hseal & Hall).
  exists (snd run), st''. split; [exact Hrun |]. split; [exact Hseal | exact Hall].
Defined.
